(** * plotly.io._json : engine dispatch, canonicalisation and strict JSON

    A shallow embedding of [packages/python/plotly/plotly/io/_json.py].
    Python values are an inductive type [obj]; exceptions are explicit
    ([result]); the interpreter state the module reads (which optional
    packages can be imported or are loaded) is an explicit [world] that
    every call receives. *)

From Stdlib Require Import ZArith NArith List String Ascii Bool Lia.
From Stdlib Require Import Permutation Sorted.
From Stdlib Require DecimalFacts DecimalN OrderedTypeEx.
Import ListNotations.
Local Open Scope list_scope.
Local Open Scope string_scope.

Set Implicit Arguments.
Set Warnings "-register-all".

(** ** Exceptions and results *)

(** The exception classes the module raises or catches.  [JSONDecodeError]
    is a subclass of [ValueError] in Python, which [is_ValueError] records. *)
Inductive exn : Type :=
| ValueError (msg : string)
| TypeError (msg : string)
| KeyError (key : string)
| AttributeError (attr : string)
| JSONDecodeError (msg : string)
| RecursionError.

Definition is_ValueError (e : exn) : bool :=
  match e with
  | ValueError _ | JSONDecodeError _ => true
  | _ => false
  end.

Definition is_TypeError (e : exn) : bool :=
  match e with
  | TypeError _ => true
  | _ => false
  end.

Inductive result (A : Type) : Type :=
| Ok (a : A)
| Raise (e : exn).

Arguments Ok {A} a.
Arguments Raise {A} e.

Definition bind {A B : Type} (r : result A) (k : A -> result B) : result B :=
  match r with
  | Ok a => k a
  | Raise e => Raise e
  end.

Notation "x <- r ;; k" := (bind r (fun x => k))
  (at level 61, r at next level, right associativity).

(** [[f(v) for v in l]] where [f] may raise: the first exception escapes. *)
Definition mapM {A B : Type} (f : A -> result B) : list A -> result (list B) :=
  fix go (l : list A) : result (list B) :=
    match l with
    | [] => Ok []
    | x :: t =>
        match f x with
        | Ok y => match go t with
                  | Ok ys => Ok (y :: ys)
                  | Raise e => Raise e
                  end
        | Raise e => Raise e
        end
    end.

(** [(k, f(v))] for an item [(k, v)] of a dict. *)
Definition on_values {A B : Type} (f : A -> B) (kv : string * A) : string * B :=
  let '(k, v) := kv in (k, f v).

(** ** The interpreter state the module observes *)

(** [present w name]: the package can be imported; [loaded w name]: it is
    already in [sys.modules]. *)
Record world : Type := World {
  present : string -> bool;
  loaded : string -> bool
}.

Inductive pymodule : Type := Module (name : string).

(** Modelled from the spec: [_plotly_utils.optional_imports.get_module] is
    not part of the sources at hand.  The spec has an optional dependency
    resolved at call time ("availability changes are observed on the next
    call") and an adapter "consulted only if loaded": with [should_load] the
    module is returned when the package is present, without it only when it
    is already loaded. *)
Definition get_module (w : world) (name : string) (should_load : bool)
  : option pymodule :=
  if loaded w name || (should_load && present w name)
  then Some (Module name) else None.

(** ** Python values *)

(** A float is one of the three non-finite values or a finite one, kept as
    the decimal literal [float.__repr__] prints: sign, integer part,
    fraction digits, and the sign and digits of the exponent.  Binary
    rounding and overflow are not modelled. *)
Record float_lit : Type := FloatLit {
  f_neg : bool;
  f_int : N;
  f_frac : Decimal.uint;                 (* [Nil]: no fraction part *)
  f_exp : option (bool * Decimal.uint)   (* [None]: no exponent *)
}.

Inductive pyfloat : Type :=
| FNaN
| FInf
| FNegInf
| FFinite (r : float_lit).

Inductive dtype_kind : Type := Kb | Ki | Ku | Kf | KM | KU | KO | Kother.

(** The kinds of value [clean_to_json_compatible] tells apart.  An object of
    an external class carries what its methods return, so it stands for an
    object whose methods do return: a [Decimal] that [float()] converts (not
    a signalling NaN), an image that [pil_image_to_uri] accepts.  The keys
    of a dict are [str]; a dict with keys of another type is not a value of
    this type. *)
Inductive obj : Type :=
| PNone
| PBool (b : bool)
| PInt (z : Z)
| PFloat (f : pyfloat)
| PStr (s : string)
| PBytes (s : string)
| PList (l : list obj)
| PTuple (l : list obj)
| PDict (items : list (string * obj))
(* an object with [to_plotly_json()], which returns [view] *)
| PExportable (view : obj)
(* a Sage number: [obj in RR], [obj in ZZ], [float(obj)], [int(obj)] *)
| PSage (in_RR in_ZZ : bool) (as_float : pyfloat) (as_int : Z)
(* [np.ma.core.masked] *)
| PMasked
(* [np.ndarray]: dtype kind, [tolist()], [np.datetime_as_string(a).tolist()] *)
| PNdarray (kind : dtype_kind) (tolist : obj) (datetime_strings : obj)
(* [np.datetime64]: [str(obj)], [tolist()] *)
| PDatetime64 (str : string) (tolist : obj)
(* [pd.NaT] *)
| PNaT
(* [pd.Series]: dtype kind, [values], [dt.to_pydatetime().tolist()], [tolist()] *)
| PSeries (kind : dtype_kind) (values : obj) (pydatetimes : list obj)
          (tolist : obj)
(* [pd.DatetimeIndex]: the same with [to_pydatetime().tolist()] *)
| PDatetimeIndex (kind : dtype_kind) (values : obj) (pydatetimes : list obj)
                 (tolist : obj)
(* [datetime.datetime]: [isoformat()] *)
| PDatetime (iso : string)
(* [datetime.date]: [isoformat()], not an instance of [datetime.datetime] *)
| PDate (iso : string)
(* [pd.Timestamp]: [to_pydatetime()] and [isoformat()] *)
| PTimestamp (naive : obj) (iso : string)
(* [decimal.Decimal]: [float(obj)] *)
| PDecimal (as_float : pyfloat)
(* [PIL.Image.Image]: [ImageUriValidator.pil_image_to_uri(obj)] *)
| PImage (uri : string)
(* any other object with [tolist()] *)
| PArrayLike (tolist : obj)
(* an object with none of the capabilities above *)
| POpaque (id : N).

(** ** JsonConfig *)

Definition _valid_engines : list string := ["legacy"; "json"; "orjson"; "auto"].

Definition str_in (s : string) (l : list string) : bool :=
  existsb (String.eqb s) l.

Arguments str_in : simpl never.

Record JsonConfig : Type := { _default_engine : string }.

Definition JsonConfig_init : JsonConfig := {| _default_engine := "auto" |}.

Definition default_engine (c : JsonConfig) : string := _default_engine c.

Definition validate_orjson (w : world) : result unit :=
  match get_module w "orjson" true with
  | None => Raise (ValueError "The orjson engine requires the orjson package")
  | Some _ => Ok tt
  end.

(** The message of the setter's [ValueError] formats [val]; only its fixed
    part is kept. *)
Definition unsupported_engine_msg : string := "Supported JSON engines include".

(** The setter: the state after the call and what the call returns.  The
    attribute is written by the last statement only, and a value that passed
    the first test is one of the four strings. *)
Definition set_default_engine (w : world) (c : JsonConfig) (val : obj)
  : JsonConfig * result unit :=
  match val with
  | PStr s =>
      if negb (str_in s _valid_engines) then
        (c, Raise (ValueError unsupported_engine_msg))
      else
        match (if String.eqb s "orjson" then validate_orjson w else Ok tt) with
        | Raise e => (c, Raise e)
        | Ok _ => ({| _default_engine := s |}, Ok tt)
        end
  | _ => (c, Raise (ValueError unsupported_engine_msg))
  end.

(** ** clean_to_json_compatible *)

(** The keyword arguments: each may be left out. *)
Record kwargs : Type := Kwargs {
  kw_numpy_allowed : option bool;
  kw_datetime_allowed : option bool;
  kw_modules : option (list (string * option pymodule))
}.

(** [d.get(key, default)] on the keyword dictionary. *)
Definition kwargs_get {A : Type} (v : option A) (default : A) : A :=
  match v with
  | Some a => a
  | None => default
  end.

(** [d[key]]: a missing key raises [KeyError]. *)
Fixpoint getitem {V : Type} (d : list (string * V)) (key : string) : result V :=
  match d with
  | [] => Raise (KeyError key)
  | (k, v) :: t => if String.eqb k key then Ok v else getitem t key
  end.

Definition to_plotly_json (o : obj) : option obj :=
  match o with
  | PExportable view => Some view
  | _ => None
  end.

Definition to_pydatetime (o : obj) : option obj :=
  match o with
  | PTimestamp naive _ => Some naive
  | PDatetimeIndex _ _ dts _ => Some (PNdarray KO (PList dts) PNone)
  | _ => None
  end.

Definition isoformat (o : obj) : option string :=
  match o with
  | PDatetime iso | PDate iso | PTimestamp _ iso => Some iso
  | PNaT => Some "NaT"
  | _ => None
  end.

Definition tolist_of (o : obj) : option obj :=
  match o with
  | PNdarray _ t _ | PDatetime64 _ t | PSeries _ _ _ t
  | PDatetimeIndex _ _ _ t | PArrayLike t => Some t
  | PMasked => Some PNone
  | _ => None
  end.

Definition is_datetime (o : obj) : bool :=
  match o with
  | PDatetime _ | PTimestamp _ _ => true
  | _ => false
  end.

(** [kind in ("b", "i", "u", "f")] *)
Definition numeric_kind (k : dtype_kind) : bool :=
  match k with
  | Kb | Ki | Ku | Kf => true
  | _ => false
  end.

Definition is_some {A : Type} (o : option A) : bool :=
  match o with
  | Some _ => true
  | None => false
  end.

(** [dt_values[i] = dt_values[i].isoformat()] for every [i]. *)
Definition isoformat_all (l : list obj) : result (list obj) :=
  mapM (fun d => match isoformat d with
                 | Some s => Ok (PStr s)
                 | None => Raise (AttributeError "isoformat")
                 end) l.

Section CleanStages.

(** The blocks of the function after the keyword arguments are unpacked.
    Each either returns or goes on to the next block [k] with the current
    value of [obj]. *)
Variables (numpy_allowed datetime_allowed : bool).
Variables (sage_all np pd image : option pymodule).

Definition sage_block (o : obj) (k : obj -> result obj) : result obj :=
  if is_some sage_all then
    match o with
    | PSage in_RR in_ZZ f z =>
        if in_RR then Ok (PFloat f)
        else if in_ZZ then Ok (PInt z)
        else k o
    | _ => k o
    end
  else k o.

Definition numpy_block (o : obj) (k : obj -> result obj) : result obj :=
  if is_some np then
    match o with
    | PMasked => Ok (PFloat FNaN)
    | PNdarray kind tl ds =>
        if numpy_allowed && numeric_kind kind then Ok o
        else match kind with
             | KM => Ok ds
             | KU => Ok tl
             | KO => k tl
             | _ => k o
             end
    | PDatetime64 s _ => Ok (PStr s)
    | _ => k o
    end
  else k o.

Definition series_block (o : obj) (kind : dtype_kind) (values : obj)
    (dts : list obj) (k : obj -> result obj) : result obj :=
  if numpy_allowed && numeric_kind kind then
    match np with
    | Some _ => Ok values
    | None => Raise (AttributeError "ascontiguousarray")
    end
  else match kind with
       | KM =>
           if negb datetime_allowed
           then l <- isoformat_all dts ;; Ok (PList l)
           else Ok (PList dts)
       | _ => k o
       end.

Definition pandas_block (o : obj) (k : obj -> result obj) : result obj :=
  if is_some pd then
    match o with
    | PNaT => Ok PNone
    | PSeries kind values dts _ => series_block o kind values dts k
    | PDatetimeIndex kind values dts _ => series_block o kind values dts k
    | _ => k o
    end
  else k o.

Definition datetime_block (o : obj) (k : obj -> result obj) : result obj :=
  let o := match to_pydatetime o with
           | Some d => d
           | None => o
           end in
  if negb datetime_allowed then
    match isoformat o with
    | Some s => Ok (PStr s)
    | None => k o
    end
  else if is_datetime o then Ok o
  else k o.

Definition tail_block (rec : obj -> result obj) (o : obj) : result obj :=
  match tolist_of o with
  | Some t => Ok t
  | None =>
      match o with
      | PDecimal f => Ok (PFloat f)
      | PImage uri => if is_some image then Ok (PStr uri) else Ok o
      | PList (x :: t) | PTuple (x :: t) =>
          l <- mapM rec (x :: t) ;; Ok (PList l)
      | _ => Ok o
      end
  end.

End CleanStages.

(** The function from the point where [obj.to_plotly_json()] has been tried;
    [rec] is the recursive call with the same keyword arguments. *)
Definition clean_unwrapped (rec : obj -> result obj) (kw : kwargs) (o : obj)
  : result obj :=
  match o with
  | PList l | PTuple l => l' <- mapM rec l ;; Ok (PList l')
  | PDict items =>
      items' <- mapM (fun kv => let '(k, v) := kv in
                                v' <- rec v ;; Ok (k, v')) items ;;
      Ok (PDict items')
  | _ =>
      let numpy_allowed := kwargs_get (kw_numpy_allowed kw) false in
      let datetime_allowed := kwargs_get (kw_datetime_allowed kw) false in
      let modules := kwargs_get (kw_modules kw) [] in
      sage_all <- getitem modules "sage_all" ;;
      np <- getitem modules "np" ;;
      pd <- getitem modules "pd" ;;
      image <- getitem modules "image" ;;
      sage_block sage_all o (fun o =>
      numpy_block numpy_allowed np o (fun o =>
      pandas_block numpy_allowed datetime_allowed np pd o (fun o =>
      datetime_block datetime_allowed o (fun o =>
      tail_block image rec o))))
  end.

(** [isinstance(obj, (int, float, string_types))]; [bool] is a subclass of
    [int]. *)
Definition is_scalar (o : obj) : bool :=
  match o with
  | PBool _ | PInt _ | PFloat _ | PStr _ => true
  | _ => false
  end.

(** How deeply the function can recurse into [o]. *)
Fixpoint depth (o : obj) : nat :=
  let depths := fold_right (fun x acc => Nat.max (depth x) acc) 0 in
  match o with
  | PList l | PTuple l => S (depths l)
  | PDict items =>
      S (fold_right (fun kv acc => let '(_, v) := kv in Nat.max (depth v) acc)
                    0 items)
  | PExportable view => S (depth view)
  | PNdarray _ tl ds => S (Nat.max (depth tl) (depth ds))
  | PDatetime64 _ tl => S (depth tl)
  | PSeries _ values dts tl | PDatetimeIndex _ values dts tl =>
      S (S (Nat.max (depth values) (Nat.max (depths dts) (depth tl))))
  | PTimestamp naive _ => S (depth naive)
  | PArrayLike tl => S (depth tl)
  | _ => 0
  end.

(** The function with the interpreter's remaining recursion depth [fuel]:
    Python raises [RecursionError] when it is used up. *)
Fixpoint clean_rec (fuel : nat) (kw : kwargs) (o : obj) {struct fuel}
  : result obj :=
  match fuel with
  | O => Raise RecursionError
  | S fuel' =>
      if is_scalar o then Ok o
      else
        let o := match to_plotly_json o with
                 | Some view => view
                 | None => o
                 end in
        clean_unwrapped (clean_rec fuel' kw) kw o
  end.

(** [clean_to_json_compatible(obj, **kwargs)] with a stack deep enough for
    [obj]. *)
Definition clean_to_json_compatible (kw : kwargs) (o : obj) : result obj :=
  clean_rec (S (S (depth o))) kw o.

(** ** json.dumps

    The standard library's encoder ([json.encoder]), for the options the
    module passes: [sort_keys], [indent] and [separators], with
    [ensure_ascii] and [allow_nan] at their defaults.  A [str] is a sequence
    of code points below 256. *)

Definition dquote : ascii := "034"%char.
Definition backslash : ascii := "\"%char.
Definition newline : ascii := "010"%char.

Definition str1 (c : ascii) : string := String c EmptyString.

Definition hex_digit (n : N) : ascii :=
  if (n <? 10)%N then ascii_of_N (48 + n) else ascii_of_N (87 + n).

(** ['\\u{0:04x}'.format(ord(c))] *)
Definition escape_u (c : ascii) : string :=
  let n := N_of_ascii c in
  String backslash
    (String "u" (String "0" (String "0"
       (String (hex_digit (n / 16)) (str1 (hex_digit (n mod 16))))))).

(** [ESCAPE_ASCII] with [ESCAPE_DCT]: what one character is replaced by. *)
Definition escape_char (c : ascii) : string :=
  if Ascii.eqb c dquote then String backslash (str1 dquote)
  else if Ascii.eqb c backslash then String backslash (str1 backslash)
  else if Ascii.eqb c "008" then String backslash "b"
  else if Ascii.eqb c "012" then String backslash "f"
  else if Ascii.eqb c "010" then String backslash "n"
  else if Ascii.eqb c "013" then String backslash "r"
  else if Ascii.eqb c "009" then String backslash "t"
  else if (N_of_ascii c <? 32)%N || (126 <? N_of_ascii c)%N then escape_u c
  else str1 c.

Fixpoint escape_string (s : string) : string :=
  match s with
  | EmptyString => EmptyString
  | String c t => escape_char c ++ escape_string t
  end.

Definition encode_basestring_ascii (s : string) : string :=
  String dquote (escape_string s ++ str1 dquote).

(** The characters of a digit sequence. *)
Fixpoint uint_repr (d : Decimal.uint) : string :=
  match d with
  | Decimal.Nil => ""
  | Decimal.D0 d => String "0" (uint_repr d)
  | Decimal.D1 d => String "1" (uint_repr d)
  | Decimal.D2 d => String "2" (uint_repr d)
  | Decimal.D3 d => String "3" (uint_repr d)
  | Decimal.D4 d => String "4" (uint_repr d)
  | Decimal.D5 d => String "5" (uint_repr d)
  | Decimal.D6 d => String "6" (uint_repr d)
  | Decimal.D7 d => String "7" (uint_repr d)
  | Decimal.D8 d => String "8" (uint_repr d)
  | Decimal.D9 d => String "9" (uint_repr d)
  end.

Definition N_repr (n : N) : string := uint_repr (N.to_uint n).

(** [int.__repr__] *)
Definition int_repr (z : Z) : string :=
  match z with
  | Z0 => "0"
  | Zpos p => N_repr (Npos p)
  | Zneg p => "-" ++ N_repr (Npos p)
  end.

Definition frac_repr (d : Decimal.uint) : string :=
  match d with
  | Decimal.Nil => ""
  | d => "." ++ uint_repr d
  end.

Definition exp_repr (e : option (bool * Decimal.uint)) : string :=
  match e with
  | None => ""
  | Some (neg, d) => "e" ++ (if neg then "-" else "+") ++ uint_repr d
  end.

(** [float.__repr__] of a finite float. *)
Definition float_repr (r : float_lit) : string :=
  (if f_neg r then "-" else "") ++ N_repr (f_int r)
  ++ frac_repr (f_frac r) ++ exp_repr (f_exp r).

(** [floatstr] of the encoder, [allow_nan] being true. *)
Definition floatstr (f : pyfloat) : string :=
  match f with
  | FNaN => "NaN"
  | FInf => "Infinity"
  | FNegInf => "-Infinity"
  | FFinite r => float_repr r
  end.

Record dumps_opts : Type := DumpsOpts {
  sort_keys : bool;
  indent : option nat;
  separators : option (string * string)
}.

(** The encoder's defaults: [(', ', ': ')] without indent, [(',', ': ')]
    with one. *)
Definition item_separator (opts : dumps_opts) : string :=
  match separators opts with
  | Some (i, _) => i
  | None => match indent opts with
            | None => ", "
            | Some _ => ","
            end
  end.

Definition key_separator (opts : dumps_opts) : string :=
  match separators opts with
  | Some (_, k) => k
  | None => ": "
  end.

Fixpoint spaces (n : nat) : string :=
  match n with
  | O => ""
  | S n' => String " " (spaces n')
  end.

(** ['\n' + _indent * level], or nothing without indent. *)
Definition newline_indent (opts : dumps_opts) (level : nat) : string :=
  match indent opts with
  | None => ""
  | Some n => String newline (spaces (n * level))
  end.

(** The chunks of a non-empty container at nesting [level], between [lb]
    and [rb]. *)
Definition encode_container (opts : dumps_opts) (lb rb : string) (level : nat)
    (chunks : list string) : string :=
  match chunks with
  | [] => lb ++ rb
  | _ =>
      lb ++ newline_indent opts (S level)
      ++ String.concat (item_separator opts ++ newline_indent opts (S level))
                       chunks
      ++ newline_indent opts level ++ rb
  end.

(** [sorted(dct.items())]: the keys of a dict are distinct, so the items are
    ordered by key. *)
Fixpoint insert_item {V : Type} (kv : string * V) (l : list (string * V))
  : list (string * V) :=
  match l with
  | [] => [kv]
  | kv' :: t =>
      if String.leb (fst kv) (fst kv') then kv :: l
      else kv' :: insert_item kv t
  end.

Definition sorted_items {V : Type} (l : list (string * V)) : list (string * V) :=
  fold_right insert_item [] l.

Definition type_name (o : obj) : string :=
  match o with
  | PNone => "NoneType" | PBool _ => "bool" | PInt _ => "int"
  | PFloat _ => "float" | PStr _ => "str" | PBytes _ => "bytes"
  | PList _ => "list" | PTuple _ => "tuple" | PDict _ => "dict"
  | PExportable _ => "Figure" | PSage _ _ _ _ => "Element"
  | PMasked => "MaskedConstant" | PNdarray _ _ _ => "ndarray"
  | PDatetime64 _ _ => "datetime64" | PNaT => "NaTType"
  | PSeries _ _ _ _ => "Series" | PDatetimeIndex _ _ _ _ => "DatetimeIndex"
  | PDatetime _ => "datetime" | PDate _ => "date"
  | PTimestamp _ _ => "Timestamp" | PDecimal _ => "Decimal"
  | PImage _ => "Image" | PArrayLike _ => "object" | POpaque _ => "object"
  end.

Definition not_serializable (o : obj) : exn :=
  TypeError ("Object of type " ++ type_name o ++ " is not JSON serializable").

(** What differs between the two serialisers: how they print numbers and
    strings, and which objects beyond the JSON types they accept. *)
Record backend : Type := Backend {
  b_int : Z -> result string;
  b_float : pyfloat -> string;
  b_str : string -> string;
  b_temporal : obj -> option string;
  b_numpy : dtype_kind -> bool;
  b_reject : obj -> exn
}.

Section Encoder.

Variable be : backend.
Variable opts : dumps_opts.

(** [_iterencode]: the text of [o] at nesting [level].  The values of a
    dict are encoded where they stand and the items then ordered, so the
    first failure in key order is the one raised, as when the encoder
    walks the sorted items. *)
Fixpoint iterencode (o : obj) (level : nat) {struct o} : result string :=
  match o with
  | PNone => Ok "null"
  | PBool true => Ok "true"
  | PBool false => Ok "false"
  | PInt z => b_int be z
  | PFloat f => Ok (b_float be f)
  | PStr s => Ok (b_str be s)
  | PList l | PTuple l =>
      chunks <- mapM (fun x => iterencode x (S level)) l ;;
      Ok (encode_container opts "[" "]" level chunks)
  | PDict items =>
      let encoded :=
        map (on_values (fun v => iterencode v (S level))) items in
      let ordered := if sort_keys opts then sorted_items encoded
                     else encoded in
      chunks <- mapM (fun kr : string * result string =>
                        let '(k, r) := kr in
                        s <- r ;;
                        Ok (b_str be k ++ key_separator opts ++ s))
                     ordered ;;
      Ok (encode_container opts "{" "}" level chunks)
  | PNdarray kind tl _ =>
      if b_numpy be kind then iterencode tl level
      else Raise (b_reject be o)
  | _ =>
      match b_temporal be o with
      | Some s => Ok (b_str be s)
      | None => Raise (b_reject be o)
      end
  end.

End Encoder.

(** The standard library's encoder. *)
Definition json_backend : backend := {|
  b_int := fun z => Ok (int_repr z);
  b_float := floatstr;
  b_str := encode_basestring_ascii;
  b_temporal := fun _ => None;
  b_numpy := fun _ => false;
  b_reject := not_serializable
|}.

Definition json_dumps (o : obj) (opts : dumps_opts) : result string :=
  iterencode json_backend opts o 0.

(** ** orjson

    The third-party serialiser, as far as the module relies on it: strict
    JSON (a non-finite float is written [null]), integers of at most 64
    bits, text left unescaped but for quotes, backslashes and control
    characters, [datetime] and [date] objects written as strings, numeric
    arrays written as nested lists under [OPT_SERIALIZE_NUMPY]; any other
    object is a [TypeError]. *)

Definition OPT_INDENT_2 : Z := 1.
Definition OPT_SERIALIZE_NUMPY : Z := 16.
Definition OPT_SORT_KEYS : Z := 32.

Definition has_option (option flag : Z) : bool :=
  negb (Z.eqb (Z.land option flag) 0).

Definition orjson_escape_char (c : ascii) : string :=
  if Ascii.eqb c dquote then String backslash (str1 dquote)
  else if Ascii.eqb c backslash then String backslash (str1 backslash)
  else if Ascii.eqb c "008" then String backslash "b"
  else if Ascii.eqb c "012" then String backslash "f"
  else if Ascii.eqb c "010" then String backslash "n"
  else if Ascii.eqb c "013" then String backslash "r"
  else if Ascii.eqb c "009" then String backslash "t"
  else if (N_of_ascii c <? 32)%N then escape_u c
  else str1 c.

Fixpoint orjson_escape (s : string) : string :=
  match s with
  | EmptyString => EmptyString
  | String c t => orjson_escape_char c ++ orjson_escape t
  end.

Definition orjson_str (s : string) : string :=
  String dquote (orjson_escape s ++ str1 dquote).

Definition orjson_float (f : pyfloat) : string :=
  match f with
  | FFinite r => float_repr r
  | _ => "null"
  end.

Definition orjson_int (z : Z) : result string :=
  if ((- 2 ^ 63 <=? z) && (z <? 2 ^ 64))%Z then Ok (int_repr z)
  else Raise (TypeError "Integer exceeds 64-bit range").

Definition orjson_temporal (o : obj) : option string :=
  match o with
  | PDatetime iso | PDate iso => Some iso
  | _ => None
  end.

Definition orjson_backend (option : Z) : backend := {|
  b_int := orjson_int;
  b_float := orjson_float;
  b_str := orjson_str;
  b_temporal := orjson_temporal;
  b_numpy := fun k => has_option option OPT_SERIALIZE_NUMPY && numeric_kind k;
  b_reject := fun o => TypeError ("Type is not JSON serializable: " ++ type_name o)
|}.

Definition orjson_opts (option : Z) : dumps_opts := {|
  sort_keys := has_option option OPT_SORT_KEYS;
  indent := if has_option option OPT_INDENT_2 then Some 2%nat else None;
  separators := Some (",", if has_option option OPT_INDENT_2 then ": " else ":")
|}.

(** [orjson.dumps(o, option=option).decode("utf8")]: the text as a [str]. *)
Definition orjson_dumps (o : obj) (option : Z) : result string :=
  iterencode (orjson_backend option) (orjson_opts option) o 0.

(** ** json.loads

    The standard library's decoder ([json.decoder], [json.scanner]) with its
    [parse_constant] hook; positions are left out of the error messages. *)

Definition is_ws (c : ascii) : bool :=
  Ascii.eqb c " " || Ascii.eqb c "009" || Ascii.eqb c "010" || Ascii.eqb c "013".

Fixpoint skip_ws (s : string) : string :=
  match s with
  | String c t => if is_ws c then skip_ws t else s
  | EmptyString => EmptyString
  end.

Definition decode_error {A : Type} (msg : string) : result A :=
  Raise (JSONDecodeError msg).

(** [BACKSLASH]: the one-letter escapes. *)
Definition unescape (e : ascii) : option ascii :=
  if Ascii.eqb e dquote then Some dquote
  else if Ascii.eqb e backslash then Some backslash
  else if Ascii.eqb e "/" then Some "/"%char
  else if Ascii.eqb e "b" then Some "008"%char
  else if Ascii.eqb e "f" then Some "012"%char
  else if Ascii.eqb e "n" then Some "010"%char
  else if Ascii.eqb e "r" then Some "013"%char
  else if Ascii.eqb e "t" then Some "009"%char
  else None.

Definition hex_value (c : ascii) : option N :=
  let n := N_of_ascii c in
  if (48 <=? n)%N && (n <=? 57)%N then Some (n - 48)%N
  else if (97 <=? n)%N && (n <=? 102)%N then Some (n - 87)%N
  else if (65 <=? n)%N && (n <=? 70)%N then Some (n - 55)%N
  else None.

(** [_decode_uXXXX] *)
Definition decode_uXXXX (h1 h2 h3 h4 : ascii) : option N :=
  match hex_value h1, hex_value h2, hex_value h3, hex_value h4 with
  | Some a, Some b, Some c, Some d => Some (((a * 16 + b) * 16 + c) * 16 + d)%N
  | _, _, _, _ => None
  end.

(** [py_scanstring] in strict mode, from the character after the opening
    quote: the string and the text after its closing quote. *)
Fixpoint scanstring (s : string) : result (string * string) :=
  match s with
  | EmptyString => decode_error "Unterminated string starting at"
  | String c t =>
      if Ascii.eqb c dquote then Ok (EmptyString, t)
      else if Ascii.eqb c backslash then
        match t with
        | EmptyString => decode_error "Unterminated string starting at"
        | String e t' =>
            if Ascii.eqb e "u" then
              match t' with
              | String h1 (String h2 (String h3 (String h4 t''))) =>
                  match decode_uXXXX h1 h2 h3 h4 with
                  | Some n =>
                      if (n <? 256)%N then
                        match scanstring t'' with
                        | Ok (r, rest) => Ok (String (ascii_of_N n) r, rest)
                        | Raise e => Raise e
                        end
                      else decode_error "code point above 255"
                  | None => decode_error "Invalid \uXXXX escape"
                  end
              | _ => decode_error "Invalid \uXXXX escape"
              end
            else
              match unescape e with
              | Some ch =>
                  match scanstring t' with
                  | Ok (r, rest) => Ok (String ch r, rest)
                  | Raise e => Raise e
                  end
              | None => decode_error "Invalid \escape"
              end
        end
      else if (N_of_ascii c <? 32)%N then
        decode_error "Invalid control character at"
      else
        match scanstring t with
        | Ok (r, rest) => Ok (String c r, rest)
        | Raise e => Raise e
        end
  end.

Definition digit_of (c : ascii) : option (Decimal.uint -> Decimal.uint) :=
  if Ascii.eqb c "0" then Some Decimal.D0
  else if Ascii.eqb c "1" then Some Decimal.D1
  else if Ascii.eqb c "2" then Some Decimal.D2
  else if Ascii.eqb c "3" then Some Decimal.D3
  else if Ascii.eqb c "4" then Some Decimal.D4
  else if Ascii.eqb c "5" then Some Decimal.D5
  else if Ascii.eqb c "6" then Some Decimal.D6
  else if Ascii.eqb c "7" then Some Decimal.D7
  else if Ascii.eqb c "8" then Some Decimal.D8
  else if Ascii.eqb c "9" then Some Decimal.D9
  else None.

(** The longest run of digits and what follows it. *)
Fixpoint scan_digits (s : string) : Decimal.uint * string :=
  match s with
  | EmptyString => (Decimal.Nil, s)
  | String c t =>
      match digit_of c with
      | Some d => let '(ds, rest) := scan_digits t in (d ds, rest)
      | None => (Decimal.Nil, s)
      end
  end.

(** The integer part of [NUMBER_RE]: a lone zero, or digits that do not
    start with zero. *)
Definition scan_integer (s : string) : option (Decimal.uint * string) :=
  match s with
  | String c t =>
      if Ascii.eqb c "0" then Some (Decimal.D0 Decimal.Nil, t)
      else match scan_digits s with
           | (Decimal.Nil, _) => None
           | (d, rest) => Some (d, rest)
           end
  | EmptyString => None
  end.

(** The optional fraction of [NUMBER_RE]: a point and at least one digit. *)
Definition scan_frac (s : string) : Decimal.uint * string :=
  match s with
  | String c t =>
      if Ascii.eqb c "." then
        match scan_digits t with
        | (Decimal.Nil, _) => (Decimal.Nil, s)
        | (d, rest) => (d, rest)
        end
      else (Decimal.Nil, s)
  | EmptyString => (Decimal.Nil, s)
  end.

(** The optional exponent of [NUMBER_RE]: e or E, an optional sign and at
    least one digit. *)
Definition scan_exp (s : string) : option (bool * Decimal.uint) * string :=
  match s with
  | String c t =>
      if Ascii.eqb c "e" || Ascii.eqb c "E" then
        let '(neg, t') :=
          match t with
          | String sg u =>
              if Ascii.eqb sg "-" then (true, u)
              else if Ascii.eqb sg "+" then (false, u)
              else (false, t)
          | EmptyString => (false, t)
          end in
        match scan_digits t' with
        | (Decimal.Nil, _) => (None, s)
        | (d, rest) => (Some (neg, d), rest)
        end
      else (None, s)
  | EmptyString => (None, s)
  end.

(** [NUMBER_RE.match] after the optional sign, and the choice between
    [parse_int] and [parse_float]. *)
Definition number_body (neg : bool) (s1 : string) : option (obj * string) :=
  match scan_integer s1 with
  | None => None
  | Some (d, s2) =>
      let '(frac, s3) := scan_frac s2 in
      let '(e, s4) := scan_exp s3 in
      match frac, e with
      | Decimal.Nil, None =>
          let n := Z.of_N (N.of_uint d) in
          Some (PInt (if neg then (- n)%Z else n), s4)
      | _, _ => Some (PFloat (FFinite (FloatLit neg (N.of_uint d) frac e)), s4)
      end
  end.

Definition match_number (s : string) : option (obj * string) :=
  match s with
  | String c t =>
      if Ascii.eqb c "-" then number_body true t else number_body false s
  | EmptyString => number_body false s
  end.

(** [s[idx:idx + len(lit)] == lit]: what follows [lit] when [s] starts with
    it. *)
Fixpoint strip_prefix (lit s : string) : option string :=
  match lit, s with
  | EmptyString, _ => Some s
  | String a lit', String b s' =>
      if Ascii.eqb a b then strip_prefix lit' s' else None
  | _, EmptyString => None
  end.

(** [dict(pairs)]: a key met again keeps its place and takes the new
    value. *)
Fixpoint dict_set (d : list (string * obj)) (k : string) (v : obj)
  : list (string * obj) :=
  match d with
  | [] => [(k, v)]
  | (k', v') :: t =>
      if String.eqb k' k then (k', v) :: t else (k', v') :: dict_set t k v
  end.

Definition dict_of_pairs (pairs : list (string * obj)) : list (string * obj) :=
  fold_left (fun d kv => dict_set d (fst kv) (snd kv)) pairs [].

Section Scanner.

(** The [parse_constant] hook: called with the name of the token. *)
Variable parse_constant : string -> result obj.

(** The last branches of [scan_once]: the three literals, a number, the
    three constants. *)
Definition scan_atom (s : string) : result (obj * string) :=
  match strip_prefix "null" s, strip_prefix "true" s,
        strip_prefix "false" s with
  | Some rest, _, _ => Ok (PNone, rest)
  | _, Some rest, _ => Ok (PBool true, rest)
  | _, _, Some rest => Ok (PBool false, rest)
  | None, None, None =>
      match match_number s with
      | Some r => Ok r
      | None =>
          match strip_prefix "NaN" s, strip_prefix "Infinity" s,
                strip_prefix "-Infinity" s with
          | Some rest, _, _ => o <- parse_constant "NaN" ;; Ok (o, rest)
          | _, Some rest, _ => o <- parse_constant "Infinity" ;; Ok (o, rest)
          | _, _, Some rest => o <- parse_constant "-Infinity" ;; Ok (o, rest)
          | None, None, None => decode_error "Expecting value"
          end
      end
  end.

(** [scan_once], [JSONArray] and [JSONObject].  [fuel] bounds the number
    of nested calls and loop turns; each consumes input, so twice the length
    of the text is enough (see [decode] and [decode_never_out_of_fuel]). *)
Fixpoint scan_once (fuel : nat) (s : string) {struct fuel}
  : result (obj * string) :=
  match fuel with
  | O => Raise RecursionError
  | S n =>
      match s with
      | EmptyString => decode_error "Expecting value"
      | String c t =>
          if Ascii.eqb c dquote then
            match scanstring t with
            | Ok (str, rest) => Ok (PStr str, rest)
            | Raise e => Raise e
            end
          else if Ascii.eqb c "{" then
            match skip_ws t with
            | String c' t' =>
                if Ascii.eqb c' "}" then Ok (PDict [], t')
                else if Ascii.eqb c' dquote then
                  match object_loop n t' with
                  | Ok (pairs, rest) => Ok (PDict (dict_of_pairs pairs), rest)
                  | Raise e => Raise e
                  end
                else decode_error
                       "Expecting property name enclosed in double quotes"
            | EmptyString =>
                decode_error
                  "Expecting property name enclosed in double quotes"
            end
          else if Ascii.eqb c "[" then
            match skip_ws t with
            | String c' t' =>
                if Ascii.eqb c' "]" then Ok (PList [], t')
                else
                  match array_loop n (String c' t') with
                  | Ok (values, rest) => Ok (PList values, rest)
                  | Raise e => Raise e
                  end
            | EmptyString => decode_error "Expecting value"
            end
          else scan_atom s
      end
  end

(** The loop of [JSONArray], at the first character of a value. *)
with array_loop (fuel : nat) (s : string) {struct fuel}
  : result (list obj * string) :=
  match fuel with
  | O => Raise RecursionError
  | S n =>
      match scan_once n s with
      | Raise e => Raise e
      | Ok (value, s1) =>
          match skip_ws s1 with
          | String c t =>
              if Ascii.eqb c "]" then Ok ([value], t)
              else if Ascii.eqb c "," then
                match array_loop n (skip_ws t) with
                | Ok (values, rest) => Ok (value :: values, rest)
                | Raise e => Raise e
                end
              else decode_error "Expecting ',' delimiter"
          | EmptyString => decode_error "Expecting ',' delimiter"
          end
      end
  end

(** The loop of [JSONObject], after the opening quote of a key. *)
with object_loop (fuel : nat) (s : string) {struct fuel}
  : result (list (string * obj) * string) :=
  match fuel with
  | O => Raise RecursionError
  | S n =>
      match scanstring s with
      | Raise e => Raise e
      | Ok (key, s1) =>
          match skip_ws s1 with
          | String c t =>
              if Ascii.eqb c ":" then
                match scan_once n (skip_ws t) with
                | Raise e => Raise e
                | Ok (value, s2) =>
                    match skip_ws s2 with
                    | String c' t' =>
                        if Ascii.eqb c' "}" then Ok ([(key, value)], t')
                        else if Ascii.eqb c' "," then
                          match skip_ws t' with
                          | String q u =>
                              if Ascii.eqb q dquote then
                                match object_loop n u with
                                | Ok (pairs, rest) =>
                                    Ok ((key, value) :: pairs, rest)
                                | Raise e => Raise e
                                end
                              else
                                decode_error
                                  "Expecting property name enclosed in double quotes"
                          | EmptyString =>
                              decode_error
                                "Expecting property name enclosed in double quotes"
                          end
                        else decode_error "Expecting ',' delimiter"
                    | EmptyString => decode_error "Expecting ',' delimiter"
                    end
                end
              else decode_error "Expecting ':' delimiter"
          | EmptyString => decode_error "Expecting ':' delimiter"
          end
      end
  end.

(** [JSONDecoder.decode]: one value between optional whitespace. *)
Definition decode (s : string) : result obj :=
  match scan_once (S (2 * String.length s)) (skip_ws s) with
  | Raise e => Raise e
  | Ok (o, rest) =>
      match skip_ws rest with
      | EmptyString => Ok o
      | _ => decode_error "Extra data"
      end
  end.

End Scanner.

(** The default [parse_constant]: the float the token names. *)
Definition float_constant (const : string) : obj :=
  if String.eqb const "NaN" then PFloat FNaN
  else if String.eqb const "Infinity" then PFloat FInf
  else PFloat FNegInf.

(** A [parse_constant] hook that does not raise. *)
Definition constant_hook (hook : string -> obj) : string -> result obj :=
  fun const => Ok (hook const).

(** [json.loads(s, parse_constant=hook)]; [None] leaves the default. *)
Definition json_loads (s : string) (hook : option (string -> obj)) : result obj :=
  decode (constant_hook (match hook with
                         | Some h => h
                         | None => float_constant
                         end)) s.

(** [bytes.decode("utf-8")] for code points below 256: one byte below 128,
    or the two bytes of a code point from 128 to 255. *)
Fixpoint utf8_decode (b : string) : result string :=
  match b with
  | EmptyString => Ok EmptyString
  | String c t =>
      let n := N_of_ascii c in
      if (n <? 128)%N then
        r <- utf8_decode t ;; Ok (String c r)
      else
        match t with
        | String c2 t' =>
            let m := N_of_ascii c2 in
            if ((n =? 194) || (n =? 195))%N && (128 <=? m)%N && (m <? 192)%N
            then r <- utf8_decode t' ;;
                 Ok (String (ascii_of_N ((n - 192) * 64 + (m - 128))) r)
            else Raise (ValueError "UnicodeDecodeError")
        | EmptyString => Raise (ValueError "UnicodeDecodeError")
        end
  end.

(** [orjson.loads]: strict JSON, so the three constant tokens are errors. *)
Definition orjson_loads (value : obj) : result obj :=
  match value with
  | PStr s => decode (fun _ => decode_error "unexpected character") s
  | PBytes b =>
      match utf8_decode b with
      | Ok s => decode (fun _ => decode_error "unexpected character") s
      | Raise _ => decode_error "str is not valid UTF-8"
      end
  | _ => Raise (TypeError "Input must be bytes, bytearray, memoryview, or str")
  end.

(** ** coerce_to_strict *)

Definition coerce_to_strict (const : string) : obj :=
  if str_in const ["Infinity"; "-Infinity"; "NaN"] then PNone
  else PStr const.

(** ** The dispatchers *)

(** A call runs in a [world] and leaves the calls it makes to the
    canonicaliser and to the serialisers in a log, next to its result. *)
Inductive event : Type :=
| CallClean (o : obj) (numpy_allowed datetime_allowed : bool)
| CallJsonDumps (o : obj)
| CallJsonDumpsCls (o : obj) (opts : dumps_opts)
| CallJsonLoads (text : string)
| CallOrjsonDumps (o : obj)
| CallOrjsonLoads (value : obj).

Definition run (A : Type) : Type := (list event * result A)%type.

Definition ret {A : Type} (a : A) : run A := ([], Ok a).
Definition raise {A : Type} (e : exn) : run A := ([], Raise e).

(** A call to a library function: logged, then its result. *)
Definition call {A : Type} (ev : event) (r : result A) : run A := ([ev], r).

Definition then_ {A B : Type} (m : run A) (k : A -> run B) : run B :=
  match m with
  | (log, Ok a) => let '(log', r) := k a in ((log ++ log')%list, r)
  | (log, Raise e) => (log, Raise e)
  end.

Notation "x <~ m ;; k" := (then_ m (fun x => k))
  (at level 61, m at next level, right associativity).

(** [try: m  except <catches>: handler]. *)
Definition try_except {A : Type} (m : run A) (catches : exn -> bool)
    (handler : run A) : run A :=
  match m with
  | (log, Ok a) => (log, Ok a)
  | (log, Raise e) =>
      if catches e then let '(log', r) := handler in ((log ++ log')%list, r)
      else (log, Raise e)
  end.

Definition calls {A : Type} (m : run A) : list event := fst m.
Definition outcome {A : Type} (m : run A) : result A := snd m.

(** [needle in hay] for strings. *)
Fixpoint str_contains (needle hay : string) : bool :=
  String.prefix needle hay
  || match hay with
     | EmptyString => false
     | String _ t => str_contains needle t
     end.

Definition invalid_engine (engine : string) : exn :=
  ValueError ("Invalid json engine: " ++ engine).

(** "Determine json engine": the same lines in both dispatchers. *)
Definition determine_engine (orjson : option pymodule) (engine : string)
  : result string :=
  if String.eqb engine "auto" then
    if is_some orjson then Ok "orjson" else Ok "json"
  else if negb (str_in engine ["orjson"; "json"; "legacy"]) then
    Raise (invalid_engine engine)
  else Ok engine.

Definition adapter_modules (w : world) : list (string * option pymodule) :=
  [ ("sage_all", get_module w "sage.all" false);
    ("np", get_module w "numpy" false);
    ("pd", get_module w "pandas" false);
    ("image", get_module w "PIL.Image" false) ].

Definition strict_failed : exn :=
  ValueError
    "Encoding into strict JSON failed. Did you set the separators valid JSON separators?".

(** The keyword arguments both [json.dumps] calls receive. *)
Definition dumps_opts_of (pretty : bool) : dumps_opts :=
  if pretty then DumpsOpts true (Some 2%nat) None
  else DumpsOpts true None (Some (",", ":")).

(** Modelled from the spec: [_plotly_utils.utils.PlotlyJSONEncoder], whose
    module is not among the sources.  This is the text
    [json.dumps(o, cls=PlotlyJSONEncoder, **opts)] returns, as the spec has
    it for the legacy engine: the item canonicalized with
    [numpy_allowed=false, datetime_allowed=false], serialized, and, if the
    output contains the literal substrings for non-finite float tokens,
    re-parsed with each such token replaced by [null] and re-serialized with
    the same key and whitespace policy.  Whatever the encoder does, it does
    inside that one call: the dispatcher sees its result only. *)
Definition PlotlyJSONEncoder_dumps (w : world) (o : obj) (opts : dumps_opts)
  : result string :=
  cleaned <- clean_to_json_compatible
               (Kwargs (Some false) (Some false) (Some (adapter_modules w)))
               o ;;
  encoded_o <- json_dumps cleaned opts ;;
  if negb (str_contains "NaN" encoded_o || str_contains "Infinity" encoded_o)
  then Ok encoded_o
  else
    match json_loads encoded_o (Some coerce_to_strict) with
    | Ok new_o => json_dumps new_o opts
    | Raise e => if is_ValueError e then Raise strict_failed else Raise e
    end.

Definition lift {A : Type} (r : result A) : run A := ([], r).

(** [_to_json_plotly(plotly_object, pretty, engine)] in world [w] with the
    module's [config]. *)
Definition _to_json_plotly (w : world) (config : JsonConfig)
    (plotly_object : obj) (pretty : bool) (engine : option string) : run obj :=
  let orjson := get_module w "orjson" true in
  let engine := match engine with
                | None => default_engine config
                | Some e => e
                end in
  engine <~ lift (determine_engine orjson engine) ;;
  let modules := adapter_modules w in
  if str_in engine ["json"; "legacy"] then
    let opts := dumps_opts_of pretty in
    if String.eqb engine "json" then
      cleaned <~ call (CallClean plotly_object false false)
                      (clean_to_json_compatible
                         (Kwargs (Some false) (Some false) (Some modules))
                         plotly_object) ;;
      encoded_o <~ call (CallJsonDumps cleaned) (json_dumps cleaned opts) ;;
      if negb (str_contains "NaN" encoded_o
               || str_contains "Infinity" encoded_o)
      then ret (PStr encoded_o)
      else
        new_o <~ try_except
                   (call (CallJsonLoads encoded_o)
                         (json_loads encoded_o (Some coerce_to_strict)))
                   is_ValueError (raise strict_failed) ;;
        s <~ call (CallJsonDumps new_o) (json_dumps new_o opts) ;;
        ret (PStr s)
    else
      s <~ call (CallJsonDumpsCls plotly_object opts)
                (PlotlyJSONEncoder_dumps w plotly_object opts) ;;
      ret (PStr s)
  else if String.eqb engine "orjson" then
    _ <~ lift (validate_orjson w) ;;
    let opts := Z.lor OPT_SORT_KEYS OPT_SERIALIZE_NUMPY in
    let opts := if pretty then Z.lor opts OPT_INDENT_2 else opts in
    let plotly_object := match to_plotly_json plotly_object with
                         | Some view => view
                         | None => plotly_object
                         end in
    try_except
      (s <~ call (CallOrjsonDumps plotly_object)
                 (orjson_dumps plotly_object opts) ;;
       ret (PStr s))
      is_TypeError
      (cleaned <~ call (CallClean plotly_object true true)
                       (clean_to_json_compatible
                          (Kwargs (Some true) (Some true) (Some modules))
                          plotly_object) ;;
       s <~ call (CallOrjsonDumps cleaned) (orjson_dumps cleaned opts) ;;
       ret (PStr s))
  else ret PNone.

Definition invalid_input : exn :=
  ValueError "from_json_plotly requires a string or bytes argument".

(** [from_json_plotly(value, engine)] *)
Definition from_json_plotly (w : world) (config : JsonConfig) (value : obj)
    (engine : option string) : run obj :=
  let orjson := get_module w "orjson" true in
  match value with
  | PStr _ | PBytes _ =>
      let engine := match engine with
                    | None => default_engine config
                    | Some e => e
                    end in
      engine <~ lift (determine_engine orjson engine) ;;
      if String.eqb engine "orjson" then
        _ <~ lift (validate_orjson w) ;;
        call (CallOrjsonLoads value) (orjson_loads value)
      else
        text <~ lift (match value with
                      | PBytes b => utf8_decode b
                      | PStr s => Ok s
                      | _ => Ok EmptyString
                      end) ;;
        call (CallJsonLoads text) (json_loads text None)
  | _ => raise invalid_input
  end.

Definition quiet : world := World (fun _ => false) (fun _ => false).

(** ** Definitions the statements use *)

Definition importable (w : world) (name : string) : bool :=
  loaded w name || present w name.

Definition valid_config (c : JsonConfig) : Prop :=
  str_in (default_engine c) _valid_engines = true.

(** A run of assignments to [config.default_engine], each in the world of
    its time; a failed one leaves the state it found. *)
Definition assign_all (c : JsonConfig) (l : list (world * obj)) : JsonConfig :=
  fold_left (fun c wv => fst (set_default_engine (fst wv) c (snd wv))) l c.

Definition is_valid_token (val : obj) : bool :=
  match val with
  | PStr s => str_in s _valid_engines
  | _ => false
  end.

Definition is_text (value : obj) : bool :=
  match value with
  | PStr _ | PBytes _ => true
  | _ => false
  end.

(** The item the fast engine works on: the view of a top-level exportable
    object, or the item itself. *)
Definition unwrapped (o : obj) : obj :=
  match to_plotly_json o with
  | Some view => view
  | None => o
  end.

Definition fast_option (pretty : bool) : Z :=
  let opts := Z.lor OPT_SORT_KEYS OPT_SERIALIZE_NUMPY in
  if pretty then Z.lor opts OPT_INDENT_2 else opts.

Definition fast_kwargs (w : world) : kwargs :=
  Kwargs (Some true) (Some true) (Some (adapter_modules w)).

(** The claim as the spec words it: the first call is the serialiser on the
    item as it was passed. *)
Definition direct_attempt_on_raw_item : Prop :=
  forall w config o pretty,
    importable w "orjson" = true ->
    exists rest,
      calls (_to_json_plotly w config o pretty (Some "orjson"))
      = CallOrjsonDumps o :: rest.

Definition with_orjson : world :=
  World (fun name => String.eqb name "orjson") (fun _ => false).

(** [s] between double quotes. *)
Definition quoted (s : string) : string := String dquote (s ++ str1 dquote).

(** A text that a serialiser with wrong separators writes. *)
Definition misconfigured_text : result string :=
  json_dumps (PDict [("a", PInt 1)]) (DumpsOpts true None (Some (";", "="))).

Definition delimiter (c : ascii) : bool :=
  Ascii.eqb c "," || Ascii.eqb c "]" || Ascii.eqb c "}" || is_ws c.

Definition delimited (rest : string) : bool :=
  match rest with
  | EmptyString => true
  | String c _ => delimiter c
  end.

Definition no_digit_ahead (rest : string) : Prop :=
  match rest with
  | EmptyString => True
  | String c _ => digit_of c = None
  end.

(** A literal [float.__repr__] can print: with a fraction or an exponent,
    and with digits in the exponent. *)
Definition wf_float (r : float_lit) : bool :=
  match f_frac r, f_exp r with
  | Decimal.Nil, None => false
  | _, Some (_, Decimal.Nil) => false
  | _, _ => true
  end.

Fixpoint distinct (l : list string) : bool :=
  match l with
  | [] => true
  | k :: t => negb (str_in k t) && distinct t
  end.

(** The invariants Python keeps for the JSON types: the keys of a dict are
    distinct and a finite float prints as a float literal. *)
Fixpoint wf_obj (o : obj) : bool :=
  match o with
  | PFloat (FFinite r) => wf_float r
  | PList l | PTuple l => forallb wf_obj l
  | PDict items =>
      distinct (map fst items)
      && forallb (fun kv => let '(_, v) := kv in wf_obj v) items
  | _ => true
  end.

Section ParsedForm.

Variable hook : string -> obj.
Variable sorting : bool.

(** The value the scanner builds from the text of [o]: a non-finite float
    is what [hook] makes of its token, a tuple is a list, and the items of a
    dict stand in the order they were written. *)
Fixpoint parsed_form (o : obj) : obj :=
  match o with
  | PFloat (FFinite _) => o
  | PFloat f => hook (floatstr f)
  | PList l | PTuple l => PList (map parsed_form l)
  | PDict items =>
      let items' := map (on_values parsed_form) items in
      PDict (if sorting then sorted_items items' else items')
  | _ => o
  end.

End ParsedForm.

(** The calls and loop turns the scanner needs for the text of [o]. *)
Fixpoint weight (o : obj) : nat :=
  match o with
  | PList l | PTuple l =>
      S (fold_right (fun x acc => S (weight x) + acc) 0 l)
  | PDict items =>
      S (fold_right (fun kv acc => let '(_, v) := kv in S (weight v) + acc)
                    0 items)
  | _ => 1
  end.

Definition number_head (s : string) : bool :=
  match s with
  | String c _ => is_some (digit_of c) || Ascii.eqb c "-"
  | EmptyString => false
  end.

Definition is_container (o : obj) : bool :=
  match o with
  | PList _ | PTuple _ | PDict _ => true
  | _ => false
  end.

(** The first character of a value: not whitespace, not a closing bracket. *)
Definition value_start (t : string) : bool :=
  match t with
  | String c _ =>
      negb (is_ws c) && negb (Ascii.eqb c "]") && negb (Ascii.eqb c "}")
  | EmptyString => false
  end.

Definition module_opts (opts : dumps_opts) : Prop :=
  exists pretty, opts = dumps_opts_of pretty.

Definition key_le {V : Type} (a b : string * V) : Prop :=
  String.leb (fst a) (fst b) = true.

(** No NaN and no infinity among the JSON values of [o]. *)
Fixpoint finite_tree (o : obj) : bool :=
  match o with
  | PFloat (FFinite _) => true
  | PFloat _ => false
  | PList l | PTuple l => forallb finite_tree l
  | PDict items => forallb (fun kv => let '(_, v) := kv in finite_tree v) items
  | _ => true
  end.

(** The test of the module: one of the two substrings occurs. *)
Definition has_constant_text (t : string) : bool :=
  str_contains "NaN" t || str_contains "Infinity" t.

(** The standard encoder, but writing [null] for a non-finite float. *)
Definition strict_floatstr (f : pyfloat) : string :=
  match f with
  | FFinite r => float_repr r
  | _ => "null"
  end.

Definition strict_backend : backend := {|
  b_int := fun z => Ok (int_repr z);
  b_float := strict_floatstr;
  b_str := encode_basestring_ascii;
  b_temporal := fun _ => None;
  b_numpy := fun _ => false;
  b_reject := not_serializable
|}.

(** What a value loads back as after the repair: [None] for each
    non-finite float. *)
Definition strict_form (o : obj) : obj := parsed_form coerce_to_strict true o.

Definition standard_kwargs (w : world) : kwargs :=
  Kwargs (Some false) (Some false) (Some (adapter_modules w)).

(** What the standard engine does with the text of the canonical form. *)
Definition repair (pretty : bool) (t : string) : result obj :=
  if has_constant_text t then
    match json_loads t (Some coerce_to_strict) with
    | Ok new_o => s <- json_dumps new_o (dumps_opts_of pretty) ;; Ok (PStr s)
    | Raise e => if is_ValueError e then Raise strict_failed else Raise e
    end
  else Ok (PStr t).

Definition standard_outcome (w : world) (pretty : bool) (o : obj) : result obj :=
  c <- clean_to_json_compatible (standard_kwargs w) o ;;
  t <- json_dumps c (dumps_opts_of pretty) ;;
  repair pretty t.

Definition fast_outcome (w : world) (pretty : bool) (o : obj) : result obj :=
  _ <- validate_orjson w ;;
  match orjson_dumps (unwrapped o) (fast_option pretty) with
  | Ok s => Ok (PStr s)
  | Raise e =>
      if is_TypeError e then
        c <- clean_to_json_compatible (fast_kwargs w) (unwrapped o) ;;
        s <- orjson_dumps c (fast_option pretty) ;;
        Ok (PStr s)
      else Raise e
  end.

(** A result of the scanner: a value, or the decoder's own error. *)
Definition decode_result {A : Type} (r : result A) : Prop :=
  match r with
  | Ok _ => True
  | Raise (JSONDecodeError _) => True
  | Raise _ => False
  end.

(** A result that consumed input. *)
Definition consumes {A : Type} (s : string) (r : result (A * string)) : Prop :=
  match r with
  | Ok (_, rest) => String.length rest < String.length s
  | Raise (JSONDecodeError _) => True
  | Raise _ => False
  end.

Definition in_fuel {A : Type} (r : result A) : Prop :=
  match r with
  | Raise RecursionError => False
  | _ => True
  end.

(** A continuation that stays in fuel on every value no deeper than [o]. *)
Definition safe_upto (o : obj) (k : obj -> result obj) : Prop :=
  forall o', depth o' <= depth o -> in_fuel (k o').

(** The text decode hands to the standard parser. *)
Definition text_of (value : obj) : result string :=
  match value with
  | PStr s => Ok s
  | PBytes b => utf8_decode b
  | _ => Raise invalid_input
  end.

Definition sample_figure : obj :=
  PDict [("y", PTuple [PFloat FInf;
                       PFloat (FFinite (FloatLit true 1 (Decimal.D5 Decimal.Nil)
                                          (Some (false, Decimal.D1
                                                   (Decimal.D6 Decimal.Nil)))))]);
         ("x", PList [PInt 1; PStr "a\b"; PNone]);
         ("layout", PDict [("title", PStr "NaN"); ("on", PBool true)])].

(** What the induction gives for a value inside a container: its text
    reads back as its parsed form, with fuel from its [weight] on. *)
Definition reads_back (hook : string -> obj) (opts : dumps_opts) (x : obj)
  : Prop :=
  forall level t rest fuel,
    wf_obj x = true ->
    iterencode json_backend opts x level = Ok t ->
    delimited rest = true ->
    weight x <= fuel ->
    scan_once (constant_hook hook) fuel (t ++ rest)
    = Ok (parsed_form hook (sort_keys opts) x, rest).

(** The chunk of an item whose value has been encoded. *)
Definition item_chunk (opts : dumps_opts) (kr : string * result string)
  : result string :=
  let '(k, r) := kr in
  s <- r ;; Ok (b_str json_backend k ++ key_separator opts ++ s).

(** The text of a value is at least as long as its [weight]. *)
Definition fits (opts : dumps_opts) (x : obj) : Prop :=
  forall level t,
    iterencode json_backend opts x level = Ok t -> weight x <= String.length t.

(** The message of an exception, and whether it speaks of separators, as
    the hint of the encoder does. *)
Definition message (e : exn) : string :=
  match e with
  | ValueError msg | TypeError msg | JSONDecodeError msg => msg
  | KeyError key => key
  | AttributeError attr => attr
  | RecursionError => "maximum recursion depth exceeded"
  end.

Definition carries_separator_hint (e : exn) : bool :=
  str_contains "separators" (message e).

(** The claim as the spec words it, at a text that a serialiser with wrong
    separators writes: decode raises an error that carries the hint. *)
Definition decode_error_carries_hint : Prop :=
  forall text,
    misconfigured_text = Ok text ->
    exists e,
      outcome (from_json_plotly quiet JsonConfig_init (PStr text) (Some "json"))
      = Raise e
      /\ carries_separator_hint e = true.

(** The items for which the function gets as far as unpacking its keyword
    arguments: not a scalar, and not a list, tuple or dict once
    [to_plotly_json()] has been tried. *)
Definition reaches_adapters (o : obj) : bool :=
  negb (is_scalar o) && negb (is_container (unwrapped o)).

(** A tree of the JSON types only: [None], scalars, lists, tuples and
    dicts of such. *)
Fixpoint plain (o : obj) : bool :=
  match o with
  | PNone | PBool _ | PInt _ | PFloat _ | PStr _ => true
  | PList l | PTuple l => forallb plain l
  | PDict items => forallb (fun kv => let '(_, v) := kv in plain v) items
  | _ => false
  end.

(** A plain tree with every tuple turned into a list. *)
Fixpoint listify (o : obj) : obj :=
  match o with
  | PList l | PTuple l => PList (map listify l)
  | PDict items => PDict (map (on_values listify) items)
  | _ => o
  end.

(** The error of [JsonConfig.validate_orjson]. *)
Definition orjson_missing : exn :=
  ValueError "The orjson engine requires the orjson package".

(** The names [parse_constant] is called with. *)
Definition constant_tokens : list string := ["NaN"; "Infinity"; "-Infinity"].

(** The leaves the scanner builds itself: the literals, strings and
    numbers; a float comes from a literal with a fraction or an exponent. *)
Definition decoded_atom (o : obj) : bool :=
  match o with
  | PNone | PBool _ | PInt _ | PStr _ => true
  | PFloat (FFinite r) => wf_float r
  | _ => false
  end.

(** A value of the JSON types as a parser returns it: no tuple, and the
    keys of every dict distinct. *)
Fixpoint json_value (o : obj) : bool :=
  match o with
  | PNone | PBool _ | PInt _ | PFloat _ | PStr _ => true
  | PList l => forallb json_value l
  | PDict items =>
      distinct (map fst items)
      && forallb (fun kv => let '(_, v) := kv in json_value v) items
  | _ => false
  end.

(** [r] is [s] from some position on. *)
Inductive suffix (r : string) : string -> Prop :=
| suffix_here : suffix r r
| suffix_next (c : ascii) (s : string) : suffix r s -> suffix r (String c s).

(** The keys stand in the order [sort_keys] writes them. *)
Fixpoint sorted_keys (l : list string) : bool :=
  match l with
  | k :: t =>
      match t with
      | k' :: _ => String.leb k k' && sorted_keys t
      | [] => true
      end
  | [] => true
  end.

(** A value as decode returns it for a text of the standard engine: of the
    JSON types, without tuples and non-finite floats, the items of each dict
    in key order. *)
Fixpoint canonical (o : obj) : bool :=
  match o with
  | PNone | PBool _ | PInt _ | PStr _ | PFloat (FFinite _) => true
  | PList l => forallb canonical l
  | PDict items =>
      sorted_keys (map fst items)
      && forallb (fun kv => let '(_, v) := kv in canonical v) items
  | _ => false
  end.

(** A world where every package can be imported and the packages [names]
    are loaded. *)
Definition loaded_world (names : list string) : world :=
  World (fun _ => true) (fun name => str_in name names).

(** The [modules] dict with its four keys, each an adapter module or
    [None]. *)
Definition adapters (sage_all np pd image : option pymodule)
  : list (string * option pymodule) :=
  [("sage_all", sage_all); ("np", np); ("pd", pd); ("image", image)].


(** The claim as the spec words it for the legacy engine: the dispatcher
    first canonicalizes the item with both flags false. *)
Definition legacy_canonicalizes_first : Prop :=
  forall w config o pretty,
    exists rest,
      calls (_to_json_plotly w config o pretty (Some "legacy"))
      = CallClean o false false :: rest.

(** * Theorems *)

(** ** JsonConfig *)

Lemma set_default_engine_valid (w : world) (c : JsonConfig) (val : obj) :
  valid_config c -> valid_config (fst (set_default_engine w c val)).
Proof.
  unfold set_default_engine, valid_config, default_engine; intros Hc.
  destruct val; simpl; auto.
  destruct (str_in s _valid_engines) eqn:Hs; simpl; auto.
  destruct (String.eqb s "orjson"); [destruct (validate_orjson w)|]; simpl; auto.
Qed.

Lemma assign_all_valid (l : list (world * obj)) :
  forall c, valid_config c -> valid_config (assign_all c l).
Proof.
  induction l as [|[w v] l IH]; intros c Hc; simpl; auto.
  apply IH, set_default_engine_valid, Hc.
Qed.

(** C10: the default engine starts as "auto" and is one of the four tokens
    after any run of assignments; an assignment that raises leaves the
    stored value as it was; a value that is not one of the four tokens
    raises; and "orjson" raises when the package cannot be imported. *)
Theorem default_engine_always_valid :
  default_engine JsonConfig_init = "auto"
  /\ (forall l, valid_config (assign_all JsonConfig_init l))
  /\ (forall w c val e,
        snd (set_default_engine w c val) = Raise e ->
        fst (set_default_engine w c val) = c)
  /\ (forall w c val,
        is_valid_token val = false ->
        set_default_engine w c val
        = (c, Raise (ValueError unsupported_engine_msg)))
  /\ (forall w c,
        get_module w "orjson" true = None ->
        set_default_engine w c (PStr "orjson")
        = (c, Raise (ValueError "The orjson engine requires the orjson package"))).
Proof.
  repeat split.
  - intros l. apply assign_all_valid. reflexivity.
  - intros w c val e. unfold set_default_engine.
    destruct val; simpl; auto.
    destruct (str_in s _valid_engines); simpl; auto.
    destruct (String.eqb s "orjson"); [destruct (validate_orjson w)|];
      simpl; auto; discriminate.
  - intros w c val Hv. unfold set_default_engine.
    destruct val; simpl in *; auto. now rewrite Hv.
  - intros w c Hm. unfold set_default_engine, validate_orjson.
    simpl. now rewrite Hm.
Qed.

Lemma default_engine_always_valid_witness :
  fst (set_default_engine quiet JsonConfig_init (PStr "orjson")) = JsonConfig_init
  /\ set_default_engine quiet JsonConfig_init (PInt 3)
     = (JsonConfig_init, Raise (ValueError unsupported_engine_msg))
  /\ set_default_engine quiet JsonConfig_init (PStr "orjson")
     = (JsonConfig_init,
        Raise (ValueError "The orjson engine requires the orjson package")).
Proof.
  destruct default_engine_always_valid as (_ & _ & Hkeep & Hbad & Horjson).
  split; [|split].
  - apply (Hkeep quiet JsonConfig_init (PStr "orjson")
             (ValueError "The orjson engine requires the orjson package")).
    reflexivity.
  - apply (Hbad quiet JsonConfig_init (PInt 3)). reflexivity.
  - apply (Horjson quiet JsonConfig_init). reflexivity.
Defined.

(** ** Engine selection *)

Lemma determine_engine_invalid (orjson : option pymodule) (engine : string) :
  str_in engine _valid_engines = false ->
  determine_engine orjson engine = Raise (invalid_engine engine).
Proof.
  unfold determine_engine, str_in; simpl; intros H.
  repeat (apply orb_false_elim in H; destruct H as [? H]).
  destruct (String.eqb engine "auto"); [discriminate|].
  destruct (String.eqb engine "orjson"); [discriminate|].
  destruct (String.eqb engine "json"); [discriminate|].
  destruct (String.eqb engine "legacy"); [discriminate|].
  reflexivity.
Qed.

Lemma determine_engine_valid (orjson : option pymodule) (engine : string) :
  str_in engine _valid_engines = true ->
  exists e, determine_engine orjson engine = Ok e
            /\ str_in e ["orjson"; "json"; "legacy"] = true.
Proof.
  unfold determine_engine, str_in; simpl; intros H.
  destruct (String.eqb engine "auto") eqn:Ha.
  - destruct (is_some orjson); eexists; split; reflexivity.
  - destruct (String.eqb engine "orjson") eqn:Ho;
      destruct (String.eqb engine "json") eqn:Hj;
      destruct (String.eqb engine "legacy") eqn:Hl;
      simpl in *; try discriminate;
      (eexists; split; [reflexivity|]; simpl; rewrite ?Ho, ?Hj, ?Hl; reflexivity).
Qed.

(** C5: an engine string that is not one of the four tokens makes encode
    and decode (of text) raise the invalid-engine error before anything
    else is called, and each of the four tokens passes the guard. *)
Theorem engine_guard :
  (forall w config o pretty engine,
      str_in engine _valid_engines = false ->
      _to_json_plotly w config o pretty (Some engine)
      = ([], Raise (invalid_engine engine)))
  /\ (forall w config value engine,
        is_text value = true ->
        str_in engine _valid_engines = false ->
        from_json_plotly w config value (Some engine)
        = ([], Raise (invalid_engine engine)))
  /\ (forall orjson engine,
        str_in engine _valid_engines = true ->
        exists e, determine_engine orjson engine = Ok e).
Proof.
  split; [|split].
  - intros w config o pretty engine H. unfold _to_json_plotly.
    now rewrite (determine_engine_invalid _ _ H).
  - intros w config value engine Hv H. unfold from_json_plotly.
    destruct value; try discriminate;
      now rewrite (determine_engine_invalid _ _ H).
  - intros orjson engine H.
    destruct (determine_engine_valid orjson _ H) as (e & He & _). eauto.
Qed.

Lemma engine_guard_witness :
  _to_json_plotly quiet JsonConfig_init (PInt 1) false (Some "bogus")
  = ([], Raise (invalid_engine "bogus"))
  /\ from_json_plotly quiet JsonConfig_init (PStr "1") (Some "bogus")
     = ([], Raise (invalid_engine "bogus"))
  /\ exists e, determine_engine None "legacy" = Ok e.
Proof.
  destruct engine_guard as (Henc & Hdec & Hok).
  split; [|split].
  - apply Henc. reflexivity.
  - apply Hdec; reflexivity.
  - apply Hok. reflexivity.
Defined.

Lemma get_module_importable (w : world) (name : string) :
  is_some (get_module w name true) = importable w name.
Proof.
  unfold get_module, importable. rewrite andb_true_l.
  now destruct (loaded w name || present w name).
Qed.

(** ** The canonicaliser *)

Lemma strict_failed_carries_hint : carries_separator_hint strict_failed = true.
Proof. reflexivity. Qed.

(** C3: with the [modules] argument left at its default the function raises
    [KeyError] on every item that is neither a scalar nor a container, such
    as [None]: the default is an empty dict and the adapters are read from
    it by subscript.  With the four adapters passed, [None] and an object
    without capabilities come back unchanged. *)
Theorem clean_default_modules_raises :
  (forall numpy_allowed datetime_allowed o,
      reaches_adapters o = true ->
      clean_to_json_compatible (Kwargs numpy_allowed datetime_allowed None) o
      = Raise (KeyError "sage_all"))
  /\ (forall numpy_allowed datetime_allowed,
        clean_to_json_compatible (Kwargs numpy_allowed datetime_allowed None)
                                 PNone
        = Raise (KeyError "sage_all"))
  /\ (forall w numpy_allowed datetime_allowed,
        clean_to_json_compatible
          (Kwargs numpy_allowed datetime_allowed (Some (adapter_modules w)))
          PNone = Ok PNone
        /\ forall n,
          clean_to_json_compatible
            (Kwargs numpy_allowed datetime_allowed (Some (adapter_modules w)))
            (POpaque n) = Ok (POpaque n)).
Proof.
  split; [|split].
  - intros na da o Hr. unfold reaches_adapters in Hr.
    apply andb_prop in Hr. destruct Hr as [Hs Hc].
    unfold clean_to_json_compatible. cbn [clean_rec].
    rewrite negb_true_iff in Hs, Hc. rewrite Hs.
    fold (unwrapped o).
    destruct (unwrapped o); try discriminate; reflexivity.
  - reflexivity.
  - intros w na da.
    unfold clean_to_json_compatible, adapter_modules, get_module.
    split; [|intros n]; cbn -[depth];
      destruct (loaded w "sage.all"), (loaded w "numpy"), (loaded w "pandas"),
        (loaded w "PIL.Image"), na as [[|]|], da as [[|]|]; reflexivity.
Qed.

Lemma clean_default_modules_raises_witness :
  clean_to_json_compatible (Kwargs (Some false) (Some false) None)
                           (PExportable (PDecimal FNaN))
  = Raise (KeyError "sage_all").
Proof.
  apply (proj1 clean_default_modules_raises). reflexivity.
Defined.

Lemma tail_block_tolist (image : option pymodule) (rec : obj -> result obj)
    (o t : obj) :
  tolist_of o = Some t -> tail_block image rec o = Ok t.
Proof. unfold tail_block. now intros ->. Qed.

(** C8: an item with [tolist()] that reaches that rule is replaced by what
    [tolist()] returns, whatever the recursive call would do; so a numeric
    array with [numpy_allowed] false, and any other array-like object,
    becomes its nested list as it is. *)
Theorem tolist_verbatim :
  (forall image rec o t,
      tolist_of o = Some t -> tail_block image rec o = Ok t)
  /\ (forall w datetime_allowed kind t ds,
        numeric_kind kind = true ->
        clean_to_json_compatible
          (Kwargs (Some false) datetime_allowed (Some (adapter_modules w)))
          (PNdarray kind t ds) = Ok t)
  /\ (forall w numpy_allowed datetime_allowed t,
        clean_to_json_compatible
          (Kwargs numpy_allowed datetime_allowed (Some (adapter_modules w)))
          (PArrayLike t) = Ok t)
  /\ clean_to_json_compatible
       (Kwargs (Some false) (Some false) (Some (adapter_modules quiet)))
       (PNdarray Ki (PList [PInt 1; PInt 2; PInt 3]) PNone)
     = Ok (PList [PInt 1; PInt 2; PInt 3]).
Proof.
  split; [exact tail_block_tolist|split; [|split]].
  - intros w da kind t ds Hk.
    unfold clean_to_json_compatible, adapter_modules, get_module.
    cbn -[depth].
    destruct kind; try discriminate;
      destruct (loaded w "sage.all"), (loaded w "numpy"), (loaded w "pandas"),
        (loaded w "PIL.Image"), da as [[|]|]; reflexivity.
  - intros w na da t.
    unfold clean_to_json_compatible, adapter_modules, get_module.
    cbn -[depth].
    destruct (loaded w "sage.all"), (loaded w "numpy"), (loaded w "pandas"),
      (loaded w "PIL.Image"), na as [[|]|], da as [[|]|]; reflexivity.
  - reflexivity.
Qed.

(** ** The fast engine *)

Lemma fast_engine_unfold (w : world) (config : JsonConfig) (o : obj)
    (pretty : bool) :
  importable w "orjson" = true ->
  _to_json_plotly w config o pretty (Some "orjson")
  = match orjson_dumps (unwrapped o) (fast_option pretty) with
    | Ok s => ([CallOrjsonDumps (unwrapped o)], Ok (PStr s))
    | Raise e =>
        if is_TypeError e then
          match clean_to_json_compatible (fast_kwargs w) (unwrapped o) with
          | Ok cleaned =>
              ([CallOrjsonDumps (unwrapped o);
                CallClean (unwrapped o) true true;
                CallOrjsonDumps cleaned],
               match orjson_dumps cleaned (fast_option pretty) with
               | Ok s => Ok (PStr s)
               | Raise e' => Raise e'
               end)
          | Raise e' =>
              ([CallOrjsonDumps (unwrapped o);
                CallClean (unwrapped o) true true], Raise e')
          end
        else ([CallOrjsonDumps (unwrapped o)], Raise e)
    end.
Proof.
  intros Hi. rewrite <- get_module_importable in Hi.
  unfold _to_json_plotly, validate_orjson.
  destruct (get_module w "orjson" true) as [m|]; [clear Hi|discriminate].
  change (determine_engine (Some m) "orjson") with (@Ok string "orjson").
  cbn [lift then_ str_in existsb String.eqb Ascii.eqb Bool.eqb orb app].
  fold (unwrapped o). fold (fast_option pretty). fold (fast_kwargs w).
  unfold try_except, call, then_, ret.
  destruct (orjson_dumps (unwrapped o) (fast_option pretty)) as [s|e];
    [reflexivity|].
  destruct (is_TypeError e); [|reflexivity].
  destruct (clean_to_json_compatible (fast_kwargs w) (unwrapped o)) as [c|e'];
    [|reflexivity].
  destruct (orjson_dumps c (fast_option pretty)); reflexivity.
Qed.

(** C4 (as the code has it): with orjson importable, the fast engine first
    serialises the item, a top-level exportable object being replaced by its
    view, and returns that text with no call to the canonicaliser; it calls
    the canonicaliser, with [numpy_allowed] and [datetime_allowed] true,
    exactly when that first attempt raises a [TypeError], and then
    serialises what it returns. *)
Theorem fast_engine_direct_then_fallback :
  forall w config o pretty,
    importable w "orjson" = true ->
    let item := unwrapped o in
    let run := _to_json_plotly w config o pretty (Some "orjson") in
    (forall s, orjson_dumps item (fast_option pretty) = Ok s ->
               run = ([CallOrjsonDumps item], Ok (PStr s)))
    /\ (In (CallClean item true true) (calls run)
        <-> exists e, orjson_dumps item (fast_option pretty) = Raise e
                      /\ is_TypeError e = true)
    /\ (forall e cleaned,
          orjson_dumps item (fast_option pretty) = Raise e ->
          is_TypeError e = true ->
          clean_to_json_compatible (fast_kwargs w) item = Ok cleaned ->
          calls run = [CallOrjsonDumps item; CallClean item true true;
                       CallOrjsonDumps cleaned]
          /\ outcome run
             = (s <- orjson_dumps cleaned (fast_option pretty) ;; Ok (PStr s))).
Proof.
  intros w config o pretty Hi item run. subst run.
  rewrite (fast_engine_unfold w config o pretty Hi). fold item.
  split; [|split].
  - intros s ->. reflexivity.
  - destruct (orjson_dumps item (fast_option pretty)) as [s|e].
    + split.
      * simpl. intros [H|[]]. discriminate.
      * intros (e & H & _). discriminate.
    + destruct (is_TypeError e) eqn:He.
      * split; [eauto|]. intros _.
        destruct (clean_to_json_compatible (fast_kwargs w) item);
          simpl; auto.
      * split.
        -- simpl. intros [H|[]]. discriminate.
        -- intros (e' & H & He'). injection H as <-. congruence.
  - intros e cleaned -> -> ->. split; reflexivity.
Qed.

Lemma fast_engine_direct_then_fallback_witness :
  _to_json_plotly with_orjson JsonConfig_init
    (PExportable (PDict [("x", PInt 5)])) false (Some "orjson")
  = ([CallOrjsonDumps (PDict [("x", PInt 5)])],
     Ok (PStr ("{" ++ quoted "x" ++ ":5}"))).
Proof.
  apply (fast_engine_direct_then_fallback with_orjson JsonConfig_init
           (PExportable (PDict [("x", PInt 5)])) false).
  - reflexivity.
  - reflexivity.
Defined.

(** C4 as worded fails on an exportable item: the first call serialises its
    view, not the item. *)
Lemma direct_attempt_on_raw_item_fails : ~ direct_attempt_on_raw_item.
Proof.
  intros H.
  destruct (H with_orjson JsonConfig_init (PExportable (PDict [("x", PInt 5)]))
              false eq_refl) as (rest & Hrest).
  vm_compute in Hrest. discriminate.
Qed.

Lemma tolist_verbatim_witness :
  tail_block None (fun _ => Raise RecursionError)
             (PArrayLike (PList [PFloat FNaN])) = Ok (PList [PFloat FNaN])
  /\ clean_to_json_compatible
       (Kwargs (Some false) None (Some (adapter_modules quiet)))
       (PNdarray Kf (PList [PInt 1]) PNone) = Ok (PList [PInt 1]).
Proof.
  destruct tolist_verbatim as (Htail & Harr & _).
  split.
  - apply Htail. reflexivity.
  - apply Harr. reflexivity.
Defined.

(** ** Decoding *)

(** C7 as worded fails: decode raises what the parser raised. *)
Lemma decode_error_carries_hint_fails : ~ decode_error_carries_hint.
Proof.
  intros H. destruct (H _ eq_refl) as (e & He & Hhint).
  vm_compute in He. injection He as <-. discriminate Hhint.
Qed.

(** ** Text *)

Lemma append_assoc (a b c : string) : (a ++ b) ++ c = a ++ (b ++ c).
Proof. induction a as [|x a IH]; simpl; [reflexivity|now rewrite IH]. Qed.

Lemma append_nil_r (a : string) : a ++ "" = a.
Proof. induction a as [|x a IH]; simpl; [reflexivity|now rewrite IH]. Qed.

Lemma length_append (a b : string) :
  String.length (a ++ b) = String.length a + String.length b.
Proof. induction a as [|x a IH]; simpl; [reflexivity|now rewrite IH]. Qed.

(** ** Strings: what the encoder escapes the scanner reads back *)

Lemma scanstring_escape_char (c : ascii) (t : string) :
  scanstring (escape_char c ++ t)
  = match scanstring t with
    | Ok (r, rest) => Ok (String c r, rest)
    | Raise e => Raise e
    end.
Proof.
  destruct c as [[] [] [] [] [] [] [] []]; reflexivity.
Qed.

Lemma scanstring_escape_string (s rest : string) :
  scanstring (escape_string s ++ String dquote rest) = Ok (s, rest).
Proof.
  induction s as [|c s IH]; simpl.
  - reflexivity.
  - now rewrite append_assoc, scanstring_escape_char, IH.
Qed.

Lemma scanstring_encode_basestring (s rest : string) :
  exists body,
    encode_basestring_ascii s ++ rest = String dquote body
    /\ scanstring body = Ok (s, rest).
Proof.
  exists (escape_string s ++ String dquote rest). split.
  - unfold encode_basestring_ascii, str1. simpl.
    now rewrite append_assoc.
  - apply scanstring_escape_string.
Qed.

(** ** Numbers: what the encoder prints the scanner reads back *)

Lemma delimiter_cases (c : ascii) :
  delimiter c = true ->
  c = ","%char \/ c = "]"%char \/ c = "}"%char \/ c = " "%char
  \/ c = "009"%char \/ c = "010"%char \/ c = "013"%char.
Proof.
  unfold delimiter, is_ws. intros H.
  repeat (apply orb_prop in H; destruct H as [H|H]);
    apply Ascii.eqb_eq in H; auto 10.
Qed.

Ltac delim_cases rest H :=
  destruct rest as [|?c ?r];
  [| apply delimiter_cases in H;
     destruct H as [H|[H|[H|[H|[H|[H|H]]]]]]; subst ].

Lemma scan_digits_repr (d : Decimal.uint) (rest : string) :
  no_digit_ahead rest -> scan_digits (uint_repr d ++ rest) = (d, rest).
Proof.
  intros Hrest.
  induction d; simpl; try (rewrite IHd; reflexivity).
  destruct rest as [|c r]; simpl in *; [reflexivity|now rewrite Hrest].
Qed.

Lemma nzhead_not_D0 (u v : Decimal.uint) : Decimal.nzhead u <> Decimal.D0 v.
Proof. induction u; simpl; try discriminate. assumption. Qed.

Lemma unorm_fixed_D0 (d : Decimal.uint) :
  Decimal.unorm (Decimal.D0 d) = Decimal.D0 d -> d = Decimal.Nil.
Proof.
  unfold Decimal.unorm. simpl.
  destruct (Decimal.nzhead d) eqn:Hd; intros H; try discriminate.
  - injection H as H'. now symmetry.
  - exfalso. now apply nzhead_not_D0 in Hd.
Qed.

Lemma N_to_uint_unorm (n : N) :
  Decimal.unorm (N.to_uint n) = N.to_uint n.
Proof.
  rewrite <- (DecimalN.Unsigned.to_of (N.to_uint n)).
  now rewrite DecimalN.Unsigned.of_to.
Qed.

Lemma scan_integer_repr (d : Decimal.uint) (rest : string) :
  Decimal.unorm d = d -> no_digit_ahead rest ->
  scan_integer (uint_repr d ++ rest) = Some (d, rest).
Proof.
  intros Hd Hrest.
  destruct d;
    try (unfold scan_integer; simpl;
         rewrite (scan_digits_repr _ _ Hrest); reflexivity).
  - discriminate.
  - apply unorm_fixed_D0 in Hd. subst. reflexivity.
Qed.

Lemma scan_integer_N (n : N) (rest : string) :
  no_digit_ahead rest ->
  scan_integer (N_repr n ++ rest) = Some (N.to_uint n, rest).
Proof. intros. apply scan_integer_repr; auto using N_to_uint_unorm. Qed.

Lemma N_repr_head (n : N) :
  exists c t, N_repr n = String c t /\ digit_of c <> None.
Proof.
  unfold N_repr.
  pose proof (N_to_uint_unorm n) as H.
  destruct (N.to_uint n); try discriminate;
    simpl; do 2 eexists; (split; [reflexivity|discriminate]).
Qed.

Lemma delimited_no_digit (rest : string) :
  delimited rest = true -> no_digit_ahead rest.
Proof. intros H. delim_cases rest H; simpl; auto. Qed.

Lemma scan_frac_delimited (rest : string) :
  delimited rest = true -> scan_frac rest = (Decimal.Nil, rest).
Proof. intros H. delim_cases rest H; reflexivity. Qed.

Lemma scan_exp_delimited (rest : string) :
  delimited rest = true -> scan_exp rest = (None, rest).
Proof. intros H. delim_cases rest H; reflexivity. Qed.

Lemma match_number_unsigned (n : N) (rest : string) :
  match_number (N_repr n ++ rest) = number_body false (N_repr n ++ rest).
Proof.
  destruct (N_repr_head n) as (c & t & Hc & Hdig).
  rewrite Hc. simpl.
  destruct (Ascii.eqb_spec c "-"); [subst; now elim Hdig|reflexivity].
Qed.

Lemma number_body_int (neg : bool) (n : N) (rest : string) :
  delimited rest = true ->
  number_body neg (N_repr n ++ rest)
  = Some (PInt (if neg then (- Z.of_N n)%Z else Z.of_N n), rest).
Proof.
  intros Hrest. unfold number_body.
  rewrite scan_integer_N by now apply delimited_no_digit.
  rewrite scan_frac_delimited, scan_exp_delimited by assumption.
  now rewrite DecimalN.Unsigned.of_to.
Qed.

Lemma match_number_int (z : Z) (rest : string) :
  delimited rest = true ->
  match_number (int_repr z ++ rest) = Some (PInt z, rest).
Proof.
  intros Hrest.
  destruct z as [|p|p]; unfold int_repr.
  - change "0" with (N_repr 0).
    now rewrite match_number_unsigned, number_body_int.
  - now rewrite match_number_unsigned, number_body_int.
  - change (("-" ++ N_repr (N.pos p)) ++ rest)
      with (String "-" (N_repr (N.pos p) ++ rest)).
    unfold match_number. simpl Ascii.eqb. cbv iota.
    now rewrite number_body_int.
Qed.

Lemma float_repr_parts (r : float_lit) (rest : string) :
  float_repr r ++ rest
  = (if f_neg r then "-" else "")
    ++ N_repr (f_int r) ++ frac_repr (f_frac r) ++ exp_repr (f_exp r) ++ rest.
Proof.
  unfold float_repr. now rewrite !append_assoc.
Qed.

Lemma uint_repr_head (d : Decimal.uint) :
  d <> Decimal.Nil ->
  exists c t, uint_repr d = String c t /\ digit_of c <> None.
Proof.
  destruct d; intros H; try (now elim H);
    simpl; do 2 eexists; (split; [reflexivity|discriminate]).
Qed.

Lemma scan_exp_repr (e : option (bool * Decimal.uint)) (rest : string) :
  match e with
  | Some (_, Decimal.Nil) => False
  | _ => True
  end ->
  delimited rest = true ->
  scan_exp (exp_repr e ++ rest) = (e, rest).
Proof.
  intros He Hrest.
  destruct e as [[neg d]|]; [|now apply scan_exp_delimited].
  assert (Hd : d <> Decimal.Nil) by (destruct d; [now elim He|discriminate..]).
  destruct (uint_repr_head Hd) as (c & t & Hc & _).
  pose proof (scan_digits_repr d rest (delimited_no_digit _ Hrest)) as Hs.
  unfold exp_repr, scan_exp.
  destruct neg; simpl; rewrite Hs; destruct d; try reflexivity; now elim Hd.
Qed.

Lemma exp_repr_no_digit (e : option (bool * Decimal.uint)) (rest : string) :
  delimited rest = true -> no_digit_ahead (exp_repr e ++ rest).
Proof.
  intros Hrest. destruct e as [[neg d]|]; simpl.
  - reflexivity.
  - now apply delimited_no_digit.
Qed.

Lemma scan_frac_repr (d : Decimal.uint) (e : option (bool * Decimal.uint))
    (rest : string) :
  delimited rest = true ->
  scan_frac (frac_repr d ++ exp_repr e ++ rest) = (d, exp_repr e ++ rest).
Proof.
  intros Hrest.
  pose proof (scan_digits_repr d _ (exp_repr_no_digit e _ Hrest)) as Hs.
  destruct d; unfold frac_repr, scan_frac;
    try (simpl; simpl in Hs; rewrite Hs; reflexivity).
  destruct e as [[neg d]|]; simpl.
  - reflexivity.
  - now apply scan_frac_delimited.
Qed.

Lemma frac_exp_no_digit (d : Decimal.uint) (e : option (bool * Decimal.uint))
    (rest : string) :
  delimited rest = true ->
  no_digit_ahead (frac_repr d ++ exp_repr e ++ rest).
Proof.
  intros Hrest. destruct d; try reflexivity.
  now apply exp_repr_no_digit.
Qed.

Lemma number_body_float (r : float_lit) (rest : string) :
  wf_float r = true -> delimited rest = true ->
  number_body (f_neg r)
    (N_repr (f_int r) ++ frac_repr (f_frac r) ++ exp_repr (f_exp r) ++ rest)
  = Some (PFloat (FFinite r), rest).
Proof.
  intros Hwf Hrest. unfold number_body.
  rewrite scan_integer_N by now apply frac_exp_no_digit.
  rewrite scan_frac_repr by assumption.
  rewrite scan_exp_repr; try assumption.
  - rewrite DecimalN.Unsigned.of_to.
    destruct r as [neg n frac e]; unfold wf_float in Hwf; simpl in *.
    destruct frac, e as [[? ?]|]; try reflexivity; discriminate.
  - unfold wf_float in Hwf.
    destruct (f_frac r), (f_exp r) as [[? []]|]; try exact I; discriminate.
Qed.

Lemma match_number_float (r : float_lit) (rest : string) :
  wf_float r = true -> delimited rest = true ->
  match_number (float_repr r ++ rest) = Some (PFloat (FFinite r), rest).
Proof.
  intros Hwf Hrest. rewrite float_repr_parts.
  pose proof (number_body_float r rest Hwf Hrest) as Hb.
  destruct (f_neg r) eqn:Hneg.
  - exact Hb.
  - simpl append at 1. now rewrite match_number_unsigned.
Qed.

(** ** Values: well-formedness, what the scanner gives back, fuel *)

Lemma scan_once_number (pc : string -> result obj) (n : nat) (s : string)
    (r : obj * string) :
  number_head s = true -> match_number s = Some r ->
  scan_once pc (S n) s = Ok r.
Proof.
  destruct s as [|c t]; [discriminate|].
  intros Hh Hm.
  destruct c as [[] [] [] [] [] [] [] []]; try discriminate Hh;
    cbn -[match_number]; rewrite Hm; reflexivity.
Qed.

Lemma number_head_N (n : N) (rest : string) :
  number_head (N_repr n ++ rest) = true.
Proof.
  destruct (N_repr_head n) as (c & t & -> & Hd). simpl.
  destruct (digit_of c); [reflexivity|now elim Hd].
Qed.

Lemma number_head_int (z : Z) (rest : string) :
  number_head (int_repr z ++ rest) = true.
Proof.
  destruct z; unfold int_repr; try apply number_head_N; reflexivity.
Qed.

Lemma number_head_float (r : float_lit) (rest : string) :
  number_head (float_repr r ++ rest) = true.
Proof.
  rewrite float_repr_parts. destruct (f_neg r); [reflexivity|].
  apply number_head_N.
Qed.

Section RoundTrip.

Variable hook : string -> obj.
Variable opts : dumps_opts.

Local Abbreviation pc := (constant_hook hook).
Local Abbreviation form := (parsed_form hook (sort_keys opts)).

Lemma scan_once_scalar (o : obj) (level n : nat) (t rest : string) :
  is_scalar o = true \/ o = PNone ->
  wf_obj o = true ->
  iterencode json_backend opts o level = Ok t ->
  delimited rest = true ->
  scan_once pc (S n) (t ++ rest) = Ok (form o, rest).
Proof.
  intros Hs Hwf Ht Hrest.
  destruct o; try (destruct Hs as [Hs|Hs]; discriminate); simpl in Ht.
  - injection Ht as <-. reflexivity.
  - destruct b; injection Ht as <-; reflexivity.
  - injection Ht as <-.
    apply scan_once_number; [apply number_head_int|].
    now apply match_number_int.
  - injection Ht as <-.
    destruct f; try reflexivity.
    apply scan_once_number; [apply number_head_float|].
    now apply match_number_float.
  - injection Ht as <-.
    destruct (scanstring_encode_basestring s rest) as (body & -> & Hb).
    cbn. now rewrite Hb.
Qed.

End RoundTrip.

(** ** Induction over values *)

Lemma obj_json_ind (P : obj -> Prop) :
  (forall o, is_container o = false -> P o) ->
  (forall l, Forall P l -> P (PList l)) ->
  (forall l, Forall P l -> P (PTuple l)) ->
  (forall items, Forall (fun kv => P (snd kv)) items -> P (PDict items)) ->
  forall o, P o.
Proof.
  intros Hleaf Hlist Htuple Hdict. fix IH 1. intros o.
  destruct o; try (apply Hleaf; reflexivity).
  - apply Hlist. induction l; constructor; [apply IH|assumption].
  - apply Htuple. induction l; constructor; [apply IH|assumption].
  - apply Hdict. induction items as [|[k v] items IHitems]; constructor;
      [apply IH|assumption].
Qed.

Lemma mapM_cons_ok {A B : Type} (f : A -> result B) (x : A) (l : list A)
    (ys : list B) :
  mapM f (x :: l) = Ok ys ->
  exists y ys', f x = Ok y /\ mapM f l = Ok ys' /\ ys = y :: ys'.
Proof.
  simpl. destruct (f x) as [y|]; [|discriminate].
  destruct (mapM f l) as [ys'|]; [|discriminate].
  intros H. injection H as <-. eauto.
Qed.

Lemma mapM_nil_ok {A B : Type} (f : A -> result B) (l : list A) :
  mapM f l = Ok [] -> l = [].
Proof.
  destruct l as [|x l]; [reflexivity|].
  intros H. apply mapM_cons_ok in H. destruct H as (? & ? & _ & _ & H).
  discriminate.
Qed.

(** ** Whitespace and layout *)

Lemma skip_ws_spaces (n : nat) (s : string) :
  skip_ws (spaces n ++ s) = skip_ws s.
Proof. induction n; simpl; auto. Qed.

Lemma skip_ws_newline_indent (opts : dumps_opts) (level : nat) (s : string) :
  skip_ws (newline_indent opts level ++ s) = skip_ws s.
Proof.
  unfold newline_indent. destruct (indent opts); simpl; [|reflexivity].
  apply skip_ws_spaces.
Qed.

Lemma skip_ws_value_start (t : string) :
  value_start t = true -> skip_ws t = t.
Proof.
  destruct t as [|c t]; [discriminate|]. simpl.
  destruct (is_ws c); [discriminate|reflexivity].
Qed.

Lemma value_start_app (t rest : string) :
  value_start t = true -> value_start (t ++ rest) = true.
Proof. destruct t; [discriminate|auto]. Qed.

Lemma value_start_N (n : N) : value_start (N_repr n) = true.
Proof.
  destruct (N_repr_head n) as (c & t & -> & Hd).
  destruct c as [[] [] [] [] [] [] [] []]; try reflexivity; now elim Hd.
Qed.

Lemma encode_container_start (opts : dumps_opts) (lb rb : string) (level : nat)
    (chunks : list string) :
  value_start lb = true ->
  value_start (encode_container opts lb rb level chunks) = true.
Proof.
  intros H. unfold encode_container.
  destruct chunks; now apply value_start_app.
Qed.

Lemma iterencode_value_start (opts : dumps_opts) (o : obj) (level : nat)
    (t : string) :
  iterencode json_backend opts o level = Ok t -> value_start t = true.
Proof.
  destruct o; simpl; try discriminate; intros H.
  - now injection H as <-.
  - destruct b; now injection H as <-.
  - injection H as <-.
    destruct z; unfold int_repr; try reflexivity; apply value_start_N.
  - injection H as <-. destruct f; try reflexivity.
    unfold floatstr, float_repr. destruct (f_neg r); [reflexivity|].
    simpl. apply value_start_app, value_start_N.
  - now injection H as <-.
  - destruct (mapM _ l); [|discriminate]. injection H as <-.
    now apply encode_container_start.
  - destruct (mapM _ l); [|discriminate]. injection H as <-.
    now apply encode_container_start.
  - destruct (mapM _ _); [|discriminate]. injection H as <-.
    now apply encode_container_start.
Qed.

(** ** The two option sets of the module *)

Lemma module_opts_item_separator (opts : dumps_opts) :
  module_opts opts -> item_separator opts = ",".
Proof. intros [[] ->]; reflexivity. Qed.

Lemma module_opts_key_separator (opts : dumps_opts) :
  module_opts opts -> key_separator opts = ":" \/ key_separator opts = ": ".
Proof. intros [[] ->]; auto. Qed.

Lemma module_opts_sort_keys (opts : dumps_opts) :
  module_opts opts -> sort_keys opts = true.
Proof. intros [[] ->]; reflexivity. Qed.

(** ** Containers: arrays *)

Lemma delimited_close (opts : dumps_opts) (level : nat) (rb rest : string) :
  delimited rb = true -> rb <> "" ->
  delimited (newline_indent opts level ++ rb ++ rest) = true.
Proof.
  intros Hrb Hne. unfold newline_indent.
  destruct (indent opts); [reflexivity|].
  destruct rb; [now elim Hne|exact Hrb].
Qed.

Lemma concat_cons2 (sep x y : string) (l : list string) :
  String.concat sep (x :: y :: l) = x ++ sep ++ String.concat sep (y :: l).
Proof. reflexivity. Qed.

Lemma concat_value_start (sep x : string) (l : list string) :
  value_start x = true -> value_start (String.concat sep (x :: l)) = true.
Proof.
  intros H. destruct l; [exact H|].
  rewrite concat_cons2. now apply value_start_app.
Qed.

Section Containers.

Variable hook : string -> obj.
Variable opts : dumps_opts.
Hypothesis Hopts : module_opts opts.

Local Abbreviation pc := (constant_hook hook).
Local Abbreviation form := (parsed_form hook (sort_keys opts)).

Lemma scan_once_open_bracket (n : nat) (t X : string) :
  skip_ws t = X -> value_start X = true ->
  scan_once pc (S n) (String "[" t)
  = match array_loop pc n X with
    | Ok (values, rest) => Ok (PList values, rest)
    | Raise e => Raise e
    end.
Proof.
  intros Ht HX. simpl. rewrite Ht.
  destruct X as [|c t']; [discriminate|].
  simpl in HX.
  destruct (Ascii.eqb c "]"); [|reflexivity].
  rewrite andb_false_r in HX. discriminate.
Qed.

Lemma array_loop_eq (n : nat) (s : string) :
  array_loop pc (S n) s
  = match scan_once pc n s with
    | Raise e => Raise e
    | Ok (value, s1) =>
        match skip_ws s1 with
        | String c t =>
            if Ascii.eqb c "]" then Ok ([value], t)
            else if Ascii.eqb c "," then
              match array_loop pc n (skip_ws t) with
              | Ok (values, rest) => Ok (value :: values, rest)
              | Raise e => Raise e
              end
            else decode_error "Expecting ',' delimiter"
        | EmptyString => decode_error "Expecting ',' delimiter"
        end
    end.
Proof. reflexivity. Qed.

Lemma array_loop_chunks (level : nat) (rest : string) (l : list obj) :
  Forall (reads_back hook opts) l ->
  forall chunks fuel,
    l <> [] ->
    forallb wf_obj l = true ->
    mapM (fun x => iterencode json_backend opts x (S level)) l = Ok chunks ->
    fold_right (fun x acc => S (weight x) + acc) 0 l <= fuel ->
    array_loop pc fuel
      (String.concat ("," ++ newline_indent opts (S level)) chunks
       ++ newline_indent opts level ++ "]" ++ rest)
    = Ok (map form l, rest).
Proof.
  induction 1 as [|x l Hx Hl IH]; intros chunks fuel Hne Hwf Hm Hfuel;
    [now elim Hne|].
  apply mapM_cons_ok in Hm. destruct Hm as (cx & chunks' & Hcx & Hm & ->).
  simpl in Hwf. apply andb_prop in Hwf. destruct Hwf as [Hwfx Hwfl].
  simpl in Hfuel. destruct fuel as [|m]; [lia|].
  destruct l as [|y l'].
  - (* the last element *)
    simpl in Hm. injection Hm as <-. simpl String.concat.
    rewrite array_loop_eq, (Hx (S level) cx _ m Hwfx Hcx);
      [|now apply delimited_close|lia].
    rewrite skip_ws_newline_indent. reflexivity.
  - pose proof Hm as Hm'.
    apply mapM_cons_ok in Hm'. destruct Hm' as (cy & chunks'' & Hcy & _ & ->).
    rewrite concat_cons2, !append_assoc.
    rewrite array_loop_eq, (Hx (S level) cx _ m Hwfx Hcx);
      [|reflexivity|lia].
    change (skip_ws ("," ++ ?s)) with ("," ++ s).
    cbn [append skip_ws is_ws Ascii.eqb Bool.eqb orb].
    rewrite skip_ws_newline_indent.
    rewrite skip_ws_value_start
      by (apply value_start_app, concat_value_start;
          eapply iterencode_value_start; eassumption).
    assert (Hrec := IH (cy :: chunks'') m ltac:(discriminate) Hwfl Hm
                       ltac:(simpl in Hfuel |- *; lia)).
    cbn [append] in Hrec. rewrite Hrec. reflexivity.
Qed.

End Containers.

(** ** Containers: objects *)

Lemma insert_item_on_values {A B : Type} (f : A -> B) (kv : string * A)
    (l : list (string * A)) :
  insert_item (on_values f kv) (map (on_values f) l)
  = map (on_values f) (insert_item kv l).
Proof.
  induction l as [|[k' v'] l IH]; destruct kv as [k v]; simpl in *.
  - reflexivity.
  - destruct (String.leb k k'); simpl; [reflexivity|now rewrite IH].
Qed.

Lemma sorted_items_on_values {A B : Type} (f : A -> B) (l : list (string * A)) :
  sorted_items (map (on_values f) l) = map (on_values f) (sorted_items l).
Proof.
  induction l as [|kv l IH]; simpl; [reflexivity|].
  unfold sorted_items in *. simpl. rewrite IH.
  apply insert_item_on_values.
Qed.

Lemma insert_item_perm {V : Type} (kv : string * V) (l : list (string * V)) :
  Permutation (kv :: l) (insert_item kv l).
Proof.
  induction l as [|kv' l IH]; simpl; [reflexivity|].
  destruct (String.leb (fst kv) (fst kv')); [reflexivity|].
  rewrite perm_swap. now constructor.
Qed.

Lemma sorted_items_perm {V : Type} (l : list (string * V)) :
  Permutation l (sorted_items l).
Proof.
  induction l as [|kv l IH]; simpl; [constructor|].
  unfold sorted_items in *. simpl.
  rewrite <- insert_item_perm. now constructor.
Qed.

Lemma str_in_In (k : string) (l : list string) : str_in k l = true <-> In k l.
Proof.
  unfold str_in. rewrite existsb_exists. split.
  - intros (x & Hx & He). apply String.eqb_eq in He. now subst.
  - intros H. exists k. split; [assumption|apply String.eqb_refl].
Qed.

Lemma distinct_NoDup (l : list string) : distinct l = true <-> NoDup l.
Proof.
  induction l as [|k l IH]; simpl.
  - split; [constructor|reflexivity].
  - rewrite andb_true_iff, negb_true_iff, IH. split.
    + intros [Hk Hl]. constructor; [|assumption].
      rewrite <- str_in_In. now rewrite Hk.
    + intros H. inversion H as [|? ? Hk Hl]; subst. split; [|assumption].
      destruct (str_in k l) eqn:E; [|reflexivity].
      now apply str_in_In in E.
Qed.

Lemma distinct_perm (l l' : list string) :
  Permutation l l' -> distinct l = true -> distinct l' = true.
Proof.
  rewrite !distinct_NoDup. apply Permutation_NoDup.
Qed.

Lemma dict_set_fresh (d : list (string * obj)) (k : string) (v : obj) :
  str_in k (map fst d) = false -> dict_set d k v = (d ++ [(k, v)])%list.
Proof.
  induction d as [|[k' v'] d IH]; simpl; [reflexivity|].
  unfold str_in. simpl. intros H. apply orb_false_elim in H.
  destruct H as [Hk Hd]. rewrite String.eqb_sym, Hk.
  now rewrite IH.
Qed.

Lemma dict_of_pairs_distinct (pairs : list (string * obj)) :
  distinct (map fst pairs) = true -> dict_of_pairs pairs = pairs.
Proof.
  unfold dict_of_pairs.
  enough (H : forall acc,
             distinct (map fst (acc ++ pairs)%list) = true ->
             fold_left (fun d kv => dict_set d (fst kv) (snd kv)) pairs acc
             = (acc ++ pairs)%list) by (intros; now apply (H [])).
  induction pairs as [|[k v] pairs IH]; intros acc Hd; simpl.
  - now rewrite app_nil_r.
  - assert (Hfresh : str_in k (map fst acc) = false).
    { rewrite distinct_NoDup, map_app in Hd. simpl in Hd.
      apply NoDup_remove_2 in Hd.
      destruct (str_in k (map fst acc)) eqn:E; [|reflexivity].
      apply str_in_In in E. elim Hd. apply in_or_app. now left. }
    rewrite (dict_set_fresh _ _ _ Hfresh), IH.
    + now rewrite <- app_assoc.
    + now rewrite <- app_assoc.
Qed.

Ltac norm_app :=
  repeat first [rewrite append_assoc | progress cbn [append]].

Section Objects.

Variable hook : string -> obj.
Variable opts : dumps_opts.
Hypothesis Hopts : module_opts opts.

Local Abbreviation pc := (constant_hook hook).
Local Abbreviation form := (parsed_form hook (sort_keys opts)).

Lemma object_loop_eq (n : nat) (s : string) :
  object_loop pc (S n) s
  = match scanstring s with
    | Raise e => Raise e
    | Ok (key, s1) =>
        match skip_ws s1 with
        | String c t =>
            if Ascii.eqb c ":" then
              match scan_once pc n (skip_ws t) with
              | Raise e => Raise e
              | Ok (value, s2) =>
                  match skip_ws s2 with
                  | String c' t' =>
                      if Ascii.eqb c' "}" then Ok ([(key, value)], t')
                      else if Ascii.eqb c' "," then
                        match skip_ws t' with
                        | String q u =>
                            if Ascii.eqb q dquote then
                              match object_loop pc n u with
                              | Ok (pairs, rest) =>
                                  Ok ((key, value) :: pairs, rest)
                              | Raise e => Raise e
                              end
                            else
                              decode_error
                                "Expecting property name enclosed in double quotes"
                        | EmptyString =>
                            decode_error
                              "Expecting property name enclosed in double quotes"
                        end
                      else decode_error "Expecting ',' delimiter"
                  | EmptyString => decode_error "Expecting ',' delimiter"
                  end
              end
            else decode_error "Expecting ':' delimiter"
        | EmptyString => decode_error "Expecting ':' delimiter"
        end
    end.
Proof. reflexivity. Qed.

Lemma scan_once_open_brace (n : nat) (t body : string) :
  skip_ws t = String dquote body ->
  scan_once pc (S n) (String "{" t)
  = match object_loop pc n body with
    | Ok (pairs, rest) => Ok (PDict (dict_of_pairs pairs), rest)
    | Raise e => Raise e
    end.
Proof. intros Ht. simpl. rewrite Ht. reflexivity. Qed.

(** After the colon comes the value, after at most one space. *)
Lemma after_key_separator (s more : string) :
  value_start s = true ->
  exists t, key_separator opts ++ s ++ more = String ":" t
            /\ skip_ws t = s ++ more.
Proof.
  intros Hs.
  assert (Hv : skip_ws (s ++ more) = s ++ more)
    by now apply skip_ws_value_start, value_start_app.
  destruct (module_opts_key_separator Hopts) as [-> | ->]; eexists;
    (split; [reflexivity|]); simpl; exact Hv.
Qed.

Lemma item_chunks_head (level : nat) (its : list (string * obj))
    (chunks : list string) :
  mapM (item_chunk opts)
       (map (on_values (fun v => iterencode json_backend opts v (S level)))
            its) = Ok chunks ->
  forall tail,
    its <> [] ->
    exists body,
      String.concat ("," ++ newline_indent opts (S level)) chunks ++ tail
      = String dquote body.
Proof.
  intros Hm tail Hne.
  destruct its as [|[k v] its]; [now elim Hne|].
  simpl map in Hm. apply mapM_cons_ok in Hm.
  destruct Hm as (chunk & chunks' & Hc & _ & ->).
  simpl in Hc.
  destruct (iterencode json_backend opts v (S level)); [|discriminate].
  simpl in Hc. injection Hc as <-.
  destruct chunks'; [|rewrite concat_cons2]; eexists; reflexivity.
Qed.

Lemma object_loop_chunks (level : nat) (rest : string)
    (its : list (string * obj)) :
  Forall (fun kv => reads_back hook opts (snd kv)) its ->
  forall chunks body fuel,
    its <> [] ->
    forallb (fun kv => let '(_, v) := kv in wf_obj v) its = true ->
    mapM (item_chunk opts)
         (map (on_values (fun v => iterencode json_backend opts v (S level)))
              its) = Ok chunks ->
    String dquote body
    = String.concat ("," ++ newline_indent opts (S level)) chunks
      ++ newline_indent opts level ++ "}" ++ rest ->
    fold_right (fun kv acc => let '(_, v) := kv in S (weight v) + acc) 0 its
    <= fuel ->
    object_loop pc fuel body = Ok (map (on_values form) its, rest).
Proof.
  induction 1 as [|[k v] its Hv Hits IH];
    intros chunks body fuel Hne Hwf Hm Hbody Hfuel; [now elim Hne|].
  simpl map in Hm. apply mapM_cons_ok in Hm.
  destruct Hm as (chunk & chunks' & Hc & Hm & ->).
  simpl in Hc.
  destruct (iterencode json_backend opts v (S level)) as [s|] eqn:Hs;
    [|discriminate].
  simpl in Hc. injection Hc as <-.
  simpl in Hwf. apply andb_prop in Hwf. destruct Hwf as [Hwfv Hwfl].
  simpl in Hfuel. destruct fuel as [|m]; [lia|].
  pose proof (iterencode_value_start _ _ _ Hs) as Hstart.
  simpl in Hv.
  destruct its as [|[k2 v2] its'].
  - (* the last item *)
    simpl in Hm. injection Hm as <-. simpl String.concat in Hbody.
    unfold encode_basestring_ascii, str1 in Hbody.
    cbn [append b_str json_backend] in Hbody. injection Hbody as ->.
    norm_app.
    destruct (after_key_separator s
                (newline_indent opts level ++ String "}" rest) Hstart)
      as (t & Ht & Hskip).
    rewrite object_loop_eq, scanstring_escape_string, Ht.
    simpl skip_ws at 1. cbv iota. simpl Ascii.eqb. cbv iota.
    rewrite Hskip.
    rewrite (Hv (S level) s _ m Hwfv Hs);
      [|change (String "}" rest) with ("}" ++ rest);
        now apply delimited_close|lia].
    rewrite skip_ws_newline_indent. reflexivity.
  - pose proof Hm as Hm'. simpl map in Hm'. apply mapM_cons_ok in Hm'.
    destruct Hm' as (chunk2 & chunks'' & _ & _ & ->).
    destruct (@item_chunks_head level _ _ Hm
                (newline_indent opts level ++ String "}" rest)
                ltac:(discriminate))
      as (body2 & Hhead).
    rewrite concat_cons2 in Hbody.
    remember (String.concat ("," ++ newline_indent opts (S level))
                            (chunk2 :: chunks''))
      as C eqn:HC.
    rename Hbody into Hbody'.
    unfold encode_basestring_ascii, str1 in Hbody'.
    cbn [append] in Hbody'. injection Hbody' as ->.
    norm_app.
    destruct (after_key_separator s
                (String "," (newline_indent opts (S level) ++ C
                             ++ newline_indent opts level ++ String "}" rest))
                Hstart)
      as (t & Ht & Hskip).
    rewrite object_loop_eq, scanstring_escape_string, Ht.
    simpl skip_ws at 1. cbv iota. simpl Ascii.eqb. cbv iota.
    rewrite Hskip.
    rewrite (Hv (S level) s _ m Hwfv Hs); [|reflexivity|lia].
    cbn [skip_ws is_ws Ascii.eqb Bool.eqb orb].
    rewrite skip_ws_newline_indent, Hhead.
    cbn [skip_ws is_ws Ascii.eqb Bool.eqb orb dquote].
    subst C.
    rewrite (IH (chunk2 :: chunks'') body2 m); [reflexivity|discriminate|assumption
                                  |assumption| |simpl in Hfuel |- *; lia].
    rewrite <- Hhead. reflexivity.
Qed.

End Objects.

(** ** The text of a value reads back as its parsed form *)

Lemma forallb_perm {A : Type} (f : A -> bool) (l l' : list A) :
  Permutation l l' -> forallb f l = true -> forallb f l' = true.
Proof.
  rewrite !forallb_forall. intros Hp H x Hx. apply H.
  eapply Permutation_in; [symmetry|]; eassumption.
Qed.

Lemma weight_sum_perm (l l' : list (string * obj)) :
  Permutation l l' ->
  fold_right (fun kv acc => let '(_, v) := kv in S (weight v) + acc) 0 l
  = fold_right (fun kv acc => let '(_, v) := kv in S (weight v) + acc) 0 l'.
Proof.
  induction 1 as [|[k v] l l' _ IH|[k1 v1] [k2 v2] l|l1 l2 l3 _ IH1 _ IH2];
    cbn [fold_right]; lia.
Qed.

Lemma map_fst_on_values {A B : Type} (f : A -> B) (l : list (string * A)) :
  map fst (map (on_values f) l) = map fst l.
Proof.
  induction l as [|[k v] l IH]; simpl; [reflexivity|now rewrite IH].
Qed.

Section ReadsBack.

Variable hook : string -> obj.
Variable opts : dumps_opts.
Hypothesis Hopts : module_opts opts.

Local Abbreviation pc := (constant_hook hook).
Local Abbreviation form := (parsed_form hook (sort_keys opts)).

Lemma array_reads_back (l : list obj) (level : nat) (t rest : string)
    (fuel : nat) :
  Forall (reads_back hook opts) l ->
  forallb wf_obj l = true ->
  (chunks <- mapM (fun x => iterencode json_backend opts x (S level)) l ;;
   Ok (encode_container opts "[" "]" level chunks)) = Ok t ->
  S (fold_right (fun x acc => S (weight x) + acc) 0 l) <= fuel ->
  scan_once pc fuel (t ++ rest) = Ok (PList (map form l), rest).
Proof.
  intros Hall Hwf Ht Hfuel.
  destruct fuel as [|n]; [lia|].
  destruct (mapM _ l) as [chunks|] eqn:Hm; [|discriminate].
  simpl in Ht. injection Ht as <-.
  destruct l as [|x l].
  - simpl in Hm. injection Hm as <-. reflexivity.
  - pose proof Hm as Hm'. apply mapM_cons_ok in Hm'.
    destruct Hm' as (cx & chunks' & Hcx & _ & ->).
    unfold encode_container.
    rewrite (module_opts_item_separator Hopts).
    norm_app.
    rewrite (@scan_once_open_bracket hook n _
               (String.concat (String "," (newline_indent opts (S level)))
                              (cx :: chunks')
                ++ newline_indent opts level ++ String "]" rest)).
    + change (String "," (newline_indent opts (S level)))
        with ("," ++ newline_indent opts (S level)).
      change (String "]" rest) with ("]" ++ rest).
      rewrite (@array_loop_chunks hook opts level rest (x :: l) Hall
                 (cx :: chunks') n);
        [reflexivity|discriminate|assumption|assumption|lia].
    + rewrite skip_ws_newline_indent. apply skip_ws_value_start.
      apply value_start_app, concat_value_start.
      eapply iterencode_value_start; eassumption.
    + apply value_start_app, concat_value_start.
      eapply iterencode_value_start; eassumption.
Qed.

Lemma object_reads_back (items : list (string * obj)) (level : nat)
    (t rest : string) (fuel : nat) :
  Forall (fun kv => reads_back hook opts (snd kv)) items ->
  wf_obj (PDict items) = true ->
  iterencode json_backend opts (PDict items) level = Ok t ->
  weight (PDict items) <= fuel ->
  scan_once pc fuel (t ++ rest) = Ok (form (PDict items), rest).
Proof.
  intros Hall Hwf Ht Hfuel.
  pose proof (module_opts_sort_keys Hopts) as Hsort.
  cbn [parsed_form]. cbn [iterencode] in Ht.
  rewrite Hsort in *.
  rewrite sorted_items_on_values in Ht. rewrite sorted_items_on_values.
  cbn [wf_obj] in Hwf. apply andb_prop in Hwf. destruct Hwf as [Hkeys Hwf].
  cbn [weight] in Hfuel.
  pose proof (sorted_items_perm items) as Hperm.
  rewrite (weight_sum_perm Hperm) in Hfuel.
  apply (forallb_perm _ Hperm) in Hwf.
  apply (Permutation_Forall Hperm) in Hall.
  assert (Hkeys' : distinct (map fst (sorted_items items)) = true).
  { eapply distinct_perm; [|exact Hkeys]. now apply Permutation_map. }
  clear Hperm Hkeys.
  remember (sorted_items items) as its eqn:Hits. clear Hits items.
  destruct fuel as [|n]; [lia|].
  change (fun kr : string * result string =>
            let '(k, r) := kr in
            s <- r ;; Ok (b_str json_backend k ++ key_separator opts ++ s))
    with (item_chunk opts) in Ht.
  destruct (mapM (item_chunk opts) _) as [chunks|] eqn:Hm; [|discriminate].
  simpl in Ht. injection Ht as <-.
  destruct its as [|kv its].
  - simpl in Hm. injection Hm as <-. reflexivity.
  - destruct (@item_chunks_head opts level _ _ Hm
                (newline_indent opts level ++ String "}" rest)
                ltac:(discriminate))
      as (body & Hbody).
    assert (Hne : chunks <> []).
    { intros ->. apply mapM_nil_ok in Hm. discriminate. }
    unfold encode_container.
    destruct chunks as [|c chunks]; [now elim Hne|].
    rewrite (module_opts_item_separator Hopts).
    norm_app.
    rewrite (@scan_once_open_brace hook n _ body).
    + rewrite (@object_loop_chunks hook opts Hopts level rest (kv :: its) Hall
                 (c :: chunks) body n);
        [|discriminate|assumption|assumption| |lia].
      * rewrite dict_of_pairs_distinct.
        -- rewrite Hsort. reflexivity.
        -- now rewrite map_fst_on_values.
      * now rewrite <- Hbody.
    + rewrite skip_ws_newline_indent.
      change (String "," (newline_indent opts (S level)))
        with ("," ++ newline_indent opts (S level)).
      rewrite Hbody. reflexivity.
Qed.

(** Every value the standard encoder accepts reads back as its parsed
    form, with fuel from its [weight] on. *)
Lemma iterencode_reads_back (o : obj) : reads_back hook opts o.
Proof.
  induction o as [o Ho|l IH|l IH|items IH] using obj_json_ind;
    intros level t rest fuel Hwf Ht Hrest Hfuel.
  - destruct fuel as [|n]; [destruct o; simpl in Hfuel; lia|].
    destruct o; try discriminate;
      (apply scan_once_scalar with (level := level); auto; fail).
  - now apply array_reads_back with (level := level).
  - now apply array_reads_back with (level := level).
  - now apply object_reads_back with (level := level).
Qed.

End ReadsBack.

(** ** Fuel: the length of the text is enough *)

Lemma value_start_length (t : string) :
  value_start t = true -> 1 <= String.length t.
Proof. destruct t; [discriminate|simpl; lia]. Qed.

Lemma concat_length (sep : string) (chunks : list string) :
  1 <= String.length sep ->
  fold_right (fun c acc => S (String.length c) + acc) 0 chunks
  <= S (String.length (String.concat sep chunks)).
Proof.
  intros Hsep. induction chunks as [|c chunks IH]; [simpl; lia|].
  destruct chunks as [|c' chunks].
  - simpl. lia.
  - rewrite concat_cons2, !length_append.
    cbn [fold_right] in *. lia.
Qed.

Lemma encode_container_length (opts : dumps_opts) (lb rb : string)
    (level : nat) (chunks : list string) :
  item_separator opts = "," ->
  1 <= String.length lb -> 1 <= String.length rb ->
  S (fold_right (fun c acc => S (String.length c) + acc) 0 chunks)
  <= String.length (encode_container opts lb rb level chunks).
Proof.
  intros Hsep Hlb Hrb. unfold encode_container.
  destruct chunks as [|c chunks].
  - rewrite length_append. simpl. lia.
  - rewrite Hsep, !length_append.
    pose proof (@concat_length ("," ++ newline_indent opts (S level))
                  (c :: chunks) ltac:(simpl; lia)).
    lia.
Qed.

Section Fuel.

Variable opts : dumps_opts.
Hypothesis Hopts : module_opts opts.

Lemma array_fits (l : list obj) (level : nat) (chunks : list string) :
  Forall (fits opts) l ->
  mapM (fun x => iterencode json_backend opts x (S level)) l = Ok chunks ->
  fold_right (fun x acc => S (weight x) + acc) 0 l
  <= fold_right (fun c acc => S (String.length c) + acc) 0 chunks.
Proof.
  intros Hall. revert chunks.
  induction Hall as [|x l Hx _ IH]; intros chunks Hm.
  - simpl in Hm. injection Hm as <-. simpl. lia.
  - apply mapM_cons_ok in Hm. destruct Hm as (c & chunks' & Hc & Hm & ->).
    specialize (IH _ Hm). specialize (Hx _ _ Hc).
    cbn [fold_right]. lia.
Qed.

Lemma object_fits (its : list (string * obj)) (level : nat)
    (chunks : list string) :
  Forall (fun kv => fits opts (snd kv)) its ->
  mapM (item_chunk opts)
       (map (on_values (fun v => iterencode json_backend opts v (S level)))
            its) = Ok chunks ->
  fold_right (fun kv acc => let '(_, v) := kv in S (weight v) + acc) 0 its
  <= fold_right (fun c acc => S (String.length c) + acc) 0 chunks.
Proof.
  intros Hall. revert chunks.
  induction Hall as [|[k v] its Hv _ IH]; intros chunks Hm.
  - simpl in Hm. injection Hm as <-. simpl. lia.
  - simpl map in Hm. apply mapM_cons_ok in Hm.
    destruct Hm as (c & chunks' & Hc & Hm & ->).
    unfold item_chunk in Hc. cbn [on_values] in Hc.
    destruct (iterencode json_backend opts v (S level)) as [s|] eqn:Hs;
      [|discriminate].
    cbn [bind] in Hc. injection Hc as <-.
    specialize (IH _ Hm). specialize (Hv _ _ Hs). cbn [snd] in Hv.
    cbn [fold_right String.length]. rewrite !length_append. lia.
Qed.

Lemma weight_le_length (o : obj) : fits opts o.
Proof.
  pose proof (module_opts_item_separator Hopts) as Hsep.
  induction o as [o Ho|l IH|l IH|items IH] using obj_json_ind;
    intros level t Ht.
  - apply iterencode_value_start in Ht. apply value_start_length in Ht.
    destruct o; try discriminate; simpl; exact Ht.
  - cbn [iterencode] in Ht.
    destruct (mapM _ l) as [chunks|] eqn:Hm; [|discriminate].
    simpl in Ht. injection Ht as <-.
    pose proof (@array_fits _ _ _ IH Hm).
    pose proof (@encode_container_length opts "[" "]" level chunks Hsep
                  ltac:(simpl; lia) ltac:(simpl; lia)).
    cbn [weight]. lia.
  - cbn [iterencode] in Ht.
    destruct (mapM _ l) as [chunks|] eqn:Hm; [|discriminate].
    simpl in Ht. injection Ht as <-.
    pose proof (@array_fits _ _ _ IH Hm).
    pose proof (@encode_container_length opts "[" "]" level chunks Hsep
                  ltac:(simpl; lia) ltac:(simpl; lia)).
    cbn [weight]. lia.
  - cbn [iterencode] in Ht.
    rewrite (module_opts_sort_keys Hopts) in Ht.
    rewrite sorted_items_on_values in Ht.
    change (fun kr : string * result string =>
              let '(k, r) := kr in
              s <- r ;; Ok (b_str json_backend k ++ key_separator opts ++ s))
      with (item_chunk opts) in Ht.
    destruct (mapM (item_chunk opts) _) as [chunks|] eqn:Hm; [|discriminate].
    simpl in Ht. injection Ht as <-.
    pose proof (sorted_items_perm items) as Hperm.
    apply (Permutation_Forall Hperm) in IH.
    pose proof (@object_fits _ _ _ IH Hm).
    pose proof (@encode_container_length opts "{" "}" level chunks Hsep
                  ltac:(simpl; lia) ltac:(simpl; lia)).
    cbn [weight]. rewrite (weight_sum_perm Hperm). lia.
Qed.

End Fuel.

(** ** json.loads after json.dumps *)

Theorem loads_dumps (hook : option (string -> obj)) (opts : dumps_opts)
    (o : obj) (t : string) :
  module_opts opts ->
  wf_obj o = true ->
  json_dumps o opts = Ok t ->
  json_loads t hook
  = Ok (parsed_form (match hook with
                     | Some h => h
                     | None => float_constant
                     end) true o).
Proof.
  intros Hopts Hwf Ht. unfold json_dumps in Ht.
  unfold json_loads, decode.
  rewrite (skip_ws_value_start _ (iterencode_value_start _ _ _ Ht)).
  pose proof (@weight_le_length opts Hopts o 0 t Ht) as Hw.
  destruct hook as [h|].
  - pose proof (@iterencode_reads_back h opts Hopts o 0 t ""
                  (S (2 * String.length t)) Hwf Ht eq_refl ltac:(lia)) as Hr.
    rewrite append_nil_r, (module_opts_sort_keys Hopts) in Hr.
    now rewrite Hr.
  - pose proof (@iterencode_reads_back float_constant opts Hopts o 0 t ""
                  (S (2 * String.length t)) Hwf Ht eq_refl ltac:(lia)) as Hr.
    rewrite append_nil_r, (module_opts_sort_keys Hopts) in Hr.
    now rewrite Hr.
Qed.

(** ** Ordering the items of a dict *)

Lemma insert_item_sorted {V : Type} (kv : string * V) (l : list (string * V)) :
  Sorted key_le l -> Sorted key_le (insert_item kv l).
Proof.
  induction 1 as [|kv' l Hl IH Hhd]; simpl.
  - repeat constructor.
  - destruct (String.leb (fst kv) (fst kv')) eqn:Hle.
    + constructor; [now constructor|]. now constructor.
    + constructor; [assumption|].
      assert (Hge : key_le kv' kv).
      { unfold key_le. destruct (String.leb_total (fst kv) (fst kv'));
          [congruence|assumption]. }
      destruct Hhd as [|kv'' l' Hle']; simpl.
      * now constructor.
      * destruct (String.leb (fst kv) (fst kv'')); now constructor.
Qed.

Lemma sorted_items_sorted {V : Type} (l : list (string * V)) :
  Sorted key_le (sorted_items l).
Proof.
  induction l as [|kv l IH]; [constructor|].
  unfold sorted_items in *. simpl. now apply insert_item_sorted.
Qed.

Lemma sorted_items_fixed {V : Type} (l : list (string * V)) :
  Sorted key_le l -> sorted_items l = l.
Proof.
  induction 1 as [|kv l Hl IH Hhd]; [reflexivity|].
  unfold sorted_items in *. simpl. rewrite IH.
  destruct Hhd as [|kv' l' Hle]; simpl; [reflexivity|].
  unfold key_le in Hle. now rewrite Hle.
Qed.

Lemma sorted_items_idem {V : Type} (l : list (string * V)) :
  sorted_items (sorted_items l) = sorted_items l.
Proof. apply sorted_items_fixed, sorted_items_sorted. Qed.

(** ** Non-finite floats *)

Lemma prefix_app (n a b : string) :
  String.prefix n a = true -> String.prefix n (a ++ b) = true.
Proof.
  revert a. induction n as [|c n IH]; intros a.
  - intros _. now destruct (a ++ b).
  - destruct a as [|c' a]; simpl; [discriminate|].
    destruct (ascii_dec c c'); [apply IH|discriminate].
Qed.

Lemma str_contains_app_l (n a b : string) :
  str_contains n a = true -> str_contains n (a ++ b) = true.
Proof.
  induction a as [|c a IH]; simpl.
  - rewrite orb_false_r. intros H.
    destruct n; [destruct b; reflexivity|discriminate].
  - intros H. apply orb_prop in H. destruct H as [H|H].
    + apply (prefix_app _ (String c a) b) in H. simpl in H. now rewrite H.
    + rewrite (IH H). apply orb_true_r.
Qed.

Lemma str_contains_app_r (n a b : string) :
  str_contains n b = true -> str_contains n (a ++ b) = true.
Proof.
  intros H. induction a as [|c a IH]; simpl; [assumption|].
  rewrite IH. apply orb_true_r.
Qed.

Lemma has_constant_text_app_l (a b : string) :
  has_constant_text a = true -> has_constant_text (a ++ b) = true.
Proof.
  unfold has_constant_text. intros H. apply orb_prop in H.
  destruct H as [H|H]; rewrite (str_contains_app_l _ _ b H);
    auto using orb_true_r.
Qed.

Lemma has_constant_text_app_r (a b : string) :
  has_constant_text b = true -> has_constant_text (a ++ b) = true.
Proof.
  unfold has_constant_text. intros H. apply orb_prop in H.
  destruct H as [H|H]; rewrite (str_contains_app_r _ a _ H);
    auto using orb_true_r.
Qed.

Lemma has_constant_text_concat (sep c : string) (chunks : list string) :
  In c chunks -> has_constant_text c = true ->
  has_constant_text (String.concat sep chunks) = true.
Proof.
  intros Hin Hc. induction chunks as [|c' chunks IH]; [now elim Hin|].
  destruct chunks as [|c'' chunks].
  - destruct Hin as [->|[]]. exact Hc.
  - rewrite concat_cons2. destruct Hin as [->|Hin].
    + now apply has_constant_text_app_l.
    + apply has_constant_text_app_r, has_constant_text_app_r. now apply IH.
Qed.

Lemma has_constant_text_container (opts : dumps_opts) (lb rb c : string)
    (level : nat) (chunks : list string) :
  In c chunks -> has_constant_text c = true ->
  has_constant_text (encode_container opts lb rb level chunks) = true.
Proof.
  intros Hin Hc. unfold encode_container.
  destruct chunks as [|c' chunks]; [now elim Hin|].
  apply has_constant_text_app_r, has_constant_text_app_r.
  apply has_constant_text_app_l.
  now apply has_constant_text_concat with (c := c).
Qed.

Lemma mapM_In {A B : Type} (f : A -> result B) (l : list A) (ys : list B)
    (x : A) :
  mapM f l = Ok ys -> In x l -> exists y, f x = Ok y /\ In y ys.
Proof.
  revert ys. induction l as [|a l IH]; intros ys Hm Hin; [now elim Hin|].
  apply mapM_cons_ok in Hm. destruct Hm as (y & ys' & Hy & Hm & ->).
  destruct Hin as [->|Hin].
  - exists y. split; [assumption|now left].
  - destruct (IH _ Hm Hin) as (y' & Hy' & Hin'). exists y'.
    split; [assumption|now right].
Qed.

Lemma forallb_false_In {A : Type} (f : A -> bool) (l : list A) :
  forallb f l = false -> exists x, In x l /\ f x = false.
Proof.
  induction l as [|a l IH]; simpl; [discriminate|].
  destruct (f a) eqn:Ha; simpl.
  - intros H. destruct (IH H) as (x & Hx & Hfx). eauto.
  - intros _. eauto.
Qed.

Lemma array_has_constant_text (opts : dumps_opts) (l : list obj) (level : nat)
    (t : string) :
  Forall (fun x => forall level t,
              iterencode json_backend opts x level = Ok t ->
              finite_tree x = false -> has_constant_text t = true) l ->
  (chunks <- mapM (fun x => iterencode json_backend opts x (S level)) l ;;
   Ok (encode_container opts "[" "]" level chunks)) = Ok t ->
  forallb finite_tree l = false ->
  has_constant_text t = true.
Proof.
  intros IH Ht Hf.
  destruct (mapM _ l) as [chunks|] eqn:Hm; [|discriminate].
  simpl in Ht. injection Ht as <-.
  apply forallb_false_In in Hf. destruct Hf as (x & Hin & Hx).
  destruct (mapM_In _ _ _ Hm Hin) as (c & Hc & Hinc).
  rewrite Forall_forall in IH.
  apply has_constant_text_container with (c := c); [assumption|].
  exact (IH x Hin _ _ Hc Hx).
Qed.

(** A value with a non-finite float is written with one of the two
    substrings in its text. *)
Lemma nonfinite_has_constant_text (opts : dumps_opts) (o : obj) :
  forall level t,
    iterencode json_backend opts o level = Ok t ->
    finite_tree o = false -> has_constant_text t = true.
Proof.
  induction o as [o Ho|l IH|l IH|items IH] using obj_json_ind;
    intros level t Ht Hf.
  - destruct o; try discriminate.
    destruct f; try discriminate; simpl in Ht; injection Ht as <-; reflexivity.
  - now apply array_has_constant_text with (opts := opts) (l := l)
                                          (level := level).
  - now apply array_has_constant_text with (opts := opts) (l := l)
                                          (level := level).
  - cbn [iterencode] in Ht. cbn [finite_tree] in Hf.
    destruct (mapM _ _) as [chunks|] eqn:Hm; [|discriminate].
    simpl in Ht. injection Ht as <-.
    apply forallb_false_In in Hf. destruct Hf as ([k v] & Hin & Hv).
    assert (Hin' : In (k, iterencode json_backend opts v (S level))
                      (if sort_keys opts
                       then sorted_items
                              (map (on_values
                                      (fun v => iterencode json_backend opts v
                                                  (S level))) items)
                       else map (on_values
                                   (fun v => iterencode json_backend opts v
                                               (S level))) items)).
    { assert (H0 : In (k, iterencode json_backend opts v (S level))
                      (map (on_values
                              (fun v => iterencode json_backend opts v
                                          (S level))) items)).
      { apply in_map_iff. exists (k, v). split; [reflexivity|assumption]. }
      destruct (sort_keys opts); [|assumption].
      eapply Permutation_in; [apply sorted_items_perm|assumption]. }
    destruct (mapM_In _ _ _ Hm Hin') as (c & Hc & Hinc).
    simpl in Hc.
    destruct (iterencode json_backend opts v (S level)) as [s|] eqn:Hs;
      [|discriminate].
    simpl in Hc. injection Hc as <-.
    rewrite Forall_forall in IH.
    apply has_constant_text_container with (c := encode_basestring_ascii k
                                                  ++ key_separator opts ++ s);
      [assumption|].
    apply has_constant_text_app_r, has_constant_text_app_r.
    exact (IH (k, v) Hin _ _ Hs Hv).
Qed.

(** ** The parsed form *)

Lemma map_on_values_ext {A B : Type} (f g : A -> B) (l : list (string * A)) :
  Forall (fun kv => f (snd kv) = g (snd kv)) l ->
  map (on_values f) l = map (on_values g) l.
Proof.
  induction 1 as [|[k v] l H _ IH]; simpl in *; [reflexivity|].
  now rewrite H, IH.
Qed.

Lemma map_ext_Forall' {A B : Type} (f g : A -> B) (l : list A) :
  Forall (fun x => f x = g x) l -> map f l = map g l.
Proof.
  induction 1 as [|x l H _ IH]; simpl; [reflexivity|now rewrite H, IH].
Qed.

Lemma map_on_values_compose {A B C : Type} (f : A -> B) (g : B -> C)
    (l : list (string * A)) :
  map (on_values g) (map (on_values f) l) = map (on_values (fun v => g (f v))) l.
Proof.
  induction l as [|[k v] l IH]; simpl; [reflexivity|now rewrite IH].
Qed.

Lemma forallb_on_values {A B : Type} (p : B -> bool) (f : A -> B)
    (l : list (string * A)) :
  forallb (fun kv => let '(_, v) := kv in p v) (map (on_values f) l)
  = forallb (fun kv => let '(_, v) := kv in p (f v)) l.
Proof.
  induction l as [|[k v] l IH]; simpl; [reflexivity|now rewrite IH].
Qed.

Lemma forallb_perm_eq {A : Type} (p : A -> bool) (l l' : list A) :
  Permutation l l' -> forallb p l = forallb p l'.
Proof.
  induction 1 as [|x l l' _ IH|x y l|l1 l2 l3 _ IH1 _ IH2]; simpl.
  - reflexivity.
  - now rewrite IH.
  - now rewrite !andb_assoc, (andb_comm (p y)).
  - now rewrite IH1.
Qed.

Lemma forallb_sorted_items {V : Type} (p : string * V -> bool)
    (l : list (string * V)) :
  forallb p (sorted_items l) = forallb p l.
Proof. symmetry. apply forallb_perm_eq, sorted_items_perm. Qed.

Lemma forallb_Forall_true {A : Type} (p : A -> bool) (l : list A) :
  Forall (fun x => p x = true) l -> forallb p l = true.
Proof. induction 1 as [|x l H _ IH]; simpl; [reflexivity|now rewrite H]. Qed.

Lemma forallb_map' {A B : Type} (p : B -> bool) (f : A -> B) (l : list A) :
  forallb p (map f l) = forallb (fun x => p (f x)) l.
Proof. induction l as [|x l IH]; simpl; [reflexivity|now rewrite IH]. Qed.

Section ParsedFormFacts.

Variables (h : string -> obj) (sorting : bool).

Local Abbreviation form := (parsed_form h sorting).

(** Without non-finite floats the hook is never asked. *)
Lemma parsed_form_finite_hook (h' : string -> obj) (o : obj) :
  finite_tree o = true -> form o = parsed_form h' sorting o.
Proof.
  induction o as [o Ho|l IH|l IH|items IH] using obj_json_ind; intros Hf.
  - destruct o; try discriminate; try reflexivity.
    destruct f; try discriminate; reflexivity.
  - cbn [parsed_form finite_tree] in *. f_equal.
    apply map_ext_Forall'. rewrite forallb_forall in Hf.
    rewrite Forall_forall in *. auto.
  - cbn [parsed_form finite_tree] in *. f_equal.
    apply map_ext_Forall'. rewrite forallb_forall in Hf.
    rewrite Forall_forall in *. auto.
  - cbn [parsed_form finite_tree] in *.
    rewrite (@map_on_values_ext _ _ (parsed_form h sorting)
               (parsed_form h' sorting) items); [reflexivity|].
    rewrite forallb_forall in Hf.
    rewrite Forall_forall in *. intros [k v] Hin.
    apply (IH _ Hin). exact (Hf _ Hin).
Qed.

Hypothesis Hhook_finite : forall c, finite_tree (h c) = true.

Lemma parsed_form_is_finite (o : obj) : finite_tree (form o) = true.
Proof.
  induction o as [o Ho|l IH|l IH|items IH] using obj_json_ind.
  - destruct o; try discriminate; try reflexivity.
    destruct f; try reflexivity; apply Hhook_finite.
  - cbn [parsed_form finite_tree]. rewrite forallb_map'.
    now apply forallb_Forall_true.
  - cbn [parsed_form finite_tree]. rewrite forallb_map'.
    now apply forallb_Forall_true.
  - cbn [parsed_form finite_tree].
    assert (H : forallb (fun kv => let '(_, v) := kv in finite_tree v)
                        (map (on_values (parsed_form h sorting)) items) = true).
    { rewrite forallb_on_values. apply forallb_Forall_true.
      rewrite Forall_forall in *. intros [k v] Hin. exact (IH _ Hin). }
    destruct sorting; [now rewrite forallb_sorted_items|assumption].
Qed.

End ParsedFormFacts.

(** ** The text of the strict form *)

Lemma mapM_ext_Forall {A B : Type} (f g : A -> result B) (l : list A) :
  Forall (fun x => f x = g x) l -> mapM f l = mapM g l.
Proof.
  induction 1 as [|x l H _ IH]; simpl; [reflexivity|now rewrite H, IH].
Qed.

Lemma mapM_map {A B C : Type} (f : B -> result C) (g : A -> B) (l : list A) :
  mapM f (map g l) = mapM (fun x => f (g x)) l.
Proof.
  induction l as [|x l IH]; simpl; [reflexivity|now rewrite IH].
Qed.

Lemma mapM_ok_Forall {A B : Type} (f : A -> result B) (l : list A) :
  Forall (fun x => exists y, f x = Ok y) l -> exists ys, mapM f l = Ok ys.
Proof.
  induction 1 as [|x l [y Hy] _ [ys IH]]; simpl; [eauto|].
  rewrite Hy, IH. eauto.
Qed.

Lemma mapM_ok_inv {A B : Type} (f : A -> result B) (l : list A) (ys : list B) :
  mapM f l = Ok ys -> Forall (fun x => exists y, f x = Ok y) l.
Proof.
  revert ys. induction l as [|x l IH]; intros ys Hm; constructor.
  - apply mapM_cons_ok in Hm. destruct Hm as (y & _ & Hy & _). eauto.
  - apply mapM_cons_ok in Hm. destruct Hm as (_ & ys' & _ & Hm & _). eauto.
Qed.

Section StrictText.

Variable opts : dumps_opts.
Hypothesis Hsort : sort_keys opts = true.

Lemma strict_form_text (o : obj) :
  forall level,
    iterencode json_backend opts (strict_form o) level
    = iterencode strict_backend opts o level.
Proof.
  unfold strict_form.
  induction o as [o Ho|l IH|l IH|items IH] using obj_json_ind; intros level.
  - destruct o; try discriminate; try reflexivity.
    destruct f; reflexivity.
  - cbn [parsed_form iterencode]. rewrite mapM_map.
    erewrite mapM_ext_Forall; [reflexivity|].
    rewrite Forall_forall in *. intros x Hin. apply (IH x Hin).
  - cbn [parsed_form iterencode]. rewrite mapM_map.
    erewrite mapM_ext_Forall; [reflexivity|].
    rewrite Forall_forall in *. intros x Hin. apply (IH x Hin).
  - cbn [parsed_form iterencode]. rewrite Hsort.
    rewrite !sorted_items_on_values, sorted_items_idem.
    rewrite map_on_values_compose.
    erewrite map_on_values_ext; [reflexivity|].
    apply (Permutation_Forall (sorted_items_perm items)) in IH.
    rewrite Forall_forall in *. intros kv Hin. apply (IH kv Hin).
Qed.

Lemma strict_text_finite (o : obj) :
  forall level,
    finite_tree o = true ->
    iterencode strict_backend opts o level
    = iterencode json_backend opts o level.
Proof.
  induction o as [o Ho|l IH|l IH|items IH] using obj_json_ind;
    intros level Hf.
  - destruct o; try discriminate; try reflexivity.
    destruct f; try discriminate; reflexivity.
  - cbn [iterencode finite_tree] in *. rewrite forallb_forall in Hf.
    erewrite mapM_ext_Forall; [reflexivity|].
    rewrite Forall_forall in *. intros x Hin. apply (IH x Hin), Hf, Hin.
  - cbn [iterencode finite_tree] in *. rewrite forallb_forall in Hf.
    erewrite mapM_ext_Forall; [reflexivity|].
    rewrite Forall_forall in *. intros x Hin. apply (IH x Hin), Hf, Hin.
  - cbn [iterencode finite_tree] in *. rewrite forallb_forall in Hf.
    erewrite map_on_values_ext; [reflexivity|].
    rewrite Forall_forall in *. intros [k v] Hin.
    apply (IH _ Hin). exact (Hf _ Hin).
Qed.

Lemma strict_text_ok (o : obj) :
  forall level t,
    iterencode json_backend opts o level = Ok t ->
    exists t', iterencode strict_backend opts o level = Ok t'.
Proof.
  induction o as [o Ho|l IH|l IH|items IH] using obj_json_ind;
    intros level t Ht.
  - destruct o; try discriminate; simpl in *; eauto.
  - cbn [iterencode] in *.
    destruct (mapM _ l) as [chunks|] eqn:Hm; [|discriminate].
    apply mapM_ok_inv in Hm.
    destruct (@mapM_ok_Forall _ _
                (fun x => iterencode strict_backend opts x (S level)) l)
      as (ys & ->); [|simpl; eauto].
    rewrite Forall_forall in *. intros x Hin.
    destruct (Hm x Hin) as (y & Hy). exact (IH x Hin _ _ Hy).
  - cbn [iterencode] in *.
    destruct (mapM _ l) as [chunks|] eqn:Hm; [|discriminate].
    apply mapM_ok_inv in Hm.
    destruct (@mapM_ok_Forall _ _
                (fun x => iterencode strict_backend opts x (S level)) l)
      as (ys & ->); [|simpl; eauto].
    rewrite Forall_forall in *. intros x Hin.
    destruct (Hm x Hin) as (y & Hy). exact (IH x Hin _ _ Hy).
  - cbn [iterencode] in *. rewrite Hsort in *.
    rewrite sorted_items_on_values in *.
    destruct (mapM _ _) as [chunks|] eqn:Hm in Ht; [|discriminate].
    apply mapM_ok_inv in Hm.
    match goal with
    | |- exists t', (chunks <- mapM ?f ?l ;; _) = Ok t' =>
        destruct (@mapM_ok_Forall _ _ f l) as (ys & ->); [|simpl; eauto]
    end.
    apply (Permutation_Forall (sorted_items_perm items)) in IH.
    rewrite Forall_forall in *. intros [k r] Hin.
    apply in_map_iff in Hin. destruct Hin as ([k' v] & Heq & Hin).
    simpl in Heq. injection Heq as <- <-.
    specialize (Hm (k', iterencode json_backend opts v (S level))
                   ltac:(apply in_map_iff; exists (k', v); auto)).
    destruct Hm as (y & Hy). simpl in Hy.
    destruct (iterencode json_backend opts v (S level)) as [s|] eqn:Hs;
      [|discriminate].
    destruct (IH (k', v) Hin _ _ Hs) as (s' & Hs'). simpl in Hs'.
    cbn -[iterencode]. rewrite Hs'. simpl. eauto.
Qed.

End StrictText.

Lemma strict_form_idem (o : obj) : strict_form (strict_form o) = strict_form o.
Proof.
  unfold strict_form.
  induction o as [o Ho|l IH|l IH|items IH] using obj_json_ind.
  - destruct o; try discriminate; try reflexivity.
    destruct f; reflexivity.
  - cbn [parsed_form]. rewrite map_map. f_equal.
    now apply map_ext_Forall'.
  - cbn [parsed_form]. rewrite map_map. f_equal.
    now apply map_ext_Forall'.
  - cbn [parsed_form].
    rewrite sorted_items_on_values, sorted_items_idem.
    rewrite <- sorted_items_on_values, map_on_values_compose.
    f_equal. f_equal. now apply map_on_values_ext.
Qed.

Lemma strict_form_finite (o : obj) : finite_tree (strict_form o) = true.
Proof.
  apply parsed_form_is_finite. intros c. unfold coerce_to_strict.
  now destruct (str_in c _).
Qed.

Lemma strict_form_wf (o : obj) : wf_obj o = true -> wf_obj (strict_form o) = true.
Proof.
  unfold strict_form.
  induction o as [o Ho|l IH|l IH|items IH] using obj_json_ind; intros Hwf.
  - destruct o; try discriminate; try reflexivity; try exact Hwf.
    destruct f; try reflexivity; exact Hwf.
  - cbn [parsed_form wf_obj] in *. rewrite forallb_map'.
    rewrite forallb_forall in *. rewrite Forall_forall in IH. auto.
  - cbn [parsed_form wf_obj] in *. rewrite forallb_map'.
    rewrite forallb_forall in *. rewrite Forall_forall in IH. auto.
  - cbn [parsed_form wf_obj] in *.
    apply andb_prop in Hwf. destruct Hwf as [Hkeys Hvals].
    apply andb_true_intro. split.
    + apply distinct_perm with (l := map fst items); [|assumption].
      rewrite <- (map_fst_on_values (parsed_form coerce_to_strict true) items)
        at 1.
      apply Permutation_map, sorted_items_perm.
    + rewrite forallb_sorted_items, forallb_on_values.
      rewrite forallb_forall in *. rewrite Forall_forall in IH.
      intros [k v] Hin. apply (IH _ Hin). exact (Hvals _ Hin).
Qed.

(** ** The order of keys *)







(** ** The engines and their outcomes *)


Lemma mapM_items_keys (f : obj -> result obj) (items items' : list (string * obj)) :
  mapM (fun kv => let '(k, v) := kv in v' <- f v ;; Ok (k, v')) items
  = Ok items' ->
  map fst items' = map fst items.
Proof.
  revert items'. induction items as [|[k v] items IH]; intros items' Hm.
  - simpl in Hm. now injection Hm as <-.
  - apply mapM_cons_ok in Hm. destruct Hm as (y & ys & Hy & Hm & ->).
    destruct (f v); [|discriminate]. simpl in Hy. injection Hy as <-.
    simpl. f_equal. now apply IH.
Qed.

Lemma standard_engine_outcome (w : world) (config : JsonConfig) (o : obj)
    (pretty : bool) :
  outcome (_to_json_plotly w config o pretty (Some "json"))
  = standard_outcome w pretty o.
Proof.
  unfold _to_json_plotly, standard_outcome, repair.
  change (determine_engine (get_module w "orjson" true) "json")
    with (@Ok string "json").
  cbn [lift then_ app].
  change (str_in "json" ["json"; "legacy"]) with true.
  change ("json" =? "json") with true. cbv iota.
  fold (standard_kwargs w).
  destruct (clean_to_json_compatible (standard_kwargs w) o) as [c|e];
    [|reflexivity].
  unfold call, then_, ret, try_except, raise, outcome, bind.
  destruct (json_dumps c (dumps_opts_of pretty)) as [t|e]; [|reflexivity].
  fold (has_constant_text t).
  destruct (has_constant_text t); [|reflexivity]. cbn [negb].
  destruct (json_loads t (Some coerce_to_strict)) as [n|e].
  - destruct (json_dumps n (dumps_opts_of pretty)); reflexivity.
  - destruct (is_ValueError e); reflexivity.
Qed.

Lemma fast_engine_outcome (w : world) (config : JsonConfig) (o : obj)
    (pretty : bool) :
  outcome (_to_json_plotly w config o pretty (Some "orjson"))
  = fast_outcome w pretty o.
Proof.
  unfold fast_outcome.
  destruct (importable w "orjson") eqn:Hi.
  - rewrite (@fast_engine_unfold w config o pretty Hi).
    unfold validate_orjson. rewrite <- get_module_importable in Hi.
    destruct (get_module w "orjson" true); [|discriminate]. cbn [bind].
    destruct (orjson_dumps (unwrapped o) (fast_option pretty)) as [s|e];
      [reflexivity|].
    destruct (is_TypeError e); [|reflexivity].
    destruct (clean_to_json_compatible (fast_kwargs w) (unwrapped o));
      reflexivity.
  - rewrite <- get_module_importable in Hi.
    unfold _to_json_plotly, validate_orjson.
    destruct (get_module w "orjson" true); [discriminate|]. reflexivity.
Qed.




(** ** The scanner never runs out of fuel *)

Lemma skip_ws_length (s : string) :
  String.length (skip_ws s) <= String.length s.
Proof.
  induction s as [|c s IH]; simpl; [lia|].
  destruct (is_ws c); simpl; lia.
Qed.

Lemma scanstring_consumes_upto (n : nat) :
  forall s, String.length s <= n ->
            consumes (String dquote s) (scanstring s).
Proof.
  unfold consumes.
  induction n as [|n IH]; intros s Hn.
  - destruct s; [exact I|simpl in Hn; lia].
  - destruct s as [|c s]; [exact I|].
    simpl in Hn. simpl scanstring.
    destruct (Ascii.eqb c dquote); [simpl; lia|].
    destruct (Ascii.eqb c backslash).
    + destruct s as [|e s]; [exact I|].
      destruct (Ascii.eqb e "u").
      * destruct s as [|h1 [|h2 [|h3 [|h4 s]]]]; try exact I.
        destruct (decode_uXXXX h1 h2 h3 h4); [|exact I].
        destruct (_ <? 256)%N; [|exact I].
        specialize (IH s ltac:(simpl in Hn; lia)).
        destruct (scanstring s) as [[r rest]|err]; [simpl in *; lia|exact IH].
      * destruct (unescape e); [|exact I].
        specialize (IH s ltac:(simpl in Hn; lia)).
        destruct (scanstring s) as [[r rest]|err]; [simpl in *; lia|exact IH].
    + destruct (_ <? 32)%N; [exact I|].
      specialize (IH s ltac:(lia)).
      destruct (scanstring s) as [[r rest]|err]; [simpl in *; lia|exact IH].
Qed.

Lemma scanstring_consumes (s : string) :
  consumes (String dquote s) (scanstring s).
Proof. now apply scanstring_consumes_upto with (n := String.length s). Qed.

Lemma scan_digits_length (s : string) :
  String.length (snd (scan_digits s)) <= String.length s.
Proof.
  induction s as [|c s IH]; simpl; [lia|].
  destruct (digit_of c); simpl; [|lia].
  destruct (scan_digits s). simpl in *. lia.
Qed.

Lemma scan_integer_length (s : string) (d : Decimal.uint) (rest : string) :
  scan_integer s = Some (d, rest) -> String.length rest < String.length s.
Proof.
  unfold scan_integer. destruct s as [|c t]; [discriminate|].
  destruct (Ascii.eqb c "0").
  - intros H. injection H as <- <-. simpl. lia.
  - destruct (scan_digits (String c t)) as [d0 r0] eqn:E.
    simpl in E. destruct (digit_of c) as [u|].
    + pose proof (scan_digits_length t) as Hl.
      destruct (scan_digits t) as [ds r]. injection E as <- <-.
      simpl in Hl. intros H.
      assert (rest = r) by (destruct (u ds); congruence).
      subst. simpl. lia.
    + injection E as <- <-. discriminate.
Qed.

Lemma scan_frac_length (s : string) :
  String.length (snd (scan_frac s)) <= String.length s.
Proof.
  unfold scan_frac. destruct s as [|c t]; [simpl; lia|].
  destruct (Ascii.eqb c "."); [|simpl; lia].
  pose proof (scan_digits_length t) as Hl.
  destruct (scan_digits t) as [d r]. simpl in *.
  destruct d; simpl; lia.
Qed.

Lemma scan_exp_length (s : string) :
  String.length (snd (scan_exp s)) <= String.length s.
Proof.
  unfold scan_exp. destruct s as [|c t]; [simpl; lia|].
  destruct (Ascii.eqb c "e" || Ascii.eqb c "E"); [|simpl; lia].
  assert (Hsign : String.length
                    (snd (match t with
                          | String sg u =>
                              if Ascii.eqb sg "-" then (true, u)
                              else if Ascii.eqb sg "+" then (false, u)
                              else (false, t)
                          | EmptyString => (false, t)
                          end)) <= String.length t).
  { destruct t as [|sg u]; [simpl; lia|].
    destruct (Ascii.eqb sg "-"), (Ascii.eqb sg "+"); simpl; lia. }
  destruct (match t with
            | String sg u => _
            | EmptyString => _
            end) as [neg t'].
  simpl in Hsign.
  pose proof (scan_digits_length t') as Hl.
  destruct (scan_digits t') as [d r]. simpl in *.
  destruct d; simpl; lia.
Qed.

Lemma number_body_length (neg : bool) (s : string) (v : obj) (rest : string) :
  number_body neg s = Some (v, rest) -> String.length rest < String.length s.
Proof.
  unfold number_body.
  destruct (scan_integer s) as [[d s2]|] eqn:Hi; [|discriminate].
  apply scan_integer_length in Hi.
  pose proof (scan_frac_length s2) as Hf.
  destruct (scan_frac s2) as [frac s3].
  pose proof (scan_exp_length s3) as He.
  destruct (scan_exp s3) as [e s4]. simpl in *.
  intros H.
  assert (rest = s4) by (destruct frac, e; congruence).
  subst. lia.
Qed.

Lemma match_number_length (s : string) (v : obj) (rest : string) :
  match_number s = Some (v, rest) -> String.length rest < String.length s.
Proof.
  unfold match_number. destruct s as [|c t].
  - apply number_body_length.
  - destruct (Ascii.eqb c "-").
    + intros H. apply number_body_length in H. simpl. lia.
    + apply number_body_length.
Qed.

Lemma strip_prefix_length (lit s rest : string) :
  strip_prefix lit s = Some rest ->
  String.length rest + String.length lit = String.length s.
Proof.
  revert s. induction lit as [|a lit IH]; intros s; simpl.
  - intros H. injection H as <-. lia.
  - destruct s as [|b s]; [discriminate|].
    destruct (Ascii.eqb a b); [|discriminate].
    intros H. apply IH in H. simpl. lia.
Qed.

Section FuelAdequacy.

Variable pc : string -> result obj.
Hypothesis Hpc : forall const, decode_result (pc const).

Lemma scan_atom_consumes (s : string) : consumes s (scan_atom pc s).
Proof.
  unfold scan_atom, consumes.
  destruct (strip_prefix "null" s) as [r|] eqn:E1.
  { apply strip_prefix_length in E1. simpl in E1. lia. }
  destruct (strip_prefix "true" s) as [r|] eqn:E2.
  { apply strip_prefix_length in E2. simpl in E2. lia. }
  destruct (strip_prefix "false" s) as [r|] eqn:E3.
  { apply strip_prefix_length in E3. simpl in E3. lia. }
  destruct (match_number s) as [[v r]|] eqn:E4.
  { now apply match_number_length in E4. }
  destruct (strip_prefix "NaN" s) as [r|] eqn:E5.
  { apply strip_prefix_length in E5. simpl in E5.
    pose proof (Hpc "NaN") as H. destruct (pc "NaN") as [o|e]; simpl;
      [lia|exact H]. }
  destruct (strip_prefix "Infinity" s) as [r|] eqn:E6.
  { apply strip_prefix_length in E6. simpl in E6.
    pose proof (Hpc "Infinity") as H. destruct (pc "Infinity") as [o|e]; simpl;
      [lia|exact H]. }
  destruct (strip_prefix "-Infinity" s) as [r|] eqn:E7.
  { apply strip_prefix_length in E7. simpl in E7.
    pose proof (Hpc "-Infinity") as H.
    destruct (pc "-Infinity") as [o|e]; simpl; [lia|exact H]. }
  exact I.
Qed.

Lemma scan_once_eq (n : nat) (c : ascii) (t : string) :
  scan_once pc (S n) (String c t)
  = if Ascii.eqb c dquote then
      match scanstring t with
      | Ok (str, rest) => Ok (PStr str, rest)
      | Raise e => Raise e
      end
    else if Ascii.eqb c "{" then
      match skip_ws t with
      | String c' t' =>
          if Ascii.eqb c' "}" then Ok (PDict [], t')
          else if Ascii.eqb c' dquote then
            match object_loop pc n t' with
            | Ok (pairs, rest) => Ok (PDict (dict_of_pairs pairs), rest)
            | Raise e => Raise e
            end
          else decode_error "Expecting property name enclosed in double quotes"
      | EmptyString =>
          decode_error "Expecting property name enclosed in double quotes"
      end
    else if Ascii.eqb c "[" then
      match skip_ws t with
      | String c' t' =>
          if Ascii.eqb c' "]" then Ok (PList [], t')
          else
            match array_loop pc n (String c' t') with
            | Ok (values, rest) => Ok (PList values, rest)
            | Raise e => Raise e
            end
      | EmptyString => decode_error "Expecting value"
      end
    else scan_atom pc (String c t).
Proof. reflexivity. Qed.

Lemma array_loop_eq' (n : nat) (s : string) :
  array_loop pc (S n) s
  = match scan_once pc n s with
    | Raise e => Raise e
    | Ok (value, s1) =>
        match skip_ws s1 with
        | String c t =>
            if Ascii.eqb c "]" then Ok ([value], t)
            else if Ascii.eqb c "," then
              match array_loop pc n (skip_ws t) with
              | Ok (values, rest) => Ok (value :: values, rest)
              | Raise e => Raise e
              end
            else decode_error "Expecting ',' delimiter"
        | EmptyString => decode_error "Expecting ',' delimiter"
        end
    end.
Proof. reflexivity. Qed.

Lemma object_loop_eq' (n : nat) (s : string) :
  object_loop pc (S n) s
  = match scanstring s with
    | Raise e => Raise e
    | Ok (key, s1) =>
        match skip_ws s1 with
        | String c t =>
            if Ascii.eqb c ":" then
              match scan_once pc n (skip_ws t) with
              | Raise e => Raise e
              | Ok (value, s2) =>
                  match skip_ws s2 with
                  | String c' t' =>
                      if Ascii.eqb c' "}" then Ok ([(key, value)], t')
                      else if Ascii.eqb c' "," then
                        match skip_ws t' with
                        | String q u =>
                            if Ascii.eqb q dquote then
                              match object_loop pc n u with
                              | Ok (pairs, rest) =>
                                  Ok ((key, value) :: pairs, rest)
                              | Raise e => Raise e
                              end
                            else
                              decode_error
                                "Expecting property name enclosed in double quotes"
                        | EmptyString =>
                            decode_error
                              "Expecting property name enclosed in double quotes"
                        end
                      else decode_error "Expecting ',' delimiter"
                  | EmptyString => decode_error "Expecting ',' delimiter"
                  end
              end
            else decode_error "Expecting ':' delimiter"
        | EmptyString => decode_error "Expecting ':' delimiter"
        end
    end.
Proof. reflexivity. Qed.

Lemma scanner_consumes (n : nat) :
  (forall s, 2 * String.length s + 1 <= n -> consumes s (scan_once pc n s))
  /\ (forall s, 2 * String.length s + 2 <= n -> consumes s (array_loop pc n s))
  /\ (forall s, 2 * String.length s + 1 <= n ->
                consumes (String dquote s) (object_loop pc n s)).
Proof.
  induction n as [|n (IHscan & IHarray & IHobject)].
  { repeat split; intros s Hn; lia. }
  split; [|split]; intros s Hn.
  - (* scan_once *)
    destruct s as [|c t]; [exact I|].
    rewrite scan_once_eq. simpl in Hn.
    destruct (Ascii.eqb c dquote).
    { pose proof (scanstring_consumes t) as H. unfold consumes in *.
      destruct (scanstring t) as [[str rest]|e]; simpl in *; [lia|exact H]. }
    destruct (Ascii.eqb c "{").
    { pose proof (skip_ws_length t) as Hw.
      destruct (skip_ws t) as [|c' t']; [exact I|]. simpl in Hw.
      destruct (Ascii.eqb c' "}"); [simpl; lia|].
      destruct (Ascii.eqb c' dquote); [|exact I].
      specialize (IHobject t' ltac:(lia)). unfold consumes in *.
      destruct (object_loop pc n t') as [[pairs rest]|e];
        simpl in *; [lia|exact IHobject]. }
    destruct (Ascii.eqb c "[").
    { pose proof (skip_ws_length t) as Hw.
      destruct (skip_ws t) as [|c' t']; [exact I|]. simpl in Hw.
      destruct (Ascii.eqb c' "]"); [simpl; lia|].
      specialize (IHarray (String c' t') ltac:(simpl; lia)).
      unfold consumes in *.
      destruct (array_loop pc n (String c' t')) as [[values rest]|e];
        simpl in *; [lia|exact IHarray]. }
    apply scan_atom_consumes.
  - (* array_loop *)
    rewrite array_loop_eq'.
    specialize (IHscan s ltac:(lia)). unfold consumes in *.
    destruct (scan_once pc n s) as [[value s1]|e]; [|exact IHscan].
    pose proof (skip_ws_length s1) as Hw.
    destruct (skip_ws s1) as [|c t]; [exact I|]. simpl in Hw.
    destruct (Ascii.eqb c "]"); [lia|].
    destruct (Ascii.eqb c ","); [|exact I].
    pose proof (skip_ws_length t) as Hw'.
    specialize (IHarray (skip_ws t) ltac:(lia)). unfold consumes in *.
    destruct (array_loop pc n (skip_ws t)) as [[values rest]|e];
      [lia|exact IHarray].
  - (* object_loop *)
    rewrite object_loop_eq'.
    pose proof (scanstring_consumes s) as Hk. unfold consumes in *.
    destruct (scanstring s) as [[key s1]|e]; [|exact Hk]. simpl in Hk.
    pose proof (skip_ws_length s1) as Hw.
    destruct (skip_ws s1) as [|c t]; [exact I|]. simpl in Hw.
    destruct (Ascii.eqb c ":"); [|exact I].
    pose proof (skip_ws_length t) as Hw'.
    specialize (IHscan (skip_ws t) ltac:(lia)). unfold consumes in *.
    destruct (scan_once pc n (skip_ws t)) as [[value s2]|e]; [|exact IHscan].
    pose proof (skip_ws_length s2) as Hw2.
    destruct (skip_ws s2) as [|c' t']; [exact I|]. simpl in Hw2.
    destruct (Ascii.eqb c' "}"); [simpl; lia|].
    destruct (Ascii.eqb c' ","); [|exact I].
    pose proof (skip_ws_length t') as Hw3.
    destruct (skip_ws t') as [|q u]; [exact I|]. simpl in Hw3.
    destruct (Ascii.eqb q dquote); [|exact I].
    specialize (IHobject u ltac:(lia)). unfold consumes in *.
    destruct (object_loop pc n u) as [[pairs rest]|e];
      simpl in *; [lia|exact IHobject].
Qed.

(** [decode] returns a value or raises [JSONDecodeError]: its fuel is
    enough for every text. *)
Lemma decode_never_out_of_fuel (s : string) : decode_result (decode pc s).
Proof.
  unfold decode.
  pose proof (skip_ws_length s) as Hw.
  destruct (scanner_consumes (S (2 * String.length s))) as (Hscan & _ & _).
  specialize (Hscan (skip_ws s) ltac:(lia)). unfold consumes in Hscan.
  destruct (scan_once pc _ (skip_ws s)) as [[o rest]|e]; [|exact Hscan].
  destruct (skip_ws rest); exact I.
Qed.

End FuelAdequacy.

(** ** The canonicaliser never runs out of fuel *)

Lemma depth_in_list (l : list obj) (x : obj) :
  In x l -> depth x <= fold_right (fun x acc => Nat.max (depth x) acc) 0 l.
Proof.
  induction l as [|a l IH]; intros Hin; [now elim Hin|].
  cbn [fold_right]. destruct Hin as [->|Hin]; [lia|].
  specialize (IH Hin). lia.
Qed.

Lemma depth_in_dict (items : list (string * obj)) (k : string) (v : obj) :
  In (k, v) items ->
  depth v <= fold_right (fun kv acc => let '(_, v) := kv in
                                       Nat.max (depth v) acc) 0 items.
Proof.
  induction items as [|[k' v'] l IH]; intros Hin; [now elim Hin|].
  cbn [fold_right]. destruct Hin as [Heq|Hin].
  - injection Heq as -> ->. lia.
  - specialize (IH Hin). lia.
Qed.

Lemma depth_list_lt (l : list obj) (x : obj) :
  In x l -> depth x < depth (PList l) /\ depth x < depth (PTuple l).
Proof. intros Hin. pose proof (depth_in_list l x Hin). simpl. lia. Qed.

Lemma depth_dict_lt (items : list (string * obj)) (k : string) (v : obj) :
  In (k, v) items -> depth v < depth (PDict items).
Proof. intros Hin. pose proof (depth_in_dict items k v Hin). simpl. lia. Qed.

Lemma bind_in_fuel {A B : Type} (r : result A) (k : A -> result B) :
  in_fuel r -> (forall a, in_fuel (k a)) -> in_fuel (bind r k).
Proof. destruct r as [a|e]; simpl; auto. Qed.

Lemma mapM_in_fuel {A B : Type} (f : A -> result B) (l : list A) :
  (forall x, In x l -> in_fuel (f x)) -> in_fuel (mapM f l).
Proof.
  induction l as [|x l IH]; intros H; simpl; [exact I|].
  pose proof (H x (or_introl eq_refl)) as Hx.
  destruct (f x) as [y|e]; [|exact Hx].
  specialize (IH (fun x Hin => H x (or_intror Hin))).
  destruct (mapM f l); [exact I|exact IH].
Qed.

Lemma isoformat_all_in_fuel (l : list obj) : in_fuel (isoformat_all l).
Proof.
  apply mapM_in_fuel. intros x _. destruct (isoformat x); exact I.
Qed.

Lemma getitem_in_fuel {V : Type} (d : list (string * V)) (key : string) :
  in_fuel (getitem d key).
Proof.
  induction d as [|[k v] d IH]; simpl; [exact I|].
  destruct (String.eqb k key); [exact I|assumption].
Qed.

Section CleanFuel.

Variables (numpy_allowed datetime_allowed : bool).
Variables (sage_all np pd image : option pymodule).
Variable rec : obj -> result obj.

Lemma sage_block_in_fuel (o : obj) (k : obj -> result obj) :
  safe_upto o k -> in_fuel (sage_block sage_all o k).
Proof.
  intros Hk. unfold sage_block.
  destruct (is_some sage_all); [|now apply Hk].
  destruct o; try (now apply Hk).
  destruct in_RR; [exact I|]. destruct in_ZZ; [exact I|].
  now apply Hk.
Qed.

Lemma numpy_block_in_fuel (o : obj) (k : obj -> result obj) :
  safe_upto o k -> in_fuel (numpy_block numpy_allowed np o k).
Proof.
  intros Hk. unfold numpy_block.
  destruct (is_some np); [|now apply Hk].
  destruct o; try (now apply Hk); try exact I.
  destruct (numpy_allowed && numeric_kind kind); [exact I|].
  destruct kind; try exact I; apply Hk; simpl; lia.
Qed.

Lemma series_block_in_fuel (o : obj) (kind : dtype_kind) (values : obj)
    (dts : list obj) (k : obj -> result obj) :
  safe_upto o k ->
  in_fuel (series_block numpy_allowed datetime_allowed np o kind values dts k).
Proof.
  intros Hk. unfold series_block.
  destruct (numpy_allowed && numeric_kind kind).
  { destruct np; exact I. }
  destruct kind; try (now apply Hk).
  destruct (negb datetime_allowed); [|exact I].
  apply bind_in_fuel; [apply isoformat_all_in_fuel|intros; exact I].
Qed.

Lemma pandas_block_in_fuel (o : obj) (k : obj -> result obj) :
  safe_upto o k ->
  in_fuel (pandas_block numpy_allowed datetime_allowed np pd o k).
Proof.
  intros Hk. unfold pandas_block.
  destruct (is_some pd); [|now apply Hk].
  destruct o; try (now apply Hk); try exact I;
    now apply series_block_in_fuel.
Qed.

Lemma to_pydatetime_depth (o d : obj) :
  to_pydatetime o = Some d -> depth d <= depth o.
Proof.
  destruct o; try discriminate; simpl; intros H; injection H as <-; simpl; lia.
Qed.

Lemma datetime_block_in_fuel (o : obj) (k : obj -> result obj) :
  safe_upto o k -> in_fuel (datetime_block datetime_allowed o k).
Proof.
  intros Hk. unfold datetime_block.
  assert (Hd : depth (match to_pydatetime o with
                      | Some d => d
                      | None => o
                      end) <= depth o).
  { destruct (to_pydatetime o) eqn:E; [now apply to_pydatetime_depth|lia]. }
  destruct (negb datetime_allowed).
  - destruct (isoformat _); [exact I|now apply Hk].
  - destruct (is_datetime _); [exact I|now apply Hk].
Qed.

Lemma tail_block_in_fuel (o : obj) :
  (forall x, depth x < depth o -> in_fuel (rec x)) ->
  in_fuel (tail_block image rec o).
Proof.
  intros Hrec. unfold tail_block.
  destruct (tolist_of o); [exact I|].
  assert (Hlist : forall l, depth o = S (fold_right
                                           (fun x acc => Nat.max (depth x) acc)
                                           0 l) ->
                            in_fuel (l' <- mapM rec l ;; Ok (PList l'))).
  { intros l Hl. apply bind_in_fuel; [|intros; exact I].
    apply mapM_in_fuel. intros x Hin. apply Hrec.
    pose proof (depth_in_list l x Hin). lia. }
  destruct o; try exact I.
  - destruct l; [exact I|now apply Hlist].
  - destruct l; [exact I|now apply Hlist].
  - destruct (is_some image); exact I.
Qed.

End CleanFuel.

Lemma clean_unwrapped_in_fuel (rec : obj -> result obj) (kw : kwargs) (o : obj) :
  (forall x, depth x < depth o -> in_fuel (rec x)) ->
  in_fuel (clean_unwrapped rec kw o).
Proof.
  intros Hrec.
  assert (Hpipe :
            in_fuel
              (sage_all <- getitem (kwargs_get (kw_modules kw) []) "sage_all" ;;
               np <- getitem (kwargs_get (kw_modules kw) []) "np" ;;
               pd <- getitem (kwargs_get (kw_modules kw) []) "pd" ;;
               image <- getitem (kwargs_get (kw_modules kw) []) "image" ;;
               sage_block sage_all o (fun o =>
               numpy_block (kwargs_get (kw_numpy_allowed kw) false) np o (fun o =>
               pandas_block (kwargs_get (kw_numpy_allowed kw) false)
                            (kwargs_get (kw_datetime_allowed kw) false)
                            np pd o (fun o =>
               datetime_block (kwargs_get (kw_datetime_allowed kw) false) o
                              (fun o => tail_block image rec o)))))).
  { apply bind_in_fuel; [apply getitem_in_fuel|intros sage_all].
    apply bind_in_fuel; [apply getitem_in_fuel|intros np].
    apply bind_in_fuel; [apply getitem_in_fuel|intros pd].
    apply bind_in_fuel; [apply getitem_in_fuel|intros image].
    apply sage_block_in_fuel. intros o1 H1.
    apply numpy_block_in_fuel. intros o2 H2.
    apply pandas_block_in_fuel. intros o3 H3.
    apply datetime_block_in_fuel. intros o4 H4.
    apply tail_block_in_fuel. intros x Hx. apply Hrec. lia. }
  destruct o; try exact Hpipe.
  - cbn [clean_unwrapped]. apply bind_in_fuel; [|intros; exact I].
    apply mapM_in_fuel. intros x Hin. apply Hrec.
    pose proof (depth_in_list l x Hin). simpl. lia.
  - cbn [clean_unwrapped]. apply bind_in_fuel; [|intros; exact I].
    apply mapM_in_fuel. intros x Hin. apply Hrec.
    pose proof (depth_in_list l x Hin). simpl. lia.
  - cbn [clean_unwrapped]. apply bind_in_fuel; [|intros; exact I].
    apply mapM_in_fuel. intros [k v] Hin.
    apply bind_in_fuel; [|intros; exact I]. apply Hrec.
    pose proof (depth_in_dict items k v Hin). simpl. lia.
Qed.

Lemma clean_rec_in_fuel (kw : kwargs) (n : nat) :
  forall o, depth o < n -> in_fuel (clean_rec n kw o).
Proof.
  induction n as [|n IH]; intros o Hn; [lia|].
  cbn [clean_rec]. destruct (is_scalar o); [exact I|].
  apply clean_unwrapped_in_fuel. intros x Hx. apply IH.
  destruct o; simpl in *; lia.
Qed.

(** The canonicaliser returns or raises an exception of its own: the fuel
    it is given is enough for every item. *)
Lemma clean_never_out_of_fuel (kw : kwargs) (o : obj) :
  in_fuel (clean_to_json_compatible kw o).
Proof. apply clean_rec_in_fuel. lia. Qed.

(** ** Plain trees: the canonicaliser and the encoder accept them *)

Lemma mapM_ok_map {A B : Type} (f : A -> result B) (g : A -> B) (l : list A) :
  Forall (fun x => f x = Ok (g x)) l -> mapM f l = Ok (map g l).
Proof.
  induction 1 as [|x l H _ IH]; simpl; [reflexivity|now rewrite H, IH].
Qed.

Lemma clean_rec_plain (w : world) (numpy_allowed datetime_allowed : option bool)
    (o : obj) :
  plain o = true ->
  forall n, depth o < n ->
            clean_rec n (Kwargs numpy_allowed datetime_allowed
                                (Some (adapter_modules w))) o
            = Ok (listify o).
Proof.
  induction o as [o Ho|l IH|l IH|items IH] using obj_json_ind;
    intros Hp n Hn; (destruct n as [|n]; [lia|]).
  - destruct o; try discriminate; try reflexivity.
    unfold adapter_modules, get_module. cbn.
    destruct (loaded w "sage.all"), (loaded w "numpy"), (loaded w "pandas"),
      (loaded w "PIL.Image"), numpy_allowed as [[|]|],
      datetime_allowed as [[|]|]; reflexivity.
  - cbn [clean_rec is_scalar to_plotly_json clean_unwrapped plain listify] in *.
    rewrite (@mapM_ok_map _ _ _ listify l); [reflexivity|].
    rewrite forallb_forall in Hp. rewrite Forall_forall in *.
    intros x Hin. apply (IH x Hin (Hp x Hin)).
    pose proof (depth_list_lt l x Hin). lia.
  - cbn [clean_rec is_scalar to_plotly_json clean_unwrapped plain listify] in *.
    rewrite (@mapM_ok_map _ _ _ listify l); [reflexivity|].
    rewrite forallb_forall in Hp. rewrite Forall_forall in *.
    intros x Hin. apply (IH x Hin (Hp x Hin)).
    pose proof (depth_list_lt l x Hin). lia.
  - cbn [clean_rec is_scalar to_plotly_json clean_unwrapped plain listify] in *.
    rewrite (@mapM_ok_map _ _ _ (on_values listify) items); [reflexivity|].
    rewrite forallb_forall in Hp. rewrite Forall_forall in *.
    intros [k v] Hin. cbn [on_values].
    rewrite (IH (k, v) Hin (Hp (k, v) Hin)); [reflexivity|].
    pose proof (depth_dict_lt items k v Hin). cbn [snd]. lia.
Qed.

Lemma clean_plain (w : world) (numpy_allowed datetime_allowed : option bool)
    (o : obj) :
  plain o = true ->
  clean_to_json_compatible
    (Kwargs numpy_allowed datetime_allowed (Some (adapter_modules w))) o
  = Ok (listify o).
Proof. intros Hp. apply clean_rec_plain; [assumption|lia]. Qed.

Lemma listify_text (be : backend) (opts : dumps_opts) (o : obj) :
  forall level,
    iterencode be opts (listify o) level = iterencode be opts o level.
Proof.
  induction o as [o Ho|l IH|l IH|items IH] using obj_json_ind; intros level.
  - destruct o; try discriminate; reflexivity.
  - cbn [listify iterencode]. rewrite mapM_map.
    erewrite mapM_ext_Forall; [reflexivity|].
    rewrite Forall_forall in *. intros x Hin. apply (IH x Hin).
  - cbn [listify iterencode]. rewrite mapM_map.
    erewrite mapM_ext_Forall; [reflexivity|].
    rewrite Forall_forall in *. intros x Hin. apply (IH x Hin).
  - cbn [listify iterencode]. rewrite map_on_values_compose.
    erewrite map_on_values_ext; [reflexivity|].
    rewrite Forall_forall in *. intros kv Hin. apply (IH kv Hin).
Qed.

Lemma listify_wf (o : obj) : wf_obj (listify o) = wf_obj o.
Proof.
  induction o as [o Ho|l IH|l IH|items IH] using obj_json_ind.
  - destruct o; try discriminate; reflexivity.
  - cbn [listify wf_obj]. rewrite forallb_map'.
    induction IH as [|x l Hx _ IHl]; simpl; [reflexivity|now rewrite Hx, IHl].
  - cbn [listify wf_obj]. rewrite forallb_map'.
    induction IH as [|x l Hx _ IHl]; simpl; [reflexivity|now rewrite Hx, IHl].
  - cbn [listify wf_obj]. rewrite map_fst_on_values, forallb_on_values.
    f_equal.
    induction IH as [|[k v] l Hx _ IHl]; simpl in *; [reflexivity|].
    now rewrite Hx, IHl.
Qed.

Lemma listify_strict_form (o : obj) : strict_form (listify o) = strict_form o.
Proof.
  unfold strict_form.
  induction o as [o Ho|l IH|l IH|items IH] using obj_json_ind.
  - destruct o; try discriminate; reflexivity.
  - cbn [listify parsed_form]. rewrite map_map. f_equal.
    now apply map_ext_Forall'.
  - cbn [listify parsed_form]. rewrite map_map. f_equal.
    now apply map_ext_Forall'.
  - cbn [listify parsed_form]. rewrite map_on_values_compose.
    do 2 f_equal. now apply map_on_values_ext.
Qed.

Lemma plain_text_ok (opts : dumps_opts) (o : obj) :
  plain o = true ->
  forall level, exists t, iterencode json_backend opts o level = Ok t.
Proof.
  induction o as [o Ho|l IH|l IH|items IH] using obj_json_ind;
    intros Hp level.
  - destruct o; try discriminate; simpl; eauto.
    destruct b; eauto.
  - cbn [iterencode plain] in *.
    destruct (@mapM_ok_Forall _ _
                (fun x => iterencode json_backend opts x (S level)) l)
      as (ys & ->); [|simpl; eauto].
    rewrite forallb_forall in Hp. rewrite Forall_forall in *.
    intros x Hin. apply (IH x Hin (Hp x Hin)).
  - cbn [iterencode plain] in *.
    destruct (@mapM_ok_Forall _ _
                (fun x => iterencode json_backend opts x (S level)) l)
      as (ys & ->); [|simpl; eauto].
    rewrite forallb_forall in Hp. rewrite Forall_forall in *.
    intros x Hin. apply (IH x Hin (Hp x Hin)).
  - cbn [iterencode plain] in *.
    match goal with
    | |- exists t, (chunks <- mapM ?f ?l ;; _) = Ok t =>
        destruct (@mapM_ok_Forall _ _ f l) as (ys & ->); [|simpl; eauto]
    end.
    assert (Hall : Forall (fun kr : string * result string =>
                             exists y, (let '(k, r) := kr in
                                        s <- r ;;
                                        Ok (b_str json_backend k
                                            ++ key_separator opts ++ s))
                                       = Ok y)
                          (map (on_values
                                  (fun v => iterencode json_backend opts v
                                              (S level))) items)).
    { rewrite forallb_forall in Hp. rewrite Forall_forall in *.
      intros [k r] Hin. apply in_map_iff in Hin.
      destruct Hin as ([k' v] & Heq & Hin). simpl in Heq.
      injection Heq as <- <-.
      destruct (IH (k', v) Hin (Hp (k', v) Hin) (S level)) as (t & Ht).
      simpl in Ht. rewrite Ht. simpl. eauto. }
    destruct (sort_keys opts); [|exact Hall].
    eapply Permutation_Forall; [apply sorted_items_perm|exact Hall].
Qed.

(** ** The standard engine writes strict JSON *)

Lemma standard_engine_unfold (w : world) (config : JsonConfig) (o : obj)
    (pretty : bool) (c : obj) (t : string) :
  clean_to_json_compatible (standard_kwargs w) o = Ok c ->
  json_dumps c (dumps_opts_of pretty) = Ok t ->
  outcome (_to_json_plotly w config o pretty (Some "json"))
  = if has_constant_text t then
      match json_loads t (Some coerce_to_strict) with
      | Ok new_o =>
          s <- json_dumps new_o (dumps_opts_of pretty) ;; Ok (PStr s)
      | Raise e => if is_ValueError e then Raise strict_failed else Raise e
      end
    else Ok (PStr t).
Proof.
  intros Hc Ht. unfold _to_json_plotly.
  change (determine_engine (get_module w "orjson" true) "json")
    with (@Ok string "json").
  cbn [lift then_ app].
  change (str_in "json" ["json"; "legacy"]) with true.
  change ("json" =? "json") with true. cbv iota.
  fold (standard_kwargs w). rewrite Hc.
  unfold call, then_, ret, try_except, raise, outcome. rewrite Ht.
  fold (has_constant_text t).
  destruct (has_constant_text t); [|reflexivity]. cbn [negb].
  destruct (json_loads t (Some coerce_to_strict)) as [n|e].
  - destruct (json_dumps n (dumps_opts_of pretty)); reflexivity.
  - destruct (is_ValueError e); reflexivity.
Qed.

Lemma module_opts_of (pretty : bool) : module_opts (dumps_opts_of pretty).
Proof. now exists pretty. Qed.

(** C1: for the mapping with a NaN the standard engine returns the text
    with [null]; whenever the canonical form of the item is a well-formed
    value the encoder accepts, the engine returns the text of that value
    with [null] written for each non-finite float, a text in which the
    decoder finds no NaN or infinity token and which loads back as the value
    with [None] in their place; and for every well-formed tree of the JSON
    types the engine does return such a text. *)
Theorem standard_engine_strict_json :
  (forall w config,
      outcome (_to_json_plotly w config
                 (PDict [("a", PInt 1); ("b", PFloat FNaN)]) false
                 (Some "json"))
      = Ok (PStr ("{" ++ quoted "a" ++ ":1," ++ quoted "b" ++ ":null}")))
  /\ (forall w config o pretty c t,
        clean_to_json_compatible (standard_kwargs w) o = Ok c ->
        wf_obj c = true ->
        json_dumps c (dumps_opts_of pretty) = Ok t ->
        exists t',
          outcome (_to_json_plotly w config o pretty (Some "json"))
          = Ok (PStr t')
          /\ iterencode strict_backend (dumps_opts_of pretty) c 0 = Ok t'
          /\ json_loads t' None = Ok (strict_form c)
          /\ finite_tree (strict_form c) = true)
  /\ (forall w config o pretty,
        plain o = true ->
        wf_obj o = true ->
        exists t',
          outcome (_to_json_plotly w config o pretty (Some "json"))
          = Ok (PStr t')
          /\ iterencode strict_backend (dumps_opts_of pretty) o 0 = Ok t'
          /\ json_loads t' None = Ok (strict_form o)
          /\ finite_tree (strict_form o) = true).
Proof.
  assert (Hgen : forall w config o pretty c t,
             clean_to_json_compatible (standard_kwargs w) o = Ok c ->
             wf_obj c = true ->
             json_dumps c (dumps_opts_of pretty) = Ok t ->
             exists t',
               outcome (_to_json_plotly w config o pretty (Some "json"))
               = Ok (PStr t')
               /\ iterencode strict_backend (dumps_opts_of pretty) c 0 = Ok t'
               /\ json_loads t' None = Ok (strict_form c)
               /\ finite_tree (strict_form c) = true).
  { intros w config o pretty c t Hc Hwf Ht.
    pose proof (module_opts_of pretty) as Hopts.
    pose proof (module_opts_sort_keys Hopts) as Hsort.
    rewrite (@standard_engine_unfold w config o pretty c t Hc Ht).
    destruct (has_constant_text t) eqn:Htext.
    - (* the repair pass *)
      rewrite (@loads_dumps (Some coerce_to_strict) _ c t Hopts Hwf Ht).
      fold (strict_form c).
      destruct (@strict_text_ok _ Hsort c 0 t Ht) as (t' & Ht').
      assert (Hd : json_dumps (strict_form c) (dumps_opts_of pretty) = Ok t').
      { unfold json_dumps. now rewrite strict_form_text. }
      exists t'. rewrite Hd.
      repeat split; [assumption| |apply strict_form_finite].
      rewrite (@loads_dumps None _ (strict_form c) t' Hopts
                 (@strict_form_wf c Hwf) Hd).
      rewrite <- (@parsed_form_finite_hook coerce_to_strict true float_constant
                    (strict_form c) (strict_form_finite c)).
      f_equal. apply strict_form_idem.
    - (* nothing to repair *)
      assert (Hf : finite_tree c = true).
      { destruct (finite_tree c) eqn:E; [reflexivity|].
        unfold json_dumps in Ht.
        rewrite (@nonfinite_has_constant_text _ c 0 t Ht E) in Htext.
        discriminate. }
      exists t. repeat split; [|  |apply strict_form_finite].
      + rewrite (@strict_text_finite _ c 0 Hf). exact Ht.
      + rewrite (@loads_dumps None _ c t Hopts Hwf Ht). f_equal.
        unfold strict_form. now apply parsed_form_finite_hook. }
  split; [reflexivity|split; [exact Hgen|]].
  intros w config o pretty Hp Hwf.
  destruct (@plain_text_ok (dumps_opts_of pretty) o Hp 0) as (t & Ht).
  destruct (Hgen w config o pretty (listify o) t) as (t' & Hout & Htext & Hload & Hfin).
  - now apply clean_plain.
  - now rewrite listify_wf.
  - unfold json_dumps. now rewrite listify_text.
  - exists t'. rewrite listify_text, listify_strict_form in *. auto.
Qed.

(** ** Decoding: parse errors *)

Lemma json_loads_error (text : string) (hook : option (string -> obj)) (e : exn) :
  json_loads text hook = Raise e -> exists msg, e = JSONDecodeError msg.
Proof.
  unfold json_loads. intros H.
  pose proof (@decode_never_out_of_fuel
                (constant_hook (match hook with
                                | Some h => h
                                | None => float_constant
                                end))
                (fun _ => I) text) as Hd.
  rewrite H in Hd. destruct e; try contradiction. eauto.
Qed.

Lemma orjson_loads_error (value : obj) (e : exn) :
  is_text value = true ->
  orjson_loads value = Raise e -> exists msg, e = JSONDecodeError msg.
Proof.
  assert (Hd : forall s e,
             decode (fun _ => decode_error "unexpected character") s = Raise e ->
             exists msg, e = JSONDecodeError msg).
  { intros s e' H.
    pose proof (@decode_never_out_of_fuel
                  (fun _ => decode_error "unexpected character")
                  (fun _ => I) s) as Hr.
    rewrite H in Hr. destruct e'; try contradiction. eauto. }
  destruct value; try discriminate; intros _; simpl.
  - apply Hd.
  - destruct (utf8_decode s); [apply Hd|].
    intros H. injection H as <-. eauto.
Qed.

(** C7 (as the code has it): when the parser of the chosen engine raises on
    the text, decode raises that same exception, a [JSONDecodeError],
    unchanged and after that one call. *)
Theorem decode_propagates_parse_error :
  (forall w config value text engine e,
      engine = "json" \/ engine = "legacy" ->
      text_of value = Ok text ->
      json_loads text None = Raise e ->
      from_json_plotly w config value (Some engine)
      = ([CallJsonLoads text], Raise e)
      /\ exists msg, e = JSONDecodeError msg)
  /\ (forall w config value e,
        is_text value = true ->
        importable w "orjson" = true ->
        orjson_loads value = Raise e ->
        from_json_plotly w config value (Some "orjson")
        = ([CallOrjsonLoads value], Raise e)
        /\ exists msg, e = JSONDecodeError msg).
Proof.
  split.
  - intros w config value text engine e Heng Htext He.
    split; [|now apply json_loads_error in He].
    unfold from_json_plotly.
    destruct value; try discriminate; simpl in Htext;
      destruct Heng as [-> | ->]; cbn -[json_loads utf8_decode];
      unfold call, lift, then_; rewrite ?Htext;
      try (injection Htext as ->); cbn -[json_loads]; now rewrite He.
  - intros w config value e Hv Hi He.
    split; [|now apply orjson_loads_error in He].
    rewrite <- get_module_importable in Hi.
    unfold from_json_plotly, validate_orjson.
    destruct (get_module w "orjson" true); [|discriminate].
    destruct value; try discriminate; cbn -[orjson_loads]; unfold call;
      now rewrite He.
Qed.

Lemma decode_propagates_parse_error_witness :
  (from_json_plotly quiet JsonConfig_init (PStr "[[[") (Some "json")
   = ([CallJsonLoads "[[["], Raise (JSONDecodeError "Expecting value"))
   /\ exists msg, JSONDecodeError "Expecting value" = JSONDecodeError msg)
  /\ (from_json_plotly with_orjson JsonConfig_init (PBytes "NaN") (Some "orjson")
      = ([CallOrjsonLoads (PBytes "NaN")],
         Raise (JSONDecodeError "unexpected character"))
      /\ exists msg, JSONDecodeError "unexpected character"
                     = JSONDecodeError msg).
Proof.
  destruct decode_propagates_parse_error as (Hjson & Horjson).
  split.
  - apply (Hjson quiet JsonConfig_init (PStr "[[[") "[[[" "json");
      [now left | reflexivity | reflexivity].
  - apply Horjson; reflexivity.
Defined.

(** ** Witnesses *)

Lemma standard_engine_strict_json_witness :
  exists t',
    outcome (_to_json_plotly quiet JsonConfig_init sample_figure true
               (Some "json")) = Ok (PStr t')
    /\ iterencode strict_backend (dumps_opts_of true) sample_figure 0 = Ok t'
    /\ json_loads t' None = Ok (strict_form sample_figure)
    /\ finite_tree (strict_form sample_figure) = true.
Proof.
  apply (proj2 (proj2 standard_engine_strict_json) quiet JsonConfig_init
           sample_figure true).
  - reflexivity.
  - reflexivity.
Defined.

(** * Further properties of the module *)

(** ** Decoding: the guards and the input *)

(** The decoder once the engine is resolved: one call to the parser of the
    engine, after the package check or the decoding of bytes. *)
Lemma from_json_plotly_unfold (w : world) (config : JsonConfig) (value : obj)
    (engine : option string) (e' : string) :
  is_text value = true ->
  determine_engine (get_module w "orjson" true)
    (match engine with
     | None => default_engine config
     | Some e => e
     end) = Ok e' ->
  from_json_plotly w config value engine
  = if String.eqb e' "orjson" then
      match validate_orjson w with
      | Ok _ => ([CallOrjsonLoads value], orjson_loads value)
      | Raise e => ([], Raise e)
      end
    else
      match text_of value with
      | Ok text => ([CallJsonLoads text], json_loads text None)
      | Raise e => ([], Raise e)
      end.
Proof.
  intros Hv He. unfold from_json_plotly.
  destruct value; try discriminate; rewrite He;
    cbn -[json_loads orjson_loads utf8_decode validate_orjson String.eqb];
    destruct (String.eqb e' "orjson");
    cbn -[json_loads orjson_loads utf8_decode validate_orjson];
    try (destruct (validate_orjson w) as [[]|e]; reflexivity);
    try reflexivity.
  destruct (utf8_decode s); reflexivity.
Qed.

Lemma utf8_decode_error (b : string) (e : exn) :
  utf8_decode b = Raise e -> e = ValueError "UnicodeDecodeError".
Proof.
  assert (H : forall n b e, String.length b <= n ->
                            utf8_decode b = Raise e ->
                            e = ValueError "UnicodeDecodeError").
  { clear. induction n as [|n IH]; intros b e Hn.
    - destruct b; [discriminate|simpl in Hn; lia].
    - destruct b as [|c t]; [discriminate|]. simpl in Hn.
      cbn [utf8_decode].
      destruct (N_of_ascii c <? 128)%N.
      + specialize (IH t). destruct (utf8_decode t); [discriminate|].
        simpl. intros E. injection E as <-. apply IH; [lia|reflexivity].
      + destruct t as [|c2 t']; [intros E; now injection E as <-|].
        destruct (_ && _).
        * specialize (IH t'). destruct (utf8_decode t'); [discriminate|].
          simpl. intros E. injection E as <-. simpl in Hn.
          apply IH; [lia|reflexivity].
        * intros E. now injection E as <-. }
  apply (H (String.length b)). lia.
Qed.

Lemma determine_engine_error (orjson : option pymodule) (engine : string)
    (e : exn) :
  determine_engine orjson engine = Raise e -> e = invalid_engine engine.
Proof.
  unfold determine_engine.
  destruct (String.eqb engine "auto"); [destruct (is_some orjson); discriminate|].
  destruct (negb _); [|discriminate].
  intros H. now injection H as <-.
Qed.

Lemma from_json_plotly_engine_error (w : world) (config : JsonConfig)
    (value : obj) (engine : option string) (e : exn) :
  is_text value = true ->
  determine_engine (get_module w "orjson" true)
    (match engine with
     | None => default_engine config
     | Some e => e
     end) = Raise e ->
  from_json_plotly w config value engine = ([], Raise e).
Proof.
  intros Hv He. unfold from_json_plotly.
  destruct value; try discriminate; now rewrite He.
Qed.

(** X1: decode accepts text only.  A value that is neither a [str] nor
    [bytes] raises the [ValueError] of the input check, whatever the engine
    (also an unsupported one) and before any parser is called; a [str] or
    [bytes] value never raises that error. *)
Theorem from_json_plotly_accepts_text_only (w : world) (config : JsonConfig)
    (value : obj) (engine : option string) :
  (is_text value = false ->
   from_json_plotly w config value engine = ([], Raise invalid_input))
  /\ (is_text value = true ->
      outcome (from_json_plotly w config value engine) <> Raise invalid_input).
Proof.
  split.
  - destruct value; try discriminate; reflexivity.
  - intros Hv.
    destruct (determine_engine (get_module w "orjson" true)
                (match engine with
                 | None => default_engine config
                 | Some e => e
                 end)) as [e'|e] eqn:He.
    + rewrite (from_json_plotly_unfold w config value engine Hv He).
      destruct (String.eqb e' "orjson").
      * unfold validate_orjson.
        destruct (get_module w "orjson" true); [|discriminate].
        unfold outcome; cbn [snd]. intros H.
        apply orjson_loads_error in H; [|assumption].
        destruct H as [msg H]. discriminate.
      * destruct (text_of value) as [text|e] eqn:Ht.
        -- unfold outcome; cbn [snd]. intros H.
           apply json_loads_error in H. destruct H as [msg H]. discriminate.
        -- unfold outcome; cbn [snd].
           destruct value; try discriminate. simpl in Ht.
           apply utf8_decode_error in Ht. subst e. discriminate.
    + rewrite (from_json_plotly_engine_error w config value engine Hv He).
      apply determine_engine_error in He. subst e.
      unfold outcome, invalid_engine, invalid_input; cbn [snd]. discriminate.
Qed.

Lemma from_json_plotly_accepts_text_only_witness :
  from_json_plotly quiet JsonConfig_init (PList [PStr "{}"]) (Some "bogus")
  = ([], Raise invalid_input)
  /\ outcome (from_json_plotly quiet JsonConfig_init (PBytes "{}") (Some "bogus"))
     <> Raise invalid_input.
Proof.
  split.
  - apply (proj1 (from_json_plotly_accepts_text_only quiet JsonConfig_init
                    (PList [PStr "{}"]) (Some "bogus"))).
    reflexivity.
  - apply (proj2 (from_json_plotly_accepts_text_only quiet JsonConfig_init
                    (PBytes "{}") (Some "bogus"))).
    reflexivity.
Defined.

(** ** The fast engine and its package *)

(** X2: the fast engine, asked for by name or through the stored default,
    needs its package at the time of the call: when [orjson] cannot be
    imported, encode and decode raise the [ValueError] of
    [JsonConfig.validate_orjson] and call neither the canonicaliser nor a
    serialiser or parser. *)
Theorem orjson_engine_requires_package (w : world) (config : JsonConfig)
    (o : obj) (pretty : bool) (engine : option string) :
  importable w "orjson" = false ->
  match engine with
  | None => default_engine config
  | Some e => e
  end = "orjson" ->
  _to_json_plotly w config o pretty engine = ([], Raise orjson_missing)
  /\ (is_text o = true ->
      from_json_plotly w config o engine = ([], Raise orjson_missing)).
Proof.
  intros Hi He. rewrite <- get_module_importable in Hi.
  assert (Hm : get_module w "orjson" true = None).
  { destruct (get_module w "orjson" true); [discriminate|reflexivity]. }
  split.
  - unfold _to_json_plotly, validate_orjson. rewrite He, Hm. reflexivity.
  - intros Hv.
    rewrite (@from_json_plotly_unfold w config o engine "orjson" Hv);
      [|rewrite He, Hm; reflexivity].
    unfold validate_orjson. rewrite Hm. reflexivity.
Qed.

Lemma orjson_engine_requires_package_witness :
  _to_json_plotly quiet {| _default_engine := "orjson" |} (PDict []) false None
  = ([], Raise orjson_missing)
  /\ from_json_plotly quiet JsonConfig_init (PStr "{}") (Some "orjson")
     = ([], Raise orjson_missing).
Proof.
  split.
  - apply (orjson_engine_requires_package quiet {| _default_engine := "orjson" |}
             (PDict []) false None); reflexivity.
  - apply (proj2 (orjson_engine_requires_package quiet JsonConfig_init
                    (PStr "{}") false (Some "orjson") eq_refl eq_refl)).
    reflexivity.
Defined.

(** X3: [bytes] are read as the text they encode in UTF-8.  With every
    engine, named or taken from the stored default, decode returns or raises
    for a [bytes] value what it does for the [str] of its characters; the
    standard parser is called on that [str], not on the bytes. *)
Theorem decode_bytes_as_text (w : world) (config : JsonConfig) (b s : string)
    (engine : option string) :
  utf8_decode b = Ok s ->
  outcome (from_json_plotly w config (PBytes b) engine)
  = outcome (from_json_plotly w config (PStr s) engine)
  /\ from_json_plotly w config (PBytes b) (Some "json")
     = ([CallJsonLoads s], json_loads s None).
Proof.
  intros Hs. split.
  - destruct (determine_engine (get_module w "orjson" true)
                (match engine with
                 | None => default_engine config
                 | Some e => e
                 end)) as [e'|e] eqn:He.
    + rewrite (@from_json_plotly_unfold w config (PBytes b) engine e' eq_refl He).
      rewrite (@from_json_plotly_unfold w config (PStr s) engine e' eq_refl He).
      destruct (String.eqb e' "orjson").
      * destruct (validate_orjson w) as [[]|e]; [|reflexivity].
        unfold outcome; cbn [snd orjson_loads]. now rewrite Hs.
      * cbn [text_of]. now rewrite Hs.
    + rewrite (@from_json_plotly_engine_error w config (PBytes b) engine e
                 eq_refl He).
      now rewrite (@from_json_plotly_engine_error w config (PStr s) engine e
                     eq_refl He).
  - rewrite (@from_json_plotly_unfold w config (PBytes b) (Some "json") "json"
               eq_refl eq_refl).
    cbn [String.eqb Ascii.eqb Bool.eqb text_of]. now rewrite Hs.
Qed.

Lemma decode_bytes_as_text_witness :
  outcome (from_json_plotly with_orjson JsonConfig_init
             (PBytes (String "["
                        (String dquote
                           (String (ascii_of_N 195)
                              (String (ascii_of_N 169)
                                 (String dquote "]")))))) None)
  = outcome (from_json_plotly with_orjson JsonConfig_init
               (PStr (String "["
                        (String dquote
                           (String (ascii_of_N 233) (String dquote "]")))))
               None)
  /\ from_json_plotly with_orjson JsonConfig_init
       (PBytes (String "["
                  (String dquote
                     (String (ascii_of_N 195)
                        (String (ascii_of_N 169)
                           (String dquote "]")))))) (Some "json")
     = ([CallJsonLoads (String "["
                          (String dquote
                             (String (ascii_of_N 233) (String dquote "]"))))],
        json_loads (String "["
                      (String dquote
                         (String (ascii_of_N 233) (String dquote "]"))))
                   None).
Proof.
  apply (@decode_bytes_as_text with_orjson JsonConfig_init _ _ None).
  reflexivity.
Defined.

(** X4: for decoding, the legacy engine is the standard one.  With either
    name decode is one call of [json.loads], without a [parse_constant]
    hook, on the text of the value, in every world and whatever the stored
    default is; nothing of the canonicaliser or of a serialiser runs. *)
Theorem decode_legacy_is_json (w : world) (config : JsonConfig) (value : obj) :
  from_json_plotly w config value (Some "json")
  = match text_of value with
    | Ok text => ([CallJsonLoads text], json_loads text None)
    | Raise e => ([], Raise e)
    end
  /\ from_json_plotly w config value (Some "legacy")
     = from_json_plotly w config value (Some "json").
Proof.
  assert (H : forall value e,
             is_text value = true -> e = "json" \/ e = "legacy" ->
             from_json_plotly w config value (Some e)
             = match text_of value with
               | Ok text => ([CallJsonLoads text], json_loads text None)
               | Raise e => ([], Raise e)
               end).
  { intros v e Hv [-> | ->].
    - exact (@from_json_plotly_unfold w config v (Some "json") "json"
               Hv eq_refl).
    - exact (@from_json_plotly_unfold w config v (Some "legacy") "legacy"
               Hv eq_refl). }
  destruct (is_text value) eqn:Hv.
  - rewrite !H by auto. split; reflexivity.
  - destruct value; try discriminate; split; reflexivity.
Qed.

(** ** The parse_constant hook *)

Section HookAgreement.

Variables pc1 pc2 : string -> result obj.

Hypothesis agree : forall tok, In tok constant_tokens -> pc1 tok = pc2 tok.

Lemma scan_atom_agree (s : string) : scan_atom pc1 s = scan_atom pc2 s.
Proof.
  unfold scan_atom.
  rewrite (@agree "NaN"), (@agree "Infinity"), (@agree "-Infinity");
    [reflexivity|simpl; auto..].
Qed.

Lemma scanner_agree (n : nat) :
  (forall s, scan_once pc1 n s = scan_once pc2 n s)
  /\ (forall s, array_loop pc1 n s = array_loop pc2 n s)
  /\ (forall s, object_loop pc1 n s = object_loop pc2 n s).
Proof.
  induction n as [|n (IHscan & IHarr & IHobj)];
    [repeat split; reflexivity|].
  split; [|split]; intros s.
  - destruct s as [|c t]; [reflexivity|].
    rewrite !scan_once_eq, scan_atom_agree.
    destruct (skip_ws t) as [|c' t']; [reflexivity|].
    now rewrite IHobj, IHarr.
  - rewrite !array_loop_eq', IHscan.
    destruct (scan_once pc2 n s) as [[value s1]|e]; [|reflexivity].
    destruct (skip_ws s1) as [|c t]; [reflexivity|].
    now rewrite IHarr.
  - rewrite !object_loop_eq'.
    destruct (scanstring s) as [[key s1]|e]; [|reflexivity].
    destruct (skip_ws s1) as [|c t]; [reflexivity|].
    rewrite IHscan.
    destruct (scan_once pc2 n (skip_ws t)) as [[value s2]|e]; [|reflexivity].
    destruct (skip_ws s2) as [|c' t']; [reflexivity|].
    destruct (skip_ws t') as [|q u]; [reflexivity|].
    now rewrite IHobj.
Qed.

Lemma decode_agree (s : string) : decode pc1 s = decode pc2 s.
Proof. unfold decode. now rewrite (proj1 (scanner_agree _)). Qed.

End HookAgreement.

(** ** What the parsers return *)

Lemma scan_exp_digits (s : string) (neg : bool) (d : Decimal.uint)
    (rest : string) :
  scan_exp s = (Some (neg, d), rest) -> d <> Decimal.Nil.
Proof.
  unfold scan_exp. destruct s as [|c t]; [discriminate|].
  destruct (_ || _); [|discriminate].
  destruct (match t with
            | EmptyString => (false, t)
            | String sg u =>
                if Ascii.eqb sg "-" then (true, u)
                else if Ascii.eqb sg "+" then (false, u) else (false, t)
            end) as [neg' t'].
  destruct (scan_digits t') as [[] rest']; try discriminate;
    intros H; injection H as _ <- _; discriminate.
Qed.

Lemma number_body_atom (neg : bool) (s : string) (v : obj) (rest : string) :
  number_body neg s = Some (v, rest) -> decoded_atom v = true.
Proof.
  unfold number_body.
  destruct (scan_integer s) as [[d s2]|]; [|discriminate].
  destruct (scan_frac s2) as [frac s3].
  destruct (scan_exp s3) as [e s4] eqn:He.
  destruct e as [[eneg ed]|].
  - apply scan_exp_digits in He.
    destruct frac; intros H; injection H as <- _; cbn;
      destruct ed; congruence.
  - destruct frac; intros H; injection H as <- _; reflexivity.
Qed.

Lemma match_number_atom (s : string) (v : obj) (rest : string) :
  match_number s = Some (v, rest) -> decoded_atom v = true.
Proof.
  unfold match_number. destruct s as [|c t]; [apply number_body_atom|].
  destruct (Ascii.eqb c "-"); apply number_body_atom.
Qed.

Lemma dict_set_keys (d : list (string * obj)) (k : string) (v : obj) :
  map fst (dict_set d k v)
  = if str_in k (map fst d) then map fst d else (map fst d ++ [k])%list.
Proof.
  induction d as [|[k' v'] d IH]; [reflexivity|].
  cbn [dict_set map fst]. unfold str_in in *. cbn [existsb].
  rewrite (String.eqb_sym k k').
  destruct (String.eqb k' k) eqn:E; [reflexivity|].
  cbn [orb map fst]. rewrite IH.
  now destruct (existsb (String.eqb k) (map fst d)).
Qed.

Lemma distinct_snoc (l : list string) (k : string) :
  distinct l = true -> str_in k l = false -> distinct (l ++ [k]) = true.
Proof.
  intros Hd Hk. rewrite distinct_NoDup in *.
  apply NoDup_app; [assumption|repeat constructor; intros []|].
  intros x Hx [<-|[]]. apply str_in_In in Hx. congruence.
Qed.

Lemma dict_set_distinct (d : list (string * obj)) (k : string) (v : obj) :
  distinct (map fst d) = true -> distinct (map fst (dict_set d k v)) = true.
Proof.
  intros Hd. rewrite dict_set_keys.
  destruct (str_in k (map fst d)) eqn:E; [assumption|].
  now apply distinct_snoc.
Qed.

Lemma dict_set_forallb (P : obj -> bool) (d : list (string * obj)) (k : string)
    (v : obj) :
  forallb (fun kv => let '(_, x) := kv in P x) d = true ->
  P v = true ->
  forallb (fun kv => let '(_, x) := kv in P x) (dict_set d k v) = true.
Proof.
  intros Hd Hv. induction d as [|[k' v'] d IH]; simpl.
  - now rewrite Hv.
  - simpl in Hd. apply andb_prop in Hd. destruct Hd as [H1 H2].
    destruct (String.eqb k' k); simpl.
    + now rewrite Hv, H2.
    + now rewrite H1, IH.
Qed.

Lemma dict_of_pairs_invariant (P : obj -> bool) (pairs : list (string * obj)) :
  forallb (fun kv => let '(_, x) := kv in P x) pairs = true ->
  distinct (map fst (dict_of_pairs pairs)) = true
  /\ forallb (fun kv => let '(_, x) := kv in P x) (dict_of_pairs pairs) = true.
Proof.
  unfold dict_of_pairs.
  enough (H : forall acc,
             distinct (map fst acc) = true ->
             forallb (fun kv => let '(_, x) := kv in P x) acc = true ->
             forallb (fun kv => let '(_, x) := kv in P x) pairs = true ->
             let d := fold_left (fun d kv => dict_set d (fst kv) (snd kv))
                                pairs acc in
             distinct (map fst d) = true
             /\ forallb (fun kv => let '(_, x) := kv in P x) d = true)
    by (intros Hp; now apply (H [])).
  induction pairs as [|[k v] pairs IH]; intros acc Hd Ha Hp; simpl.
  - auto.
  - simpl in Hp. apply andb_prop in Hp. destruct Hp as [Hv Hp].
    apply IH; [now apply dict_set_distinct|now apply dict_set_forallb|assumption].
Qed.

Section ScannerInvariant.

Variable pc : string -> result obj.
Variable P : obj -> bool.

Hypothesis P_atom : forall o, decoded_atom o = true -> P o = true.
Hypothesis P_list : forall l, forallb P l = true -> P (PList l) = true.
Hypothesis P_dict :
  forall items,
    distinct (map fst items) = true ->
    forallb (fun kv => let '(_, x) := kv in P x) items = true ->
    P (PDict items) = true.
Hypothesis P_hook : forall tok r, pc tok = Ok r -> P r = true.

Lemma scan_atom_value (s : string) (v : obj) (rest : string) :
  scan_atom pc s = Ok (v, rest) -> P v = true.
Proof.
  unfold scan_atom.
  destruct (strip_prefix "null" s).
  { intros H. injection H as <- _. now apply P_atom. }
  destruct (strip_prefix "true" s).
  { intros H. injection H as <- _. now apply P_atom. }
  destruct (strip_prefix "false" s).
  { intros H. injection H as <- _. now apply P_atom. }
  destruct (match_number s) as [[v' r']|] eqn:Hn.
  { intros H. injection H as <- _. apply P_atom.
    now apply match_number_atom in Hn. }
  assert (Hh : forall tok rest',
             (o <- pc tok ;; Ok (o, rest')) = Ok (v, rest) -> P v = true).
  { intros tok rest'. destruct (pc tok) as [o|e] eqn:E; [|discriminate].
    simpl. intros H. injection H as <- _. exact (P_hook E). }
  destruct (strip_prefix "NaN" s); [apply Hh|].
  destruct (strip_prefix "Infinity" s); [apply Hh|].
  destruct (strip_prefix "-Infinity" s); [apply Hh|discriminate].
Qed.

Lemma scanner_value (n : nat) :
  (forall s v rest, scan_once pc n s = Ok (v, rest) -> P v = true)
  /\ (forall s l rest, array_loop pc n s = Ok (l, rest) -> forallb P l = true)
  /\ (forall s pairs rest,
         object_loop pc n s = Ok (pairs, rest) ->
         forallb (fun kv => let '(_, x) := kv in P x) pairs = true).
Proof.
  induction n as [|n (IHscan & IHarr & IHobj)];
    [repeat split; discriminate|].
  split; [|split].
  - intros s v rest. destruct s as [|c t]; [discriminate|].
    rewrite scan_once_eq.
    destruct (Ascii.eqb c dquote).
    { destruct (scanstring t) as [[str r]|]; [|discriminate].
      intros H. injection H as <- _. now apply P_atom. }
    destruct (Ascii.eqb c "{").
    { destruct (skip_ws t) as [|c' t']; [discriminate|].
      destruct (Ascii.eqb c' "}").
      { intros H. injection H as <- _. now apply P_dict. }
      destruct (Ascii.eqb c' dquote); [|discriminate].
      destruct (object_loop pc n t') as [[pairs r]|] eqn:Ho; [|discriminate].
      intros H. injection H as <- _.
      apply IHobj in Ho. apply (dict_of_pairs_invariant P) in Ho.
      now apply P_dict. }
    destruct (Ascii.eqb c "[").
    { destruct (skip_ws t) as [|c' t']; [discriminate|].
      destruct (Ascii.eqb c' "]").
      { intros H. injection H as <- _. now apply P_list. }
      destruct (array_loop pc n (String c' t')) as [[values r]|] eqn:Ha;
        [|discriminate].
      intros H. injection H as <- _. apply P_list. now apply IHarr in Ha. }
    apply scan_atom_value.
  - intros s l rest. rewrite array_loop_eq'.
    destruct (scan_once pc n s) as [[value s1]|] eqn:Hs; [|discriminate].
    apply IHscan in Hs.
    destruct (skip_ws s1) as [|c t]; [discriminate|].
    destruct (Ascii.eqb c "]").
    { intros H. injection H as <- _. simpl. now rewrite Hs. }
    destruct (Ascii.eqb c ","); [|discriminate].
    destruct (array_loop pc n (skip_ws t)) as [[values r]|] eqn:Ha;
      [|discriminate].
    intros H. injection H as <- _. simpl. rewrite Hs. now apply IHarr in Ha.
  - intros s pairs rest. rewrite object_loop_eq'.
    destruct (scanstring s) as [[key s1]|]; [|discriminate].
    destruct (skip_ws s1) as [|c t]; [discriminate|].
    destruct (Ascii.eqb c ":"); [|discriminate].
    destruct (scan_once pc n (skip_ws t)) as [[value s2]|] eqn:Hs;
      [|discriminate].
    apply IHscan in Hs.
    destruct (skip_ws s2) as [|c' t']; [discriminate|].
    destruct (Ascii.eqb c' "}").
    { intros H. injection H as <- _. simpl. now rewrite Hs. }
    destruct (Ascii.eqb c' ","); [|discriminate].
    destruct (skip_ws t') as [|q u]; [discriminate|].
    destruct (Ascii.eqb q dquote); [|discriminate].
    destruct (object_loop pc n u) as [[ps r]|] eqn:Ho; [|discriminate].
    intros H. injection H as <- _. simpl. rewrite Hs. now apply IHobj in Ho.
Qed.

Lemma decode_value (s : string) (v : obj) : decode pc s = Ok v -> P v = true.
Proof.
  unfold decode.
  destruct (scan_once pc _ (skip_ws s)) as [[o rest]|] eqn:Hs; [|discriminate].
  apply (proj1 (scanner_value _)) in Hs.
  destruct (skip_ws rest); [|discriminate].
  intros H. now injection H as <-.
Qed.

End ScannerInvariant.

(** X5: as a [parse_constant] hook, [coerce_to_strict] is the function that
    always returns [None].  The parser calls the hook with one of the three
    constant names only, so the branch that returns the argument is never
    taken: every text loads the same with either hook. *)
Theorem coerce_to_strict_as_hook (s : string) :
  json_loads s (Some coerce_to_strict) = json_loads s (Some (fun _ => PNone)).
Proof.
  unfold json_loads. apply decode_agree.
  intros tok Hin. unfold constant_hook, constant_tokens in *.
  simpl in Hin. destruct Hin as [<-|[<-|[<-|[]]]]; reflexivity.
Qed.

Lemma decode_finite (h : string -> obj) (s : string) (v : obj) :
  (forall tok, finite_tree (h tok) = true) ->
  decode (constant_hook h) s = Ok v -> finite_tree v = true.
Proof.
  intros Hh.
  apply (@decode_value (constant_hook h) finite_tree).
  - intros o Ho. destruct o; try discriminate; try reflexivity.
    now destruct f.
  - intros l Hl. exact Hl.
  - intros items _ Hi. exact Hi.
  - intros tok r H. unfold constant_hook in H. injection H as <-. apply Hh.
Qed.

Lemma decode_json_value (pc : string -> result obj) (s : string) (v : obj) :
  (forall tok r, pc tok = Ok r -> json_value r = true /\ wf_obj r = true) ->
  decode pc s = Ok v -> json_value v = true /\ wf_obj v = true.
Proof.
  intros Hpc Hd. split.
  - revert Hd. apply (@decode_value pc json_value).
    + intros o Ho. now destruct o.
    + intros l Hl. exact Hl.
    + intros items Hk Hi. simpl. now rewrite Hk, Hi.
    + intros tok r H. now apply Hpc in H.
  - revert Hd. apply (@decode_value pc wf_obj).
    + intros o Ho. destruct o; try discriminate; try reflexivity.
      now destruct f.
    + intros l Hl. exact Hl.
    + intros items Hk Hi. simpl. now rewrite Hk, Hi.
    + intros tok r H. now apply Hpc in H.
Qed.

Lemma json_loads_json_value (s : string) (hook : option (string -> obj))
    (v : obj) :
  (forall h tok, hook = Some h ->
                 json_value (h tok) = true /\ wf_obj (h tok) = true) ->
  json_loads s hook = Ok v -> json_value v = true /\ wf_obj v = true.
Proof.
  intros Hh. unfold json_loads. apply decode_json_value.
  intros tok r H. unfold constant_hook in H. injection H as <-.
  destruct hook as [h|]; [now apply (Hh h)|].
  unfold float_constant.
  destruct (String.eqb tok "NaN"); [now split|].
  destruct (String.eqb tok "Infinity"); now split.
Qed.

Lemma orjson_loads_json_value (value v : obj) :
  orjson_loads value = Ok v -> json_value v = true /\ wf_obj v = true.
Proof.
  assert (H : forall s, decode (fun _ => decode_error "unexpected character") s
                        = Ok v ->
                        json_value v = true /\ wf_obj v = true).
  { intros s. apply decode_json_value. discriminate. }
  destruct value; try discriminate; simpl.
  - apply H.
  - destruct (utf8_decode s); [apply H|discriminate].
Qed.

Lemma json_value_plain (o : obj) : json_value o = true -> plain o = true.
Proof.
  induction o as [o Ho|l IH|l IH|items IH] using obj_json_ind; intros H.
  - destruct o; try discriminate; reflexivity.
  - cbn [json_value plain] in *. rewrite forallb_forall in *.
    rewrite Forall_forall in IH. auto.
  - discriminate.
  - cbn [json_value plain] in *. apply andb_prop in H. destruct H as [_ H].
    rewrite forallb_forall in *. rewrite Forall_forall in IH.
    intros [k v] Hin. apply (IH (k, v) Hin). apply (H (k, v) Hin).
Qed.

(** X6: what decode returns.  With every engine a value decode returns is
    built from [None], booleans, integers, floats, strings, lists and dicts
    only: no tuple and none of the objects the canonicaliser deals with; the
    keys of each of its dicts are distinct, and each finite float comes from
    a literal with a fraction or an exponent. *)
Theorem decode_returns_json_values (w : world) (config : JsonConfig)
    (value : obj) (engine : option string) (v : obj) :
  outcome (from_json_plotly w config value engine) = Ok v ->
  json_value v = true /\ wf_obj v = true.
Proof.
  intros H.
  destruct (is_text value) eqn:Hv.
  2:{ destruct value; discriminate. }
  destruct (determine_engine (get_module w "orjson" true)
              (match engine with
               | None => default_engine config
               | Some e => e
               end)) as [e'|e] eqn:He.
  2:{ rewrite (from_json_plotly_engine_error w config value engine Hv He) in H.
      discriminate. }
  rewrite (from_json_plotly_unfold w config value engine Hv He) in H.
  destruct (String.eqb e' "orjson").
  - destruct (validate_orjson w); [|discriminate].
    now apply orjson_loads_json_value in H.
  - destruct (text_of value) as [text|]; [|discriminate].
    unfold outcome in H; cbn [snd] in H.
    apply json_loads_json_value in H; [assumption|discriminate].
Qed.

Lemma decode_returns_json_values_witness :
  json_value (PDict [("a", PInt 2); ("b", PList [PFloat FNaN])]) = true
  /\ wf_obj (PDict [("a", PInt 2); ("b", PList [PFloat FNaN])]) = true.
Proof.
  apply (@decode_returns_json_values quiet JsonConfig_init
           (PStr ("{" ++ quoted "a" ++ ": 1, " ++ quoted "b" ++ ": [NaN], "
                 ++ quoted "a" ++ ": 2}")) None).
  reflexivity.
Defined.

(** ** Texts without the two substrings *)

Lemma suffix_trans (a b c : string) : suffix a b -> suffix b c -> suffix a c.
Proof.
  intros Hab Hbc. induction Hbc; [assumption|].
  now apply suffix_next.
Qed.

Lemma suffix_tail (r : string) (c : ascii) (s : string) :
  suffix (String c r) s -> suffix r s.
Proof.
  intros H. apply (suffix_trans (b := String c r)); [|assumption].
  apply suffix_next, suffix_here.
Qed.

Lemma skip_ws_suffix (s : string) : suffix (skip_ws s) s.
Proof.
  induction s as [|c s IH]; simpl; [apply suffix_here|].
  destruct (is_ws c); [now apply suffix_next|apply suffix_here].
Qed.

Lemma scanstring_suffix_upto (n : nat) :
  forall s r rest, String.length s <= n ->
                   scanstring s = Ok (r, rest) -> suffix rest s.
Proof.
  induction n as [|n IH]; intros s r rest Hn.
  - destruct s; [discriminate|simpl in Hn; lia].
  - destruct s as [|c s]; [discriminate|].
    simpl in Hn. simpl scanstring.
    destruct (Ascii.eqb c dquote).
    { intros H. injection H as _ <-. apply suffix_next, suffix_here. }
    destruct (Ascii.eqb c backslash).
    + destruct s as [|e s]; [discriminate|].
      destruct (Ascii.eqb e "u").
      * destruct s as [|h1 [|h2 [|h3 [|h4 s]]]]; try discriminate.
        destruct (decode_uXXXX h1 h2 h3 h4); [|discriminate].
        destruct (_ <? 256)%N; [|discriminate].
        specialize (IH s). simpl in Hn.
        destruct (scanstring s) as [[r' rest']|]; [|discriminate].
        intros H. injection H as _ <-.
        do 6 apply suffix_next. apply (IH r' rest'); [lia|reflexivity].
      * destruct (unescape e); [|discriminate].
        specialize (IH s). simpl in Hn.
        destruct (scanstring s) as [[r' rest']|]; [|discriminate].
        intros H. injection H as _ <-.
        do 2 apply suffix_next. apply (IH r' rest'); [lia|reflexivity].
    + destruct (_ <? 32)%N; [discriminate|].
      specialize (IH s).
      destruct (scanstring s) as [[r' rest']|]; [|discriminate].
      intros H. injection H as _ <-.
      apply suffix_next. apply (IH r' rest'); [lia|reflexivity].
Qed.

Lemma scanstring_suffix (s r rest : string) :
  scanstring s = Ok (r, rest) -> suffix rest s.
Proof. now apply scanstring_suffix_upto with (n := String.length s). Qed.

Lemma scan_digits_suffix (s : string) : suffix (snd (scan_digits s)) s.
Proof.
  induction s as [|c s IH]; simpl; [apply suffix_here|].
  destruct (digit_of c); simpl; [|apply suffix_here].
  destruct (scan_digits s). simpl in *. now apply suffix_next.
Qed.

Lemma scan_integer_suffix (s : string) (d : Decimal.uint) (rest : string) :
  scan_integer s = Some (d, rest) -> suffix rest s.
Proof.
  unfold scan_integer. destruct s as [|c t]; [discriminate|].
  destruct (Ascii.eqb c "0").
  - intros H. injection H as _ <-. apply suffix_next, suffix_here.
  - pose proof (scan_digits_suffix (String c t)) as Hs.
    destruct (scan_digits (String c t)) as [d0 r0]. simpl in Hs.
    destruct d0; try discriminate; intros H; now injection H as _ <-.
Qed.

Lemma scan_frac_suffix (s : string) : suffix (snd (scan_frac s)) s.
Proof.
  unfold scan_frac. destruct s as [|c t]; [apply suffix_here|].
  destruct (Ascii.eqb c "."); [|apply suffix_here].
  pose proof (scan_digits_suffix t) as Hs.
  destruct (scan_digits t) as [d r]. simpl in *.
  destruct d; simpl; try apply suffix_here; now apply suffix_next.
Qed.

Lemma scan_exp_suffix (s : string) : suffix (snd (scan_exp s)) s.
Proof.
  unfold scan_exp. destruct s as [|c t]; [apply suffix_here|].
  destruct (Ascii.eqb c "e" || Ascii.eqb c "E"); [|apply suffix_here].
  assert (Hsign : suffix
                    (snd (match t with
                          | String sg u =>
                              if Ascii.eqb sg "-" then (true, u)
                              else if Ascii.eqb sg "+" then (false, u)
                              else (false, t)
                          | EmptyString => (false, t)
                          end)) t).
  { destruct t as [|sg u]; [apply suffix_here|].
    destruct (Ascii.eqb sg "-"), (Ascii.eqb sg "+"); simpl;
      try apply suffix_here; apply suffix_next, suffix_here. }
  destruct (match t with
            | String sg u => _
            | EmptyString => _
            end) as [neg t'].
  simpl in Hsign.
  pose proof (scan_digits_suffix t') as Hs.
  destruct (scan_digits t') as [d r]. simpl in *.
  destruct d; simpl; try apply suffix_here;
    apply suffix_next; apply (suffix_trans Hs Hsign).
Qed.

Lemma number_body_suffix (neg : bool) (s : string) (v : obj) (rest : string) :
  number_body neg s = Some (v, rest) -> suffix rest s.
Proof.
  unfold number_body.
  destruct (scan_integer s) as [[d s2]|] eqn:Hi; [|discriminate].
  apply scan_integer_suffix in Hi.
  pose proof (scan_frac_suffix s2) as Hf.
  destruct (scan_frac s2) as [frac s3].
  pose proof (scan_exp_suffix s3) as He.
  destruct (scan_exp s3) as [e s4]. simpl in *.
  intros H.
  assert (rest = s4) by (destruct frac, e; congruence).
  subst. apply (suffix_trans He). apply (suffix_trans Hf Hi).
Qed.

Lemma match_number_suffix (s : string) (v : obj) (rest : string) :
  match_number s = Some (v, rest) -> suffix rest s.
Proof.
  unfold match_number. destruct s as [|c t].
  - apply number_body_suffix.
  - destruct (Ascii.eqb c "-").
    + intros H. apply number_body_suffix in H. now apply suffix_next.
    + apply number_body_suffix.
Qed.

Lemma strip_prefix_suffix (lit s rest : string) :
  strip_prefix lit s = Some rest -> suffix rest s.
Proof.
  revert s. induction lit as [|a lit IH]; intros s; simpl.
  - intros H. injection H as <-. apply suffix_here.
  - destruct s as [|b s]; [discriminate|].
    destruct (Ascii.eqb a b); [|discriminate].
    intros H. apply IH in H. now apply suffix_next.
Qed.

Lemma strip_prefix_prefix (lit s rest : string) :
  strip_prefix lit s = Some rest -> String.prefix lit s = true.
Proof.
  revert s. induction lit as [|a lit IH]; intros s; simpl.
  - now destruct s.
  - destruct s as [|b s]; [discriminate|].
    destruct (Ascii.eqb a b) eqn:E; [|discriminate].
    apply Ascii.eqb_eq in E. subst b.
    intros H. apply IH in H.
    cbn [String.prefix].
    destruct (ascii_dec a a); [assumption|congruence].
Qed.

Lemma quiet_tail (c : ascii) (s : string) :
  has_constant_text (String c s) = false -> has_constant_text s = false.
Proof.
  unfold has_constant_text. intros H. apply orb_false_elim in H.
  destruct H as [H1 H2]. cbn [str_contains] in H1, H2.
  apply orb_false_elim in H1. apply orb_false_elim in H2.
  destruct H1 as [_ ->], H2 as [_ ->]. reflexivity.
Qed.

Lemma quiet_suffix (r s : string) :
  suffix r s -> has_constant_text s = false -> has_constant_text r = false.
Proof.
  induction 1 as [|c s _ IH]; [auto|].
  intros H. apply IH. now apply quiet_tail in H.
Qed.

Lemma str_contains_prefix (needle hay : string) :
  String.prefix needle hay = true -> str_contains needle hay = true.
Proof. intros H. destruct hay; cbn [str_contains]; now rewrite H. Qed.

Lemma quiet_no_constant (lit s : string) :
  has_constant_text s = false ->
  In lit constant_tokens -> strip_prefix lit s = None.
Proof.
  intros Hq Hin. destruct (strip_prefix lit s) as [rest|] eqn:E; [|reflexivity].
  apply strip_prefix_prefix in E.
  unfold has_constant_text in Hq. apply orb_false_elim in Hq.
  destruct Hq as [Hn Hi].
  simpl in Hin. destruct Hin as [<-|[<-|[<-|[]]]].
  - apply str_contains_prefix in E. congruence.
  - apply str_contains_prefix in E. congruence.
  - destruct s as [|c s]; [discriminate|].
    cbn [String.prefix] in E. destruct (ascii_dec "-" c); [|discriminate].
    apply str_contains_prefix in E.
    cbn [str_contains] in Hi. apply orb_false_elim in Hi.
    destruct Hi as [_ Hi]. congruence.
Qed.

Section ScannerSuffix.

Variable pc : string -> result obj.

Lemma scan_atom_suffix (s : string) (v : obj) (rest : string) :
  scan_atom pc s = Ok (v, rest) -> suffix rest s.
Proof.
  unfold scan_atom.
  destruct (strip_prefix "null" s) eqn:E1.
  { intros H. injection H as _ <-. now apply strip_prefix_suffix in E1. }
  destruct (strip_prefix "true" s) eqn:E2.
  { intros H. injection H as _ <-. now apply strip_prefix_suffix in E2. }
  destruct (strip_prefix "false" s) eqn:E3.
  { intros H. injection H as _ <-. now apply strip_prefix_suffix in E3. }
  destruct (match_number s) as [[v' r']|] eqn:Hn.
  { intros H. injection H as _ <-. now apply match_number_suffix in Hn. }
  assert (Hh : forall tok rest',
             suffix rest' s ->
             (o <- pc tok ;; Ok (o, rest')) = Ok (v, rest) -> suffix rest s).
  { intros tok rest' Hs. destruct (pc tok); [|discriminate].
    simpl. intros H. now injection H as _ <-. }
  destruct (strip_prefix "NaN" s) eqn:E4.
  { apply Hh. now apply strip_prefix_suffix in E4. }
  destruct (strip_prefix "Infinity" s) eqn:E5.
  { apply Hh. now apply strip_prefix_suffix in E5. }
  destruct (strip_prefix "-Infinity" s) eqn:E6; [|discriminate].
  apply Hh. now apply strip_prefix_suffix in E6.
Qed.

Lemma scanner_suffix (n : nat) :
  (forall s v rest, scan_once pc n s = Ok (v, rest) -> suffix rest s)
  /\ (forall s l rest, array_loop pc n s = Ok (l, rest) -> suffix rest s)
  /\ (forall s pairs rest,
         object_loop pc n s = Ok (pairs, rest) -> suffix rest s).
Proof.
  induction n as [|n (IHscan & IHarr & IHobj)];
    [repeat split; discriminate|].
  split; [|split].
  - intros s v rest. destruct s as [|c t]; [discriminate|].
    rewrite scan_once_eq.
    destruct (Ascii.eqb c dquote).
    { destruct (scanstring t) as [[str r]|] eqn:E; [|discriminate].
      intros H. injection H as _ <-.
      apply suffix_next. now apply scanstring_suffix in E. }
    destruct (Ascii.eqb c "{").
    { pose proof (skip_ws_suffix t) as Hw.
      destruct (skip_ws t) as [|c' t']; [discriminate|].
      destruct (Ascii.eqb c' "}").
      { intros H. injection H as _ <-.
        apply suffix_next. now apply suffix_tail in Hw. }
      destruct (Ascii.eqb c' dquote); [|discriminate].
      destruct (object_loop pc n t') as [[pairs r]|] eqn:Ho; [|discriminate].
      intros H. injection H as _ <-. apply IHobj in Ho.
      apply suffix_next. apply (suffix_trans Ho). now apply suffix_tail in Hw. }
    destruct (Ascii.eqb c "[").
    { pose proof (skip_ws_suffix t) as Hw.
      destruct (skip_ws t) as [|c' t']; [discriminate|].
      destruct (Ascii.eqb c' "]").
      { intros H. injection H as _ <-.
        apply suffix_next. now apply suffix_tail in Hw. }
      destruct (array_loop pc n (String c' t')) as [[values r]|] eqn:Ha;
        [|discriminate].
      intros H. injection H as _ <-. apply IHarr in Ha.
      apply suffix_next. apply (suffix_trans Ha Hw). }
    apply scan_atom_suffix.
  - intros s l rest. rewrite array_loop_eq'.
    destruct (scan_once pc n s) as [[value s1]|] eqn:Hs; [|discriminate].
    apply IHscan in Hs.
    pose proof (skip_ws_suffix s1) as Hw.
    destruct (skip_ws s1) as [|c t]; [discriminate|].
    apply suffix_tail in Hw.
    destruct (Ascii.eqb c "]").
    { intros H. injection H as _ <-. apply (suffix_trans Hw Hs). }
    destruct (Ascii.eqb c ","); [|discriminate].
    destruct (array_loop pc n (skip_ws t)) as [[values r]|] eqn:Ha;
      [|discriminate].
    intros H. injection H as _ <-. apply IHarr in Ha.
    apply (suffix_trans Ha). apply (suffix_trans (skip_ws_suffix t)).
    apply (suffix_trans Hw Hs).
  - intros s pairs rest. rewrite object_loop_eq'.
    destruct (scanstring s) as [[key s1]|] eqn:Hk; [|discriminate].
    apply scanstring_suffix in Hk.
    pose proof (skip_ws_suffix s1) as Hw.
    destruct (skip_ws s1) as [|c t]; [discriminate|].
    apply suffix_tail in Hw.
    destruct (Ascii.eqb c ":"); [|discriminate].
    destruct (scan_once pc n (skip_ws t)) as [[value s2]|] eqn:Hs;
      [|discriminate].
    apply IHscan in Hs.
    assert (H2 : suffix s2 s).
    { apply (suffix_trans Hs). apply (suffix_trans (skip_ws_suffix t)).
      apply (suffix_trans Hw Hk). }
    pose proof (skip_ws_suffix s2) as Hw2.
    destruct (skip_ws s2) as [|c' t']; [discriminate|].
    apply suffix_tail in Hw2.
    destruct (Ascii.eqb c' "}").
    { intros H. injection H as _ <-. apply (suffix_trans Hw2 H2). }
    destruct (Ascii.eqb c' ","); [|discriminate].
    pose proof (skip_ws_suffix t') as Hw3.
    destruct (skip_ws t') as [|q u]; [discriminate|].
    apply suffix_tail in Hw3.
    destruct (Ascii.eqb q dquote); [|discriminate].
    destruct (object_loop pc n u) as [[ps r]|] eqn:Ho; [|discriminate].
    intros H. injection H as _ <-. apply IHobj in Ho.
    apply (suffix_trans Ho). apply (suffix_trans Hw3).
    apply (suffix_trans Hw2 H2).
Qed.

End ScannerSuffix.

Section QuietText.

Variables pc1 pc2 : string -> result obj.

Lemma scan_atom_quiet (s : string) :
  has_constant_text s = false -> scan_atom pc1 s = scan_atom pc2 s.
Proof.
  intros Hq. unfold scan_atom.
  rewrite (@quiet_no_constant "NaN" s Hq), (@quiet_no_constant "Infinity" s Hq),
    (@quiet_no_constant "-Infinity" s Hq); [reflexivity|simpl; auto..].
Qed.

Lemma scanner_quiet (n : nat) :
  (forall s, has_constant_text s = false ->
             scan_once pc1 n s = scan_once pc2 n s)
  /\ (forall s, has_constant_text s = false ->
                array_loop pc1 n s = array_loop pc2 n s)
  /\ (forall s, has_constant_text s = false ->
                object_loop pc1 n s = object_loop pc2 n s).
Proof.
  induction n as [|n (IHscan & IHarr & IHobj)];
    [repeat split; reflexivity|].
  split; [|split]; intros s Hq.
  - destruct s as [|c t]; [reflexivity|].
    rewrite !scan_once_eq, (@scan_atom_quiet _ Hq).
    pose proof (skip_ws_suffix t) as Hw.
    apply quiet_tail in Hq.
    destruct (skip_ws t) as [|c' t']; [reflexivity|].
    pose proof (@quiet_suffix _ _ Hw Hq) as Hq'.
    rewrite (IHarr _ Hq'), (IHobj t' (@quiet_tail _ _ Hq')). reflexivity.
  - rewrite !array_loop_eq', (IHscan s Hq).
    destruct (scan_once pc2 n s) as [[value s1]|e] eqn:Hs; [|reflexivity].
    apply (proj1 (scanner_suffix pc2 n)) in Hs.
    pose proof (skip_ws_suffix s1) as Hw.
    destruct (skip_ws s1) as [|c t]; [reflexivity|].
    apply suffix_tail in Hw.
    rewrite IHarr; [reflexivity|].
    apply (@quiet_suffix _ _ (suffix_trans (skip_ws_suffix t)
                                (suffix_trans Hw Hs)) Hq).
  - rewrite !object_loop_eq'.
    destruct (scanstring s) as [[key s1]|e] eqn:Hk; [|reflexivity].
    apply scanstring_suffix in Hk.
    pose proof (skip_ws_suffix s1) as Hw.
    destruct (skip_ws s1) as [|c t]; [reflexivity|].
    apply suffix_tail in Hw.
    assert (Ht : suffix (skip_ws t) s).
    { apply (suffix_trans (skip_ws_suffix t)). apply (suffix_trans Hw Hk). }
    rewrite (IHscan _ (@quiet_suffix _ _ Ht Hq)).
    destruct (scan_once pc2 n (skip_ws t)) as [[value s2]|e] eqn:Hs;
      [|reflexivity].
    apply (proj1 (scanner_suffix pc2 n)) in Hs.
    pose proof (skip_ws_suffix s2) as Hw2.
    destruct (skip_ws s2) as [|c' t']; [reflexivity|].
    apply suffix_tail in Hw2.
    pose proof (skip_ws_suffix t') as Hw3.
    destruct (skip_ws t') as [|q u]; [reflexivity|].
    apply suffix_tail in Hw3.
    rewrite IHobj; [reflexivity|].
    apply (@quiet_suffix _ _ (suffix_trans Hw3
                                (suffix_trans Hw2 (suffix_trans Hs Ht))) Hq).
Qed.

Lemma decode_quiet (s : string) :
  has_constant_text s = false -> decode pc1 s = decode pc2 s.
Proof.
  intros Hq. unfold decode.
  now rewrite (proj1 (scanner_quiet _) _
                 (@quiet_suffix _ _ (skip_ws_suffix s) Hq)).
Qed.

End QuietText.

Lemma json_loads_quiet (t : string) (hook : option (string -> obj)) :
  has_constant_text t = false -> json_loads t hook = json_loads t None.
Proof. intros Hq. unfold json_loads. now apply decode_quiet. Qed.

(** X7: the test of the standard engine is sound.  A text in which neither
    [NaN] nor [Infinity] occurs as a substring holds no constant token: the
    parser never calls [parse_constant] on it, so it loads the same, or
    fails the same, whatever the hook.  The text the engine returns without
    the repair pass is therefore one the repair pass would read as
    [json.loads] alone does. *)
Theorem substring_test_sound (t : string) (hook : option (string -> obj)) :
  has_constant_text t = false ->
  json_loads t hook = json_loads t None
  /\ json_loads t hook = json_loads t (Some coerce_to_strict).
Proof.
  intros Hq. unfold json_loads.
  split; now apply decode_quiet.
Qed.

Lemma substring_test_sound_witness :
  json_loads ("{" ++ quoted "nan" ++ ": [1e5, null]}") (Some (fun _ => PInt 0))
  = json_loads ("{" ++ quoted "nan" ++ ": [1e5, null]}") None
  /\ json_loads ("{" ++ quoted "nan" ++ ": [1e5, null]}")
       (Some (fun _ => PInt 0))
     = json_loads ("{" ++ quoted "nan" ++ ": [1e5, null]}")
         (Some coerce_to_strict).
Proof.
  apply (@substring_test_sound ("{" ++ quoted "nan" ++ ": [1e5, null]}")).
  reflexivity.
Defined.

Lemma repaired_text_strict (pretty : bool) (t t' : string) :
  repair pretty t = Ok (PStr t') ->
  (forall hook, json_loads t' hook = json_loads t' None)
  /\ (forall v, json_loads t' None = Ok v -> finite_tree v = true).
Proof.
  unfold repair. destruct (has_constant_text t) eqn:Hq.
  2:{ intros H. injection H as <-.
      split; [intros hook; now apply json_loads_quiet|].
      intros v. rewrite <- (@json_loads_quiet t (Some coerce_to_strict) Hq).
      unfold json_loads. apply decode_finite.
      intros tok. unfold coerce_to_strict.
      destruct (str_in tok _); reflexivity. }
  destruct (json_loads t (Some coerce_to_strict)) as [new_o|e] eqn:Hl.
  2:{ destruct (is_ValueError e); discriminate. }
  destruct (json_dumps new_o (dumps_opts_of pretty)) as [s|] eqn:Hd;
    [|discriminate].
  simpl. intros H. injection H as <-.
  assert (Hfin : finite_tree new_o = true).
  { revert Hl. unfold json_loads. apply decode_finite.
    intros tok. unfold coerce_to_strict. destruct (str_in tok _); reflexivity. }
  assert (Hwf : wf_obj new_o = true).
  { apply json_loads_json_value in Hl; [tauto|].
    intros h tok E. injection E as <-.
    unfold coerce_to_strict. now destruct (str_in tok _). }
  assert (Hload : forall hook,
             json_loads s hook = Ok (strict_form new_o)).
  { intros hook.
    rewrite (@loads_dumps hook _ new_o s (module_opts_of pretty) Hwf Hd).
    f_equal. symmetry. unfold strict_form.
    now apply parsed_form_finite_hook. }
  split.
  - intros hook. now rewrite !Hload.
  - intros v. rewrite Hload. intros H. injection H as <-.
    apply strict_form_finite.
Qed.

(** X8: the strict-JSON guarantee of the standard engine, for every item.
    Whenever the engine returns, it returns a [str] that holds no constant
    token: the text loads the same whatever the [parse_constant] hook, and
    what it loads holds no NaN and no infinity.  Nothing is assumed of the
    item or of its canonical form. *)
Theorem standard_engine_output_is_strict (w : world) (config : JsonConfig)
    (o : obj) (pretty : bool) (r : obj) :
  outcome (_to_json_plotly w config o pretty (Some "json")) = Ok r ->
  exists t',
    r = PStr t'
    /\ (forall hook, json_loads t' hook = json_loads t' None)
    /\ (forall v, json_loads t' None = Ok v -> finite_tree v = true).
Proof.
  rewrite standard_engine_outcome. unfold standard_outcome.
  destruct (clean_to_json_compatible (standard_kwargs w) o) as [c|];
    cbn [bind]; [|discriminate].
  destruct (json_dumps c (dumps_opts_of pretty)) as [t|];
    cbn [bind]; [|discriminate].
  intros H.
  assert (Hr : exists t', r = PStr t').
  { unfold repair in H. destruct (has_constant_text t).
    - destruct (json_loads t (Some coerce_to_strict)) as [new_o|e].
      + destruct (json_dumps new_o (dumps_opts_of pretty)); [|discriminate].
        simpl in H. injection H as <-. eauto.
      + destruct (is_ValueError e); discriminate.
    - injection H as <-. eauto. }
  destruct Hr as (t' & ->). exists t'. split; [reflexivity|].
  now apply (@repaired_text_strict pretty t t').
Qed.

Lemma standard_engine_output_is_strict_witness :
  exists t',
    PStr ("[null," ++ quoted "NaN" ++ "]") = PStr t'
    /\ (forall hook, json_loads t' hook = json_loads t' None)
    /\ (forall v, json_loads t' None = Ok v -> finite_tree v = true).
Proof.
  apply (@standard_engine_output_is_strict quiet JsonConfig_init
           (PTuple [PFloat FNegInf; PStr "NaN"]) false).
  reflexivity.
Defined.

(** ** Round trips *)

Lemma standard_outcome_text (w : world) (o : obj) (pretty : bool) (c : obj)
    (t : string) :
  clean_to_json_compatible (standard_kwargs w) o = Ok c ->
  wf_obj c = true ->
  json_dumps c (dumps_opts_of pretty) = Ok t ->
  exists t',
    standard_outcome w pretty o = Ok (PStr t')
    /\ json_dumps (strict_form c) (dumps_opts_of pretty) = Ok t'
    /\ forall hook, json_loads t' hook = Ok (strict_form c).
Proof.
  intros Hc Hwf Ht.
  pose proof (module_opts_of pretty) as Hopts.
  pose proof (module_opts_sort_keys Hopts) as Hsort.
  destruct (@strict_text_ok _ Hsort c 0 t Ht) as (t' & Ht').
  assert (Hd : json_dumps (strict_form c) (dumps_opts_of pretty) = Ok t').
  { unfold json_dumps. now rewrite strict_form_text. }
  assert (Hload : forall hook, json_loads t' hook = Ok (strict_form c)).
  { intros hook.
    rewrite (@loads_dumps hook _ (strict_form c) t' Hopts
               (@strict_form_wf c Hwf) Hd).
    rewrite <- (@parsed_form_finite_hook coerce_to_strict true _
                  (strict_form c) (strict_form_finite c)).
    f_equal. apply strict_form_idem. }
  exists t'. split; [|split; assumption].
  unfold standard_outcome. rewrite Hc. cbn [bind]. rewrite Ht. cbn [bind].
  unfold repair. destruct (has_constant_text t) eqn:Htext.
  - rewrite (@loads_dumps (Some coerce_to_strict) _ c t Hopts Hwf Ht).
    fold (strict_form c). now rewrite Hd.
  - assert (Hf : finite_tree c = true).
    { destruct (finite_tree c) eqn:E; [reflexivity|].
      unfold json_dumps in Ht.
      rewrite (@nonfinite_has_constant_text _ c 0 t Ht E) in Htext.
      discriminate. }
    rewrite (@strict_text_finite _ c 0 Hf) in Ht'.
    unfold json_dumps in Ht. congruence.
Qed.

Lemma strict_form_plain (o : obj) : plain o = true -> plain (strict_form o) = true.
Proof.
  unfold strict_form.
  induction o as [o Ho|l IH|l IH|items IH] using obj_json_ind; intros Hp.
  - destruct o; try discriminate; try reflexivity. now destruct f.
  - cbn [plain parsed_form] in *. rewrite forallb_map'.
    rewrite forallb_forall in *. rewrite Forall_forall in IH. auto.
  - cbn [plain parsed_form] in *. rewrite forallb_map'.
    rewrite forallb_forall in *. rewrite Forall_forall in IH. auto.
  - cbn [plain parsed_form] in *.
    rewrite forallb_sorted_items, forallb_on_values.
    rewrite forallb_forall in *. rewrite Forall_forall in IH.
    intros [k v] Hin. apply (IH (k, v) Hin). apply (Hp (k, v) Hin).
Qed.

(** X9: decode after encode.  For a well-formed tree of the JSON types the
    standard engine returns a text that decode, with the standard or the
    legacy engine and in any world, reads back in one parser call as the
    tree with [None] for each non-finite float, lists for tuples and the
    items of each dict in key order; and encoding that value again gives the
    same text.  Compact and pretty-printed texts read back as the same
    value. *)
Theorem encode_decode_round_trip (w w' : world) (config config' : JsonConfig)
    (o : obj) (pretty : bool) :
  plain o = true ->
  wf_obj o = true ->
  exists t,
    outcome (_to_json_plotly w config o pretty (Some "json")) = Ok (PStr t)
    /\ from_json_plotly w' config' (PStr t) (Some "json")
       = ([CallJsonLoads t], Ok (strict_form o))
    /\ from_json_plotly w' config' (PStr t) (Some "legacy")
       = ([CallJsonLoads t], Ok (strict_form o))
    /\ outcome (_to_json_plotly w config (strict_form o) pretty (Some "json"))
       = Ok (PStr t).
Proof.
  intros Hp Hwf.
  destruct (@plain_text_ok (dumps_opts_of pretty) o Hp 0) as (t0 & Ht0).
  destruct (@standard_outcome_text w o pretty (listify o) t0)
    as (t & Hout & Hd & Hload).
  { now apply clean_plain. }
  { now rewrite listify_wf. }
  { unfold json_dumps. now rewrite listify_text. }
  rewrite listify_strict_form in Hd, Hload.
  exists t. rewrite !standard_engine_outcome. split; [assumption|].
  rewrite (@from_json_plotly_unfold w' config' (PStr t) (Some "json") "json"
             eq_refl eq_refl).
  rewrite (@from_json_plotly_unfold w' config' (PStr t) (Some "legacy") "legacy"
             eq_refl eq_refl).
  cbn [String.eqb Ascii.eqb Bool.eqb text_of]. rewrite Hload.
  split; [reflexivity|split; [reflexivity|]].
  destruct (@standard_outcome_text w (strict_form o) pretty
              (listify (strict_form o)) t) as (t2 & Hout2 & Hd2 & _).
  { apply clean_plain. now apply strict_form_plain. }
  { rewrite listify_wf. now apply strict_form_wf. }
  { unfold json_dumps. rewrite listify_text. exact Hd. }
  rewrite listify_strict_form, strict_form_idem in Hd2. congruence.
Qed.

Lemma encode_decode_round_trip_witness :
  exists t,
    outcome (_to_json_plotly quiet JsonConfig_init sample_figure false
               (Some "json")) = Ok (PStr t)
    /\ from_json_plotly with_orjson JsonConfig_init (PStr t) (Some "json")
       = ([CallJsonLoads t], Ok (strict_form sample_figure))
    /\ from_json_plotly with_orjson JsonConfig_init (PStr t) (Some "legacy")
       = ([CallJsonLoads t], Ok (strict_form sample_figure))
    /\ outcome (_to_json_plotly quiet JsonConfig_init
                  (strict_form sample_figure) false (Some "json"))
       = Ok (PStr t).
Proof.
  apply (@encode_decode_round_trip quiet with_orjson JsonConfig_init
           JsonConfig_init sample_figure false); reflexivity.
Defined.

Lemma sorted_keys_Sorted {V : Type} (l : list (string * V)) :
  sorted_keys (map fst l) = true <-> Sorted key_le l.
Proof.
  induction l as [|kv l IH]; [split; [constructor|reflexivity]|].
  cbn [map sorted_keys]. destruct l as [|kv' l].
  - split; [repeat constructor|reflexivity].
  - cbn [map] in *. rewrite andb_true_iff, IH. split.
    + intros [Hle Hs]. constructor; [assumption|]. now constructor.
    + intros Hs. inversion Hs as [|? ? Hs' Hhd]; subst.
      inversion Hhd; subst. now split.
Qed.

Lemma canonical_plain (o : obj) : canonical o = true -> plain o = true.
Proof.
  induction o as [o Ho|l IH|l IH|items IH] using obj_json_ind; intros H.
  - destruct o; try discriminate; reflexivity.
  - cbn [canonical plain] in *. rewrite forallb_forall in *.
    rewrite Forall_forall in IH. auto.
  - discriminate.
  - cbn [canonical plain] in *. apply andb_prop in H. destruct H as [_ H].
    rewrite forallb_forall in *. rewrite Forall_forall in IH.
    intros [k v] Hin. apply (IH (k, v) Hin). apply (H (k, v) Hin).
Qed.

Lemma canonical_strict_form (o : obj) :
  canonical o = true -> strict_form o = o.
Proof.
  unfold strict_form.
  induction o as [o Ho|l IH|l IH|items IH] using obj_json_ind; intros H.
  - destruct o; try discriminate; try reflexivity. now destruct f.
  - cbn [canonical parsed_form] in *. f_equal.
    rewrite forallb_forall in H. rewrite Forall_forall in IH.
    rewrite <- (map_id l) at 2. apply map_ext_in. auto.
  - discriminate.
  - cbn [canonical parsed_form] in *. apply andb_prop in H.
    destruct H as [Hs H]. f_equal.
    assert (Hm : map (on_values (parsed_form coerce_to_strict true)) items
                 = items).
    { rewrite forallb_forall in H. rewrite Forall_forall in IH.
      rewrite <- (map_id items) at 2. apply map_ext_in.
      intros [k v] Hin. cbn [on_values]. f_equal.
      apply (IH (k, v) Hin). apply (H (k, v) Hin). }
    rewrite Hm. apply sorted_items_fixed. now apply sorted_keys_Sorted.
Qed.

Lemma strict_form_canonical (o : obj) :
  plain o = true -> canonical (strict_form o) = true.
Proof.
  unfold strict_form.
  induction o as [o Ho|l IH|l IH|items IH] using obj_json_ind; intros Hp.
  - destruct o; try discriminate; try reflexivity. now destruct f.
  - cbn [plain canonical parsed_form] in *. rewrite forallb_map'.
    rewrite forallb_forall in *. rewrite Forall_forall in IH. auto.
  - cbn [plain canonical parsed_form] in *. rewrite forallb_map'.
    rewrite forallb_forall in *. rewrite Forall_forall in IH. auto.
  - cbn [plain canonical parsed_form] in *.
    rewrite forallb_sorted_items, forallb_on_values.
    apply andb_true_intro. split.
    + apply sorted_keys_Sorted, sorted_items_sorted.
    + rewrite forallb_forall in *. rewrite Forall_forall in IH.
      intros [k v] Hin. apply (IH (k, v) Hin). apply (Hp (k, v) Hin).
Qed.

(** X10: the round trip is the identity on canonical values.  A well-formed
    value of the JSON types without tuples and non-finite floats, whose
    dicts have their items in key order, is returned by decode from the text
    the standard engine writes for it; and what decode returns from the
    text of any tree of the JSON types is such a canonical value. *)
Theorem round_trip_identity :
  (forall w w' config config' o pretty,
      canonical o = true ->
      wf_obj o = true ->
      exists t,
        outcome (_to_json_plotly w config o pretty (Some "json")) = Ok (PStr t)
        /\ outcome (from_json_plotly w' config' (PStr t) (Some "json")) = Ok o)
  /\ (forall o, plain o = true -> canonical (strict_form o) = true).
Proof.
  split; [|exact strict_form_canonical].
  intros w w' config config' o pretty Hc Hwf.
  pose proof (canonical_plain o Hc) as Hp.
  destruct (@plain_text_ok (dumps_opts_of pretty) o Hp 0) as (t0 & Ht0).
  destruct (@standard_outcome_text w o pretty (listify o) t0)
    as (t & Hout & _ & Hload).
  { now apply clean_plain. }
  { now rewrite listify_wf. }
  { unfold json_dumps. now rewrite listify_text. }
  rewrite listify_strict_form, (canonical_strict_form o Hc) in Hload.
  exists t. rewrite standard_engine_outcome. split; [assumption|].
  rewrite (@from_json_plotly_unfold w' config' (PStr t) (Some "json") "json"
             eq_refl eq_refl).
  cbn [String.eqb Ascii.eqb Bool.eqb text_of]. apply Hload.
Qed.

Lemma round_trip_identity_witness :
  exists t,
    outcome (_to_json_plotly quiet JsonConfig_init
               (PDict [("data", PList [PDict [("x", PList [PInt 1; PNone])]]);
                       ("layout", PDict [])]) true (Some "json"))
    = Ok (PStr t)
    /\ outcome (from_json_plotly with_orjson JsonConfig_init (PStr t)
                  (Some "json"))
       = Ok (PDict [("data", PList [PDict [("x", PList [PInt 1; PNone])]]);
                    ("layout", PDict [])]).
Proof.
  apply (proj1 round_trip_identity quiet with_orjson JsonConfig_init
           JsonConfig_init _ true); reflexivity.
Defined.

(** ** The canonicaliser: how it recurses *)

Lemma mapM_ext_in {A B : Type} (f g : A -> result B) (l : list A) :
  (forall x, In x l -> f x = g x) -> mapM f l = mapM g l.
Proof. intros H. apply mapM_ext_Forall. now apply Forall_forall. Qed.

Section CleanExt.

Variables (numpy_allowed datetime_allowed : bool).
Variables (sage_all np pd image : option pymodule).

(** Two continuations that agree on every value no deeper than [o]. *)
Local Abbreviation agree_upto o k1 k2 :=
  (forall o' : obj, depth o' <= depth o -> k1 o' = k2 o').

Lemma sage_block_ext (o : obj) (k1 k2 : obj -> result obj) :
  agree_upto o k1 k2 -> sage_block sage_all o k1 = sage_block sage_all o k2.
Proof.
  intros Hk. unfold sage_block.
  destruct (is_some sage_all); [|now apply Hk].
  destruct o; try (now apply Hk).
  destruct in_RR; [reflexivity|]. destruct in_ZZ; [reflexivity|].
  now apply Hk.
Qed.

Lemma numpy_block_ext (o : obj) (k1 k2 : obj -> result obj) :
  agree_upto o k1 k2 ->
  numpy_block numpy_allowed np o k1 = numpy_block numpy_allowed np o k2.
Proof.
  intros Hk. unfold numpy_block.
  destruct (is_some np); [|now apply Hk].
  destruct o; try (now apply Hk); try reflexivity.
  destruct (numpy_allowed && numeric_kind kind); [reflexivity|].
  destruct kind; try reflexivity; apply Hk; simpl; lia.
Qed.

Lemma series_block_ext (o : obj) (kind : dtype_kind) (values : obj)
    (dts : list obj) (k1 k2 : obj -> result obj) :
  agree_upto o k1 k2 ->
  series_block numpy_allowed datetime_allowed np o kind values dts k1
  = series_block numpy_allowed datetime_allowed np o kind values dts k2.
Proof.
  intros Hk. unfold series_block.
  destruct (numpy_allowed && numeric_kind kind); [reflexivity|].
  destruct kind; try (now apply Hk). reflexivity.
Qed.

Lemma pandas_block_ext (o : obj) (k1 k2 : obj -> result obj) :
  agree_upto o k1 k2 ->
  pandas_block numpy_allowed datetime_allowed np pd o k1
  = pandas_block numpy_allowed datetime_allowed np pd o k2.
Proof.
  intros Hk. unfold pandas_block.
  destruct (is_some pd); [|now apply Hk].
  destruct o; try (now apply Hk); try reflexivity;
    now apply series_block_ext.
Qed.

Lemma datetime_block_ext (o : obj) (k1 k2 : obj -> result obj) :
  agree_upto o k1 k2 ->
  datetime_block datetime_allowed o k1 = datetime_block datetime_allowed o k2.
Proof.
  intros Hk. unfold datetime_block.
  assert (Hd : depth (match to_pydatetime o with
                      | Some d => d
                      | None => o
                      end) <= depth o).
  { destruct (to_pydatetime o) eqn:E; [now apply to_pydatetime_depth|lia]. }
  destruct (negb datetime_allowed).
  - destruct (isoformat _); [reflexivity|now apply Hk].
  - destruct (is_datetime _); [reflexivity|now apply Hk].
Qed.

Lemma tail_block_ext (rec1 rec2 : obj -> result obj) (o : obj) :
  (forall x, depth x < depth o -> rec1 x = rec2 x) ->
  tail_block image rec1 o = tail_block image rec2 o.
Proof.
  intros Hrec. unfold tail_block.
  destruct (tolist_of o); [reflexivity|].
  assert (Hlist : forall l, depth o = S (fold_right
                                           (fun x acc => Nat.max (depth x) acc)
                                           0 l) ->
                            (l' <- mapM rec1 l ;; Ok (PList l'))
                            = (l' <- mapM rec2 l ;; Ok (PList l'))).
  { intros l Hl. f_equal. apply mapM_ext_in. intros x Hin. apply Hrec.
    pose proof (depth_in_list l x Hin). lia. }
  destruct o; try reflexivity.
  - destruct l; [reflexivity|now apply Hlist].
  - destruct l; [reflexivity|now apply Hlist].
Qed.

End CleanExt.

Lemma clean_unwrapped_ext (rec1 rec2 : obj -> result obj) (kw : kwargs)
    (o : obj) :
  (forall x, depth x < depth o -> rec1 x = rec2 x) ->
  clean_unwrapped rec1 kw o = clean_unwrapped rec2 kw o.
Proof.
  intros Hrec.
  assert (Hpipe :
            (sage_all <- getitem (kwargs_get (kw_modules kw) []) "sage_all" ;;
             np <- getitem (kwargs_get (kw_modules kw) []) "np" ;;
             pd <- getitem (kwargs_get (kw_modules kw) []) "pd" ;;
             image <- getitem (kwargs_get (kw_modules kw) []) "image" ;;
             sage_block sage_all o (fun o =>
             numpy_block (kwargs_get (kw_numpy_allowed kw) false) np o (fun o =>
             pandas_block (kwargs_get (kw_numpy_allowed kw) false)
                          (kwargs_get (kw_datetime_allowed kw) false)
                          np pd o (fun o =>
             datetime_block (kwargs_get (kw_datetime_allowed kw) false) o
                            (fun o => tail_block image rec1 o)))))
            = (sage_all <- getitem (kwargs_get (kw_modules kw) []) "sage_all" ;;
               np <- getitem (kwargs_get (kw_modules kw) []) "np" ;;
               pd <- getitem (kwargs_get (kw_modules kw) []) "pd" ;;
               image <- getitem (kwargs_get (kw_modules kw) []) "image" ;;
               sage_block sage_all o (fun o =>
               numpy_block (kwargs_get (kw_numpy_allowed kw) false) np o (fun o =>
               pandas_block (kwargs_get (kw_numpy_allowed kw) false)
                            (kwargs_get (kw_datetime_allowed kw) false)
                            np pd o (fun o =>
               datetime_block (kwargs_get (kw_datetime_allowed kw) false) o
                              (fun o => tail_block image rec2 o)))))).
  { destruct (getitem _ "sage_all") as [sage_all|]; [|reflexivity].
    destruct (getitem _ "np") as [np|]; [|reflexivity].
    destruct (getitem _ "pd") as [pd|]; [|reflexivity].
    destruct (getitem _ "image") as [image|]; [|reflexivity].
    cbn [bind].
    apply sage_block_ext. intros o1 H1.
    apply numpy_block_ext. intros o2 H2.
    apply pandas_block_ext. intros o3 H3.
    apply datetime_block_ext. intros o4 H4.
    apply tail_block_ext. intros x Hx. apply Hrec. lia. }
  destruct o; try exact Hpipe.
  - cbn [clean_unwrapped]. f_equal.
    apply mapM_ext_in. intros x Hin. apply Hrec.
    pose proof (depth_in_list l x Hin). simpl. lia.
  - cbn [clean_unwrapped]. f_equal.
    apply mapM_ext_in. intros x Hin. apply Hrec.
    pose proof (depth_in_list l x Hin). simpl. lia.
  - cbn [clean_unwrapped]. f_equal.
    apply mapM_ext_in. intros [k v] Hin. f_equal. apply Hrec.
    pose proof (depth_in_dict items k v Hin). simpl. lia.
Qed.

Lemma unwrapped_depth (o : obj) : depth (unwrapped o) <= depth o.
Proof.
  unfold unwrapped. destruct o; cbn [to_plotly_json]; try apply Nat.le_refl.
  simpl. lia.
Qed.

(** The result does not depend on the recursion depth left, once it is
    more than the depth of the item. *)
Lemma clean_rec_fuel (kw : kwargs) (n : nat) :
  forall m o, depth o < n -> depth o < m -> clean_rec n kw o = clean_rec m kw o.
Proof.
  induction n as [|n IH]; intros m o Hn Hm; [lia|].
  destruct m as [|m]; [lia|].
  cbn [clean_rec]. destruct (is_scalar o); [reflexivity|].
  fold (unwrapped o). pose proof (unwrapped_depth o).
  apply clean_unwrapped_ext. intros x Hx. apply IH; lia.
Qed.

Lemma clean_rec_enough (kw : kwargs) (n : nat) (o : obj) :
  depth o < n -> clean_rec n kw o = clean_to_json_compatible kw o.
Proof. intros Hn. apply clean_rec_fuel; lia. Qed.

Lemma clean_rec_S (kw : kwargs) (n : nat) (o : obj) :
  clean_rec (S n) kw o
  = if is_scalar o then Ok o
    else clean_unwrapped (clean_rec n kw) kw (unwrapped o).
Proof. reflexivity. Qed.

Lemma clean_list_eq (kw : kwargs) (l : list obj) :
  clean_to_json_compatible kw (PList l)
  = (l' <- mapM (clean_to_json_compatible kw) l ;; Ok (PList l')).
Proof.
  unfold clean_to_json_compatible at 1. rewrite clean_rec_S.
  cbn [is_scalar unwrapped to_plotly_json clean_unwrapped].
  rewrite (@mapM_ext_in _ _ (clean_rec (S (depth (PList l))) kw)
             (clean_to_json_compatible kw) l); [reflexivity|].
  intros x Hin. apply clean_rec_enough.
  pose proof (depth_list_lt l x Hin). lia.
Qed.

Lemma clean_tuple_eq (kw : kwargs) (l : list obj) :
  clean_to_json_compatible kw (PTuple l)
  = (l' <- mapM (clean_to_json_compatible kw) l ;; Ok (PList l')).
Proof.
  unfold clean_to_json_compatible at 1. rewrite clean_rec_S.
  cbn [is_scalar unwrapped to_plotly_json clean_unwrapped].
  rewrite (@mapM_ext_in _ _ (clean_rec (S (depth (PTuple l))) kw)
             (clean_to_json_compatible kw) l); [reflexivity|].
  intros x Hin. apply clean_rec_enough.
  pose proof (depth_list_lt l x Hin). lia.
Qed.

Lemma clean_dict_eq (kw : kwargs) (items : list (string * obj)) :
  clean_to_json_compatible kw (PDict items)
  = (items' <- mapM (fun kv => let '(k, v) := kv in
                               v' <- clean_to_json_compatible kw v ;;
                               Ok (k, v')) items ;;
     Ok (PDict items')).
Proof.
  unfold clean_to_json_compatible at 1. rewrite clean_rec_S.
  cbn [is_scalar unwrapped to_plotly_json clean_unwrapped].
  rewrite (@mapM_ext_in _ _
             (fun kv : string * obj =>
                let '(k, v) := kv in
                v' <- clean_rec (S (depth (PDict items))) kw v ;; Ok (k, v'))
             (fun kv : string * obj =>
                let '(k, v) := kv in
                v' <- clean_to_json_compatible kw v ;; Ok (k, v'))
             items); [reflexivity|].
  intros [k v] Hin. rewrite clean_rec_enough; [reflexivity|].
  pose proof (depth_dict_lt items k v Hin). lia.
Qed.

Lemma clean_view_eq (kw : kwargs) (view : obj) :
  is_scalar view = false ->
  to_plotly_json view = None ->
  clean_to_json_compatible kw (PExportable view)
  = clean_to_json_compatible kw view.
Proof.
  intros Hs Hu. unfold clean_to_json_compatible.
  rewrite (clean_rec_S kw (S (depth (PExportable view))) (PExportable view)).
  rewrite (clean_rec_S kw (S (depth view)) view).
  rewrite Hs. unfold unwrapped. rewrite Hu. cbn [is_scalar to_plotly_json].
  apply clean_unwrapped_ext. intros x Hx.
  apply clean_rec_fuel; simpl; lia.
Qed.

(** X11: how the canonicaliser recurses, for every setting of its keyword
    arguments (also with [modules] left out).  A list or a tuple becomes the
    list of the canonical forms of its elements and a dict keeps its keys,
    in their order, with the canonical forms of its values; the first
    element or value on which the function raises decides the exception.
    An object with [to_plotly_json()] whose view is a list, tuple or dict is
    treated as that view. *)
Theorem clean_recurses_into_containers (kw : kwargs) :
  (forall l,
      clean_to_json_compatible kw (PList l)
      = (l' <- mapM (clean_to_json_compatible kw) l ;; Ok (PList l')))
  /\ (forall l,
         clean_to_json_compatible kw (PTuple l)
         = (l' <- mapM (clean_to_json_compatible kw) l ;; Ok (PList l')))
  /\ (forall items,
         clean_to_json_compatible kw (PDict items)
         = (items' <- mapM (fun kv => let '(k, v) := kv in
                                      v' <- clean_to_json_compatible kw v ;;
                                      Ok (k, v')) items ;;
            Ok (PDict items')))
  /\ (forall view,
         is_container view = true ->
         clean_to_json_compatible kw (PExportable view)
         = clean_to_json_compatible kw view).
Proof.
  split; [exact (clean_list_eq kw)|].
  split; [exact (clean_tuple_eq kw)|].
  split; [exact (clean_dict_eq kw)|].
  intros view Hv. apply clean_view_eq; destruct view; easy.
Qed.

Lemma clean_recurses_into_containers_witness :
  clean_to_json_compatible (Kwargs None None None)
    (PExportable (PDict [("x", PTuple [PInt 1; PStr "a"])]))
  = clean_to_json_compatible (Kwargs None None None)
      (PDict [("x", PTuple [PInt 1; PStr "a"])]).
Proof.
  apply (proj2 (proj2 (proj2 (clean_recurses_into_containers
                                (Kwargs None None None))))).
  reflexivity.
Defined.

Lemma mapM_length {A B : Type} (f : A -> result B) (l : list A) (ys : list B) :
  mapM f l = Ok ys -> List.length ys = List.length l.
Proof.
  revert ys. induction l as [|x l IH]; intros ys Hm.
  - simpl in Hm. now injection Hm as <-.
  - apply mapM_cons_ok in Hm. destruct Hm as (y & ys' & _ & Hm & ->).
    simpl. f_equal. now apply IH.
Qed.

(** X12: the canonical form keeps the shape of a container.  When the
    function returns for a list or a tuple, it returns a list of the same
    length; when it returns for a dict, it returns a dict with the same
    keys in the same order: no key is dropped, renamed or moved. *)
Theorem clean_keeps_shape (kw : kwargs) (c : obj) :
  (forall l,
      clean_to_json_compatible kw (PList l) = Ok c
      \/ clean_to_json_compatible kw (PTuple l) = Ok c ->
      exists l', c = PList l' /\ List.length l' = List.length l)
  /\ (forall items,
         clean_to_json_compatible kw (PDict items) = Ok c ->
         exists items', c = PDict items' /\ map fst items' = map fst items).
Proof.
  split.
  - intros l H.
    assert (Hm : (l' <- mapM (clean_to_json_compatible kw) l ;; Ok (PList l'))
                 = Ok c).
    { destruct H as [H|H];
        [now rewrite <- clean_list_eq|now rewrite <- clean_tuple_eq]. }
    destruct (mapM (clean_to_json_compatible kw) l) as [l'|] eqn:E;
      [|discriminate].
    simpl in Hm. injection Hm as <-. exists l'. split; [reflexivity|].
    now apply mapM_length in E.
  - intros items H. rewrite clean_dict_eq in H.
    destruct (mapM _ items) as [items'|] eqn:E; [|discriminate].
    simpl in H. injection H as <-. exists items'. split; [reflexivity|].
    now apply mapM_items_keys in E.
Qed.

Lemma clean_keeps_shape_witness :
  (exists l',
      PList [PInt 1; PStr "2021-01-01"] = PList l'
      /\ List.length l' = List.length [PInt 1; PDate "2021-01-01"])
  /\ (exists items',
         PDict [("y", PList []); ("x", PNone)] = PDict items'
         /\ map fst items' = map fst [("y", PTuple []); ("x", PNaT)]).
Proof.
  split.
  - apply (proj1 (clean_keeps_shape (standard_kwargs quiet)
                    (PList [PInt 1; PStr "2021-01-01"]))
             [PInt 1; PDate "2021-01-01"]).
    right. reflexivity.
  - apply (proj2 (clean_keeps_shape
                    (Kwargs None None
                            (Some [("sage_all", None); ("np", None);
                                   ("pd", Some (Module "pandas"));
                                   ("image", None)]))
                    (PDict [("y", PList []); ("x", PNone)]))
             [("y", PTuple []); ("x", PNaT)]).
    reflexivity.
Defined.

(** ** The canonicaliser: the adapters *)

(** The function as the source defines it: the recursive calls are calls of
    the function itself. *)
Lemma clean_unfold (kw : kwargs) (o : obj) :
  clean_to_json_compatible kw o
  = if is_scalar o then Ok o
    else clean_unwrapped (clean_to_json_compatible kw) kw (unwrapped o).
Proof.
  unfold clean_to_json_compatible at 1. rewrite clean_rec_S.
  destruct (is_scalar o); [reflexivity|].
  apply clean_unwrapped_ext. intros x Hx. apply clean_rec_enough.
  pose proof (unwrapped_depth o). lia.
Qed.

Ltac clean_cases w :=
  unfold adapter_modules, get_module;
  cbn -[clean_to_json_compatible];
  repeat match goal with
    | |- context [loaded w ?name] => destruct (loaded w name)
    end;
  cbn -[clean_to_json_compatible].

Ltac adapter_cases :=
  unfold adapters;
  cbn -[clean_to_json_compatible];
  repeat match goal with
    | m : option pymodule |- _ => destruct m
    end;
  cbn -[clean_to_json_compatible] in *.

(** X13: numpy values, when the numpy adapter is passed ([modules["np"]] is
    not [None]).  The masked constant becomes NaN; an array of booleans or
    numbers is kept as an array when [numpy_allowed] is set; an array of
    datetimes becomes the list of its datetime strings and an array of
    strings its nested list; an array of objects is treated as its list,
    whose elements are canonicalised in turn; a [datetime64] scalar becomes
    its string. *)
Theorem clean_numpy (sage_all np pd image : option pymodule)
    (numpy_allowed datetime_allowed : option bool) :
  is_some np = true ->
  let kw := Kwargs numpy_allowed datetime_allowed
                   (Some (adapters sage_all np pd image)) in
  clean_to_json_compatible kw PMasked = Ok (PFloat FNaN)
  /\ (forall kind tl ds,
         numpy_allowed = Some true -> numeric_kind kind = true ->
         clean_to_json_compatible kw (PNdarray kind tl ds)
         = Ok (PNdarray kind tl ds))
  /\ (forall tl ds, clean_to_json_compatible kw (PNdarray KM tl ds) = Ok ds)
  /\ (forall tl ds, clean_to_json_compatible kw (PNdarray KU tl ds) = Ok tl)
  /\ (forall l ds,
         clean_to_json_compatible kw (PNdarray KO (PList l) ds)
         = clean_to_json_compatible kw (PList l))
  /\ (forall s tl,
         clean_to_json_compatible kw (PDatetime64 s tl) = Ok (PStr s)).
Proof.
  intros Hnp kw. subst kw.
  repeat split; intros; rewrite clean_unfold.
  - adapter_cases; try discriminate; reflexivity.
  - subst numpy_allowed. adapter_cases; try discriminate;
      destruct kind; try discriminate; reflexivity.
  - adapter_cases; try discriminate;
      destruct numpy_allowed as [[|]|]; reflexivity.
  - adapter_cases; try discriminate;
      destruct numpy_allowed as [[|]|], datetime_allowed as [[|]|];
      reflexivity.
  - rewrite clean_list_eq.
    adapter_cases; try discriminate;
      destruct numpy_allowed as [[|]|], datetime_allowed as [[|]|], l;
      reflexivity.
  - adapter_cases; try discriminate; reflexivity.
Qed.

Lemma clean_numpy_witness :
  clean_to_json_compatible
    (Kwargs (Some true) None (Some (adapter_modules (loaded_world ["numpy"]))))
    (PNdarray Kf (PList [PFloat FNaN]) PNone)
  = Ok (PNdarray Kf (PList [PFloat FNaN]) PNone)
  /\ clean_to_json_compatible
       (Kwargs None None (Some (adapter_modules (loaded_world ["numpy"]))))
       (PNdarray KO (PList [PDate "2021-01-01"; PMasked]) PNone)
     = clean_to_json_compatible
         (Kwargs None None (Some (adapter_modules (loaded_world ["numpy"]))))
         (PList [PDate "2021-01-01"; PMasked]).
Proof.
  split.
  - exact (proj1 (proj2 (clean_numpy None (Some (Module "numpy")) None None
                           (Some true) None eq_refl))
             Kf (PList [PFloat FNaN]) PNone eq_refl eq_refl).
  - exact (proj1 (proj2 (proj2 (proj2 (proj2
             (clean_numpy None (Some (Module "numpy")) None None
                None None eq_refl)))))
             [PDate "2021-01-01"; PMasked] PNone).
Defined.

(** X14: pandas values, when the pandas adapter is passed.  [NaT] becomes
    [None].  A [Series] or [DatetimeIndex] of datetimes becomes the list of
    its datetimes when [datetime_allowed] is set, and otherwise the list of
    their ISO strings, in the same order; a [Series] of booleans or numbers
    is replaced by its underlying array when [numpy_allowed] is set and the
    numpy adapter is passed too. *)
Theorem clean_pandas (sage_all np pd image : option pymodule)
    (numpy_allowed datetime_allowed : option bool) :
  is_some pd = true ->
  let kw := Kwargs numpy_allowed datetime_allowed
                   (Some (adapters sage_all np pd image)) in
  let datetimes dts :=
    if kwargs_get datetime_allowed false then Ok (PList dts)
    else l <- isoformat_all dts ;; Ok (PList l) in
  clean_to_json_compatible kw PNaT = Ok PNone
  /\ (forall values dts tl,
         clean_to_json_compatible kw (PSeries KM values dts tl) = datetimes dts
         /\ clean_to_json_compatible kw (PDatetimeIndex KM values dts tl)
            = datetimes dts)
  /\ (forall kind values dts tl,
         numpy_allowed = Some true -> numeric_kind kind = true ->
         is_some np = true ->
         clean_to_json_compatible kw (PSeries kind values dts tl) = Ok values).
Proof.
  intros Hpd kw datetimes. subst kw datetimes. cbv beta.
  split; [|split].
  - rewrite clean_unfold. adapter_cases; try discriminate; reflexivity.
  - intros values dts tl.
    split; rewrite clean_unfold; adapter_cases; try discriminate;
      destruct numpy_allowed as [[|]|], datetime_allowed as [[|]|];
      reflexivity.
  - intros kind values dts tl -> Hk Hnp.
    rewrite clean_unfold. adapter_cases; try discriminate;
      destruct kind; try discriminate; reflexivity.
Qed.

Lemma clean_pandas_witness :
  (clean_to_json_compatible
     (standard_kwargs (loaded_world ["numpy"; "pandas"]))
     (PSeries KM PNone [PDatetime "2020-01-01T00:00:00"; PNaT] PNone)
   = Ok (PList [PStr "2020-01-01T00:00:00"; PStr "NaT"]))
  /\ clean_to_json_compatible
       (fast_kwargs (loaded_world ["numpy"; "pandas"]))
       (PSeries Ki (PNdarray Ki (PList [PInt 1]) PNone) [] (PList [PInt 1]))
     = Ok (PNdarray Ki (PList [PInt 1]) PNone).
Proof.
  split.
  - exact (proj1 (proj1 (proj2 (clean_pandas None (Some (Module "numpy"))
                                  (Some (Module "pandas")) None
                                  (Some false) (Some false) eq_refl))
                    PNone [PDatetime "2020-01-01T00:00:00"; PNaT] PNone)).
  - exact (proj2 (proj2 (clean_pandas None (Some (Module "numpy"))
                           (Some (Module "pandas")) None
                           (Some true) (Some true) eq_refl))
             Ki (PNdarray Ki (PList [PInt 1]) PNone) [] (PList [PInt 1])
             eq_refl eq_refl eq_refl).
Defined.

(** X15: dates and times, whichever adapters are passed.  Unless
    [datetime_allowed] is set, a [datetime] or a [date] becomes its ISO
    string; when it is set both are returned as they are, for the
    serialiser to write.  A pandas [Timestamp] is first replaced by its
    plain [datetime] ([to_pydatetime()]), which is then treated the same
    way. *)
Theorem clean_datetime (sage_all np pd image : option pymodule)
    (numpy_allowed datetime_allowed : option bool) (iso : string) :
  let kw := Kwargs numpy_allowed datetime_allowed
                   (Some (adapters sage_all np pd image)) in
  clean_to_json_compatible kw (PDatetime iso)
  = (if kwargs_get datetime_allowed false then Ok (PDatetime iso)
     else Ok (PStr iso))
  /\ clean_to_json_compatible kw (PDate iso)
     = (if kwargs_get datetime_allowed false then Ok (PDate iso)
        else Ok (PStr iso))
  /\ (forall stamp_iso,
         clean_to_json_compatible kw (PTimestamp (PDatetime iso) stamp_iso)
         = clean_to_json_compatible kw (PDatetime iso)).
Proof.
  intros kw. subst kw.
  split; [|split; [|intros stamp_iso]].
  - rewrite clean_unfold. adapter_cases;
      destruct numpy_allowed as [[|]|], datetime_allowed as [[|]|];
      reflexivity.
  - rewrite clean_unfold. adapter_cases;
      destruct numpy_allowed as [[|]|], datetime_allowed as [[|]|];
      reflexivity.
  - rewrite (clean_unfold _ (PTimestamp (PDatetime iso) stamp_iso)).
    rewrite (clean_unfold _ (PDatetime iso)). adapter_cases;
      destruct numpy_allowed as [[|]|], datetime_allowed as [[|]|];
      reflexivity.
Qed.

(** X16: the Sage and PIL adapters are consulted only if passed, and
    decimals always.  A Sage number becomes a float if it lies in [RR], else
    an integer if it lies in [ZZ], when [modules["sage_all"]] is a module,
    and is returned unchanged when it is [None]; a PIL image becomes its
    data URI when [modules["image"]] is a module and is returned unchanged
    when it is [None]; a [Decimal] becomes a float in either case. *)
Theorem clean_optional_adapters (sage_all np pd image : option pymodule)
    (numpy_allowed datetime_allowed : option bool) :
  let kw := Kwargs numpy_allowed datetime_allowed
                   (Some (adapters sage_all np pd image)) in
  (forall in_RR in_ZZ f z,
      clean_to_json_compatible kw (PSage in_RR in_ZZ f z)
      = if is_some sage_all then
          if in_RR then Ok (PFloat f)
          else if in_ZZ then Ok (PInt z)
          else Ok (PSage in_RR in_ZZ f z)
        else Ok (PSage in_RR in_ZZ f z))
  /\ (forall uri,
         clean_to_json_compatible kw (PImage uri)
         = if is_some image then Ok (PStr uri) else Ok (PImage uri))
  /\ (forall f, clean_to_json_compatible kw (PDecimal f) = Ok (PFloat f)).
Proof.
  intros kw. subst kw.
  split; [intros in_RR in_ZZ f z|split; [intros uri|intros f]];
    rewrite clean_unfold; adapter_cases;
    destruct numpy_allowed as [[|]|], datetime_allowed as [[|]|];
    try reflexivity; destruct in_RR, in_ZZ; reflexivity.
Qed.

(** ** The stored default and the dispatchers *)

(** X17: the stored default is what a call without an engine uses.  After
    an assignment to [config.default_engine] that did not raise, encode and
    decode called without an engine behave, in any later world, as when
    called with the assigned name; a call that names its engine does not
    look at the stored default. *)
Theorem default_engine_is_used (w : world) (c c' : JsonConfig) (val : obj) :
  set_default_engine w c val = (c', Ok tt) ->
  exists e,
    val = PStr e
    /\ str_in e _valid_engines = true
    /\ (forall w' o pretty,
           _to_json_plotly w' c' o pretty None
           = _to_json_plotly w' c' o pretty (Some e))
    /\ (forall w' value,
           from_json_plotly w' c' value None
           = from_json_plotly w' c' value (Some e))
    /\ (forall w' c'' o pretty engine,
           _to_json_plotly w' c' o pretty (Some engine)
           = _to_json_plotly w' c'' o pretty (Some engine))
    /\ (forall w' c'' value engine,
           from_json_plotly w' c' value (Some engine)
           = from_json_plotly w' c'' value (Some engine)).
Proof.
  unfold set_default_engine. destruct val; try discriminate.
  destruct (str_in s _valid_engines) eqn:Hs; [|discriminate].
  cbn [negb].
  destruct (if String.eqb s "orjson" then validate_orjson w else Ok tt);
    [|discriminate].
  intros H. injection H as <-. exists s.
  repeat split; try assumption; reflexivity.
Qed.

Lemma default_engine_is_used_witness :
  exists e,
    PStr "legacy" = PStr e
    /\ str_in e _valid_engines = true
    /\ (forall w' o pretty,
           _to_json_plotly w' {| _default_engine := "legacy" |} o pretty None
           = _to_json_plotly w' {| _default_engine := "legacy" |} o pretty
               (Some e))
    /\ (forall w' value,
           from_json_plotly w' {| _default_engine := "legacy" |} value None
           = from_json_plotly w' {| _default_engine := "legacy" |} value
               (Some e))
    /\ (forall w' c'' o pretty engine,
           _to_json_plotly w' {| _default_engine := "legacy" |} o pretty
             (Some engine)
           = _to_json_plotly w' c'' o pretty (Some engine))
    /\ (forall w' c'' value engine,
           from_json_plotly w' {| _default_engine := "legacy" |} value
             (Some engine)
           = from_json_plotly w' c'' value (Some engine)).
Proof.
  apply (@default_engine_is_used quiet JsonConfig_init
           {| _default_engine := "legacy" |} (PStr "legacy")).
  reflexivity.
Defined.

(** ** The standard engine: how it fails *)

Lemma mapM_raise_inv {A B : Type} (f : A -> result B) (l : list A) (e : exn) :
  mapM f l = Raise e -> exists x, In x l /\ f x = Raise e.
Proof.
  induction l as [|a l IH]; [discriminate|]. simpl.
  destruct (f a) as [y|e'] eqn:Ha.
  - destruct (mapM f l) as [ys|e']; [discriminate|].
    intros H. injection H as ->.
    destruct (IH eq_refl) as (x & Hin & Hx). exists x. auto.
  - intros H. injection H as ->. exists a. auto.
Qed.

Lemma iterencode_json_error (opts : dumps_opts) (o : obj) :
  forall level e,
    iterencode json_backend opts o level = Raise e ->
    exists x, e = not_serializable x.
Proof.
  induction o as [o Ho|l IH|l IH|items IH] using obj_json_ind;
    intros level e.
  - destruct o; try discriminate; simpl;
      try (intros H; injection H as <-; eauto).
    destruct b; discriminate.
  - cbn [iterencode].
    destruct (mapM _ l) as [chunks|e'] eqn:E; [discriminate|].
    simpl. intros H. injection H as ->.
    apply mapM_raise_inv in E. destruct E as (x & Hin & Hx).
    rewrite Forall_forall in IH. apply (IH x Hin _ _ Hx).
  - cbn [iterencode].
    destruct (mapM _ l) as [chunks|e'] eqn:E; [discriminate|].
    simpl. intros H. injection H as ->.
    apply mapM_raise_inv in E. destruct E as (x & Hin & Hx).
    rewrite Forall_forall in IH. apply (IH x Hin _ _ Hx).
  - cbn [iterencode].
    destruct (mapM _ _) as [chunks|e'] eqn:E; [discriminate|].
    simpl. intros H. injection H as ->.
    apply mapM_raise_inv in E. destruct E as ([k r] & Hin & Hx).
    destruct r as [s|e']; [discriminate|]. simpl in Hx. injection Hx as ->.
    assert (Hin' : In (k, Raise e)
                      (map (on_values (fun v => iterencode json_backend opts v
                                                  (S level))) items)).
    { destruct (sort_keys opts); [|assumption].
      apply (Permutation_in _ (Permutation_sym (sorted_items_perm _)) Hin). }
    apply in_map_iff in Hin'. destruct Hin' as ([k' v] & Hkv & Hv).
    cbn [on_values] in Hkv. injection Hkv as _ Hr.
    rewrite Forall_forall in IH. apply (IH (k', v) Hv _ _ Hr).
Qed.

(** X18: how the standard engine fails.  An exception of the canonicaliser
    escapes after that one call.  When the canonical form is well-formed,
    the only other failure is the [TypeError] that [json.dumps] raises on it
    for an object it cannot serialise, which escapes unchanged: the
    [ValueError] about separators of the repair pass is never raised. *)
Theorem standard_engine_failures (w : world) (config : JsonConfig) (o : obj)
    (pretty : bool) :
  (forall e,
      clean_to_json_compatible (standard_kwargs w) o = Raise e ->
      _to_json_plotly w config o pretty (Some "json")
      = ([CallClean o false false], Raise e))
  /\ (forall c e,
         clean_to_json_compatible (standard_kwargs w) o = Ok c ->
         wf_obj c = true ->
         outcome (_to_json_plotly w config o pretty (Some "json")) = Raise e ->
         _to_json_plotly w config o pretty (Some "json")
         = ([CallClean o false false; CallJsonDumps c], Raise e)
         /\ json_dumps c (dumps_opts_of pretty) = Raise e
         /\ (exists x, e = not_serializable x)
         /\ e <> strict_failed).
Proof.
  split.
  - intros e Hc. unfold _to_json_plotly.
    cbn -[clean_to_json_compatible json_dumps json_loads].
    unfold standard_kwargs in Hc. unfold call, then_. now rewrite Hc.
  - intros c e Hc Hwf Hout.
    destruct (json_dumps c (dumps_opts_of pretty)) as [t|e'] eqn:Hd.
    + destruct (@standard_outcome_text w o pretty c t Hc Hwf Hd)
        as (t' & Hok & _).
      rewrite standard_engine_outcome in Hout. congruence.
    + assert (Hrun : _to_json_plotly w config o pretty (Some "json")
                     = ([CallClean o false false; CallJsonDumps c], Raise e')).
      { unfold _to_json_plotly.
        cbn -[clean_to_json_compatible json_dumps json_loads].
        unfold standard_kwargs in Hc. unfold call, then_.
        rewrite Hc. cbn -[json_dumps json_loads]. now rewrite Hd. }
      rewrite Hrun in Hout. unfold outcome in Hout. cbn [snd] in Hout.
      injection Hout as ->.
      destruct (@iterencode_json_error _ c 0 e Hd) as (x & Hx).
      repeat split; [assumption|eauto|].
      rewrite Hx. discriminate.
Qed.

Lemma standard_engine_failures_witness :
  _to_json_plotly quiet JsonConfig_init (PList [PInt 1; PBytes "ab"]) false
    (Some "json")
  = ([CallClean (PList [PInt 1; PBytes "ab"]) false false;
      CallJsonDumps (PList [PInt 1; PBytes "ab"])],
     Raise (TypeError "Object of type bytes is not JSON serializable")).
Proof.
  apply (proj2 (standard_engine_failures quiet JsonConfig_init
                  (PList [PInt 1; PBytes "ab"]) false)
           (PList [PInt 1; PBytes "ab"])
           (TypeError "Object of type bytes is not JSON serializable"));
    reflexivity.
Defined.

(** ** What the engines write for objects *)

Lemma fast_engine_unwrapped (w : world) (config : JsonConfig) (o : obj)
    (pretty : bool) :
  to_plotly_json (unwrapped o) = None ->
  _to_json_plotly w config o pretty (Some "orjson")
  = _to_json_plotly w config (unwrapped o) pretty (Some "orjson").
Proof.
  intros E. unfold _to_json_plotly.
  cbn -[clean_to_json_compatible orjson_dumps validate_orjson].
  fold (unwrapped o). fold (unwrapped (unwrapped o)).
  assert (Hu : unwrapped (unwrapped o) = unwrapped o).
  { unfold unwrapped at 1. now rewrite E. }
  now rewrite Hu.
Qed.

Lemma to_json_auto (w : world) (config : JsonConfig) (o : obj) (pretty : bool) :
  _to_json_plotly w config o pretty (Some "auto")
  = _to_json_plotly w config o pretty
      (Some (if importable w "orjson" then "orjson" else "json")).
Proof.
  unfold _to_json_plotly.
  assert (Hd : determine_engine (get_module w "orjson" true) "auto"
               = determine_engine (get_module w "orjson" true)
                   (if importable w "orjson" then "orjson" else "json")).
  { unfold determine_engine. simpl. rewrite get_module_importable.
    now destruct (importable w "orjson"). }
  now rewrite Hd.
Qed.

(** X19: an object with [to_plotly_json()] whose view is a list, tuple or
    dict is encoded as that view.  With the standard engine, the fast one
    and [auto], in every world, encode returns or raises for the object
    what it does for the view. *)
Theorem figure_encodes_as_its_view (w : world) (config : JsonConfig)
    (view : obj) (pretty : bool) :
  is_container view = true ->
  outcome (_to_json_plotly w config (PExportable view) pretty (Some "json"))
  = outcome (_to_json_plotly w config view pretty (Some "json"))
  /\ _to_json_plotly w config (PExportable view) pretty (Some "orjson")
     = _to_json_plotly w config view pretty (Some "orjson")
  /\ outcome (_to_json_plotly w config (PExportable view) pretty (Some "auto"))
     = outcome (_to_json_plotly w config view pretty (Some "auto")).
Proof.
  intros Hv.
  assert (Hs : is_scalar view = false) by (destruct view; easy).
  assert (Hu : to_plotly_json view = None) by (destruct view; easy).
  assert (Hjson :
            outcome (_to_json_plotly w config (PExportable view) pretty
                       (Some "json"))
            = outcome (_to_json_plotly w config view pretty (Some "json"))).
  { rewrite !standard_engine_outcome. unfold standard_outcome.
    now rewrite (clean_view_eq (standard_kwargs w) view Hs Hu). }
  assert (Hfast :
            _to_json_plotly w config (PExportable view) pretty (Some "orjson")
            = _to_json_plotly w config view pretty (Some "orjson")).
  { exact (fast_engine_unwrapped w config (PExportable view) pretty Hu). }
  split; [assumption|split; [assumption|]].
  rewrite !to_json_auto.
  destruct (importable w "orjson"); [now rewrite Hfast|exact Hjson].
Qed.

Lemma figure_encodes_as_its_view_witness :
  outcome (_to_json_plotly quiet JsonConfig_init
             (PExportable (PDict [("data", PTuple [])])) false (Some "json"))
  = outcome (_to_json_plotly quiet JsonConfig_init
               (PDict [("data", PTuple [])]) false (Some "json"))
  /\ _to_json_plotly quiet JsonConfig_init
       (PExportable (PDict [("data", PTuple [])])) false (Some "orjson")
     = _to_json_plotly quiet JsonConfig_init
         (PDict [("data", PTuple [])]) false (Some "orjson")
  /\ outcome (_to_json_plotly quiet JsonConfig_init
                (PExportable (PDict [("data", PTuple [])])) false (Some "auto"))
     = outcome (_to_json_plotly quiet JsonConfig_init
                  (PDict [("data", PTuple [])]) false (Some "auto")).
Proof.
  apply (@figure_encodes_as_its_view quiet JsonConfig_init
           (PDict [("data", PTuple [])]) false).
  reflexivity.
Defined.

(** X20: what the standard engine writes for arrays, dates and decimals.
    In every world it returns or raises for an array of booleans or numbers
    with a nested list of the JSON types what it does for that list, for a
    [datetime] or a [date] what it does for its ISO string, and for a
    [Decimal] what it does for its float. *)
Theorem standard_engine_replaces_adapters (w : world) (config : JsonConfig)
    (pretty : bool) :
  let encode o := outcome (_to_json_plotly w config o pretty (Some "json")) in
  (forall kind tl ds,
      numeric_kind kind = true -> plain tl = true ->
      encode (PNdarray kind tl ds) = encode tl)
  /\ (forall iso,
         encode (PDatetime iso) = encode (PStr iso)
         /\ encode (PDate iso) = encode (PStr iso))
  /\ (forall f, encode (PDecimal f) = encode (PFloat f)).
Proof.
  intros encode. subst encode. cbv beta.
  split; [|split].
  - intros kind tl ds Hk Hp. rewrite !standard_engine_outcome.
    unfold standard_outcome.
    assert (Ha : clean_to_json_compatible (standard_kwargs w)
                   (PNdarray kind tl ds) = Ok tl).
    { rewrite clean_unfold. unfold standard_kwargs.
      clean_cases w; destruct kind; try discriminate; reflexivity. }
    rewrite Ha. unfold standard_kwargs at 1. rewrite (clean_plain w _ _ tl Hp).
    cbn [bind]. unfold json_dumps. now rewrite listify_text.
  - intros iso. rewrite !standard_engine_outcome. unfold standard_outcome.
    assert (Hd : clean_to_json_compatible (standard_kwargs w) (PDatetime iso)
                 = Ok (PStr iso)).
    { rewrite clean_unfold. unfold standard_kwargs.
      clean_cases w; reflexivity. }
    assert (Hd' : clean_to_json_compatible (standard_kwargs w) (PDate iso)
                  = Ok (PStr iso)).
    { rewrite clean_unfold. unfold standard_kwargs.
      clean_cases w; reflexivity. }
    rewrite Hd, Hd', (clean_unfold (standard_kwargs w) (PStr iso)).
    split; reflexivity.
  - intros f. rewrite !standard_engine_outcome. unfold standard_outcome.
    assert (Hd : clean_to_json_compatible (standard_kwargs w) (PDecimal f)
                 = Ok (PFloat f)).
    { rewrite clean_unfold. unfold standard_kwargs.
      clean_cases w; reflexivity. }
    rewrite Hd, (clean_unfold (standard_kwargs w) (PFloat f)). reflexivity.
Qed.

Lemma standard_engine_replaces_adapters_witness :
  outcome (_to_json_plotly quiet JsonConfig_init
             (PNdarray Ki (PList [PInt 1; PInt 2; PInt 3]) PNone) false
             (Some "json"))
  = outcome (_to_json_plotly quiet JsonConfig_init
               (PList [PInt 1; PInt 2; PInt 3]) false (Some "json")).
Proof.
  exact (proj1 (standard_engine_replaces_adapters quiet JsonConfig_init false)
           Ki (PList [PInt 1; PInt 2; PInt 3]) PNone eq_refl eq_refl).
Defined.

(** ** Items of the JSON types *)

(** X22: for a tree of the JSON types the result of encode does not depend
    on the world or on the stored default.  With the standard engine, and
    with the fast one wherever its package can be imported, encode returns
    or raises the same in any two worlds: which optional adapters are
    loaded makes no difference to such an item. *)
Theorem plain_encoding_ignores_world (w w' : world) (config config' : JsonConfig)
    (o : obj) (pretty : bool) :
  plain o = true ->
  outcome (_to_json_plotly w config o pretty (Some "json"))
  = outcome (_to_json_plotly w' config' o pretty (Some "json"))
  /\ (importable w "orjson" = true ->
      importable w' "orjson" = true ->
      outcome (_to_json_plotly w config o pretty (Some "orjson"))
      = outcome (_to_json_plotly w' config' o pretty (Some "orjson"))).
Proof.
  intros Hp. split.
  - rewrite !standard_engine_outcome. unfold standard_outcome, standard_kwargs.
    now rewrite !(clean_plain _ _ _ o Hp).
  - intros Hi Hi'. rewrite !fast_engine_outcome. unfold fast_outcome.
    rewrite <- get_module_importable in Hi, Hi'.
    unfold validate_orjson.
    destruct (get_module w "orjson" true); [|discriminate].
    destruct (get_module w' "orjson" true); [|discriminate].
    cbn [bind].
    assert (Hu : unwrapped o = o) by (destruct o; easy).
    rewrite Hu. unfold fast_kwargs.
    now rewrite !(clean_plain _ _ _ o Hp).
Qed.

Lemma plain_encoding_ignores_world_witness :
  outcome (_to_json_plotly quiet JsonConfig_init sample_figure true
             (Some "json"))
  = outcome (_to_json_plotly (loaded_world ["numpy"; "pandas"; "sage.all"])
               {| _default_engine := "legacy" |} sample_figure true
               (Some "json"))
  /\ outcome (_to_json_plotly with_orjson JsonConfig_init sample_figure true
                (Some "orjson"))
     = outcome (_to_json_plotly (loaded_world ["numpy"; "pandas"; "sage.all"])
                  {| _default_engine := "legacy" |} sample_figure true
                  (Some "orjson")).
Proof.
  split.
  - apply (proj1 (@plain_encoding_ignores_world quiet
                    (loaded_world ["numpy"; "pandas"; "sage.all"])
                    JsonConfig_init {| _default_engine := "legacy" |}
                    sample_figure true eq_refl)).
  - apply (proj2 (@plain_encoding_ignores_world with_orjson
                    (loaded_world ["numpy"; "pandas"; "sage.all"])
                    JsonConfig_init {| _default_engine := "legacy" |}
                    sample_figure true eq_refl)); reflexivity.
Defined.

Lemma listify_plain (o : obj) : plain o = true -> plain (listify o) = true.
Proof.
  induction o as [o Ho|l IH|l IH|items IH] using obj_json_ind; intros Hp.
  - destruct o; try discriminate; reflexivity.
  - cbn [plain listify] in *. rewrite forallb_map'.
    rewrite forallb_forall in *. rewrite Forall_forall in IH. auto.
  - cbn [plain listify] in *. rewrite forallb_map'.
    rewrite forallb_forall in *. rewrite Forall_forall in IH. auto.
  - cbn [plain listify] in *. rewrite forallb_on_values.
    rewrite forallb_forall in *. rewrite Forall_forall in IH.
    intros [k v] Hin. apply (IH (k, v) Hin). apply (Hp (k, v) Hin).
Qed.

Lemma listify_idem (o : obj) : listify (listify o) = listify o.
Proof.
  induction o as [o Ho|l IH|l IH|items IH] using obj_json_ind.
  - destruct o; try discriminate; reflexivity.
  - cbn [listify]. rewrite map_map. f_equal. now apply map_ext_Forall'.
  - cbn [listify]. rewrite map_map. f_equal. now apply map_ext_Forall'.
  - cbn [listify]. rewrite map_on_values_compose. f_equal.
    now apply map_on_values_ext.
Qed.

(** X23: the canonicaliser is idempotent on trees of the JSON types, and
    not in general.  For such a tree it returns the tree with each tuple
    turned into a list, whatever the flags and the world, and returns that
    value unchanged when called on it again.  An object with [tolist()] is
    replaced by what [tolist()] returns as it is, so a second call can
    still change the result. *)
Theorem clean_idempotent_on_plain :
  (forall w numpy_allowed datetime_allowed o,
      plain o = true ->
      let kw := Kwargs numpy_allowed datetime_allowed
                       (Some (adapter_modules w)) in
      clean_to_json_compatible kw o = Ok (listify o)
      /\ clean_to_json_compatible kw (listify o) = Ok (listify o))
  /\ (let kw := standard_kwargs quiet in
      clean_to_json_compatible kw (PArrayLike (PTuple [])) = Ok (PTuple [])
      /\ clean_to_json_compatible kw (PTuple []) = Ok (PList [])).
Proof.
  split.
  - intros w na da o Hp kw. subst kw. split.
    + now apply clean_plain.
    + rewrite clean_plain by now apply listify_plain.
      now rewrite listify_idem.
  - split; reflexivity.
Qed.

Lemma clean_idempotent_on_plain_witness :
  clean_to_json_compatible (fast_kwargs quiet) sample_figure
  = Ok (listify sample_figure)
  /\ clean_to_json_compatible (fast_kwargs quiet) (listify sample_figure)
     = Ok (listify sample_figure).
Proof.
  exact (proj1 clean_idempotent_on_plain quiet (Some true) (Some true)
           sample_figure eq_refl).
Defined.

(** ** JsonConfig: when an assignment succeeds *)

(** X24: an assignment to [config.default_engine] succeeds exactly when the
    value is one of the four engine names and, for [orjson], the package
    can be imported at that time; the getter then returns the assigned
    name. *)
Theorem set_default_engine_succeeds (w : world) (c : JsonConfig) (val : obj) :
  snd (set_default_engine w c val) = Ok tt
  <-> exists e,
      val = PStr e
      /\ str_in e _valid_engines = true
      /\ (e = "orjson" -> importable w "orjson" = true)
      /\ default_engine (fst (set_default_engine w c val)) = e.
Proof.
  unfold set_default_engine, validate_orjson.
  rewrite <- get_module_importable. split.
  - destruct val; try discriminate.
    destruct (str_in s _valid_engines) eqn:Hs; [|discriminate].
    cbn [negb]. destruct (String.eqb s "orjson") eqn:Ho.
    + destruct (get_module w "orjson" true); [|discriminate].
      intros _. exists s. repeat split; auto.
    + intros _. exists s. repeat split; auto.
      intros ->. discriminate.
  - intros (e & -> & Hs & Ho & _). rewrite Hs. cbn [negb].
    destruct (String.eqb e "orjson") eqn:E; [|reflexivity].
    apply String.eqb_eq in E. specialize (Ho E).
    destruct (get_module w "orjson" true); [reflexivity|discriminate].
Qed.

Lemma set_default_engine_succeeds_witness :
  snd (set_default_engine with_orjson JsonConfig_init (PStr "orjson")) = Ok tt
  /\ exists e,
      PStr "json" = PStr e
      /\ str_in e _valid_engines = true
      /\ (e = "orjson" -> importable quiet "orjson" = true)
      /\ default_engine (fst (set_default_engine quiet JsonConfig_init
                                (PStr "json"))) = e.
Proof.
  split.
  - apply (proj2 (set_default_engine_succeeds with_orjson JsonConfig_init
                    (PStr "orjson"))).
    exists "orjson". repeat split; reflexivity.
  - apply (proj1 (set_default_engine_succeeds quiet JsonConfig_init
                    (PStr "json"))).
    reflexivity.
Defined.

(** ** The repair pass changes nothing else *)

(** X25: on a canonical form whose dicts have [str] keys only (the dicts of
    [obj]), the repair pass touches non-finite floats only.  When such a
    form is well-formed and holds no NaN and no infinity, the standard
    engine returns exactly the text [json.dumps] wrote for it, also when a
    string or a key in it contains [NaN] or [Infinity] and so makes the
    engine parse the text and serialise it again.  (A dict with [int] keys
    is outside [obj]: there the second [json.dumps] orders the keys as
    strings.) *)
Theorem repair_keeps_finite_text (w : world) (config : JsonConfig) (o : obj)
    (pretty : bool) (c : obj) (t : string) :
  clean_to_json_compatible (standard_kwargs w) o = Ok c ->
  wf_obj c = true ->
  finite_tree c = true ->
  json_dumps c (dumps_opts_of pretty) = Ok t ->
  outcome (_to_json_plotly w config o pretty (Some "json")) = Ok (PStr t).
Proof.
  intros Hc Hwf Hfin Ht.
  destruct (@standard_outcome_text w o pretty c t Hc Hwf Ht)
    as (t' & Hout & Hd & _).
  rewrite standard_engine_outcome, Hout. do 2 f_equal.
  pose proof (module_opts_sort_keys (module_opts_of pretty)) as Hsort.
  unfold json_dumps in Hd, Ht.
  rewrite (@strict_form_text _ Hsort c 0) in Hd.
  rewrite (@strict_text_finite _ c 0 Hfin) in Hd. congruence.
Qed.

Lemma repair_keeps_finite_text_witness :
  outcome (_to_json_plotly quiet JsonConfig_init
             (PDict [("Infinity", PStr "NaN"); ("a", PTuple [PInt 1])])
             false (Some "json"))
  = Ok (PStr ("{" ++ quoted "Infinity" ++ ":" ++ quoted "NaN" ++ ","
              ++ quoted "a" ++ ":[1]}")).
Proof.
  apply (@repair_keeps_finite_text quiet JsonConfig_init
           (PDict [("Infinity", PStr "NaN"); ("a", PTuple [PInt 1])]) false
           (PDict [("Infinity", PStr "NaN"); ("a", PList [PInt 1])]));
    reflexivity.
Defined.

(** ** Encode after decode *)

(** X26: what decode returns can be encoded.  For a value that decode
    returned, with any engine and from any text, the standard engine returns
    a text, and that text decodes to the value with [None] for each
    non-finite float and the items of each dict in key order. *)
Theorem decoded_value_encodes (w w' : world) (config config' : JsonConfig)
    (value : obj) (engine : option string) (pretty : bool) (v : obj) :
  outcome (from_json_plotly w config value engine) = Ok v ->
  exists t,
    outcome (_to_json_plotly w' config' v pretty (Some "json")) = Ok (PStr t)
    /\ from_json_plotly w' config' (PStr t) (Some "json")
       = ([CallJsonLoads t], Ok (strict_form v)).
Proof.
  intros H.
  assert (Hv : json_value v = true /\ wf_obj v = true).
  { destruct (is_text value) eqn:Hx; [|destruct value; discriminate].
    destruct (determine_engine (get_module w "orjson" true)
                (match engine with
                 | None => default_engine config
                 | Some e => e
                 end)) as [e'|e] eqn:He.
    2:{ rewrite (from_json_plotly_engine_error w config value engine Hx He)
          in H. discriminate. }
    rewrite (from_json_plotly_unfold w config value engine Hx He) in H.
    destruct (String.eqb e' "orjson").
    - destruct (validate_orjson w); [|discriminate].
      now apply orjson_loads_json_value in H.
    - destruct (text_of value) as [text|]; [|discriminate].
      unfold outcome in H; cbn [snd] in H.
      apply json_loads_json_value in H; [assumption|discriminate]. }
  destruct Hv as [Hj Hwf]. pose proof (json_value_plain v Hj) as Hp.
  destruct (@plain_text_ok (dumps_opts_of pretty) v Hp 0) as (t0 & Ht0).
  destruct (@standard_outcome_text w' v pretty (listify v) t0)
    as (t & Hout & _ & Hload).
  { now apply clean_plain. }
  { now rewrite listify_wf. }
  { unfold json_dumps. now rewrite listify_text. }
  rewrite listify_strict_form in Hload.
  exists t. rewrite standard_engine_outcome. split; [assumption|].
  rewrite (@from_json_plotly_unfold w' config' (PStr t) (Some "json") "json"
             eq_refl eq_refl).
  cbn [String.eqb Ascii.eqb Bool.eqb text_of]. now rewrite Hload.
Qed.

Lemma decoded_value_encodes_witness :
  exists t,
    outcome (_to_json_plotly quiet JsonConfig_init
               (PDict [("b", PFloat FNaN); ("a", PList [PInt 2])]) true
               (Some "json")) = Ok (PStr t)
    /\ from_json_plotly quiet JsonConfig_init (PStr t) (Some "json")
       = ([CallJsonLoads t],
          Ok (strict_form (PDict [("b", PFloat FNaN); ("a", PList [PInt 2])]))).
Proof.
  apply (@decoded_value_encodes with_orjson quiet JsonConfig_init
           JsonConfig_init
           (PBytes ("{" ++ quoted "b" ++ ": NaN, " ++ quoted "a" ++ ": [1], "
                    ++ quoted "a" ++ ":[2]}")) (Some "legacy") true).
  reflexivity.
Defined.

(** * The engines on the same content *)

(** ** Lists related item by item *)








(** ** The relation *)






(** ** The canonical forms have the same content *)



(** ** The same content has the same text *)

Section SameText.

Variable be : backend.
Variable opts : dumps_opts.
Hypothesis Hsort : sort_keys opts = true.



End SameText.






(** * The engines, call by call *)

Lemma standard_engine_run (w : world) (config : JsonConfig) (o : obj)
    (pretty : bool) :
  _to_json_plotly w config o pretty (Some "json")
  = match clean_to_json_compatible (standard_kwargs w) o with
    | Raise e => ([CallClean o false false], Raise e)
    | Ok c =>
        match json_dumps c (dumps_opts_of pretty) with
        | Raise e => ([CallClean o false false; CallJsonDumps c], Raise e)
        | Ok t =>
            if has_constant_text t then
              match json_loads t (Some coerce_to_strict) with
              | Raise e =>
                  ([CallClean o false false; CallJsonDumps c; CallJsonLoads t],
                   Raise (if is_ValueError e then strict_failed else e))
              | Ok n =>
                  ([CallClean o false false; CallJsonDumps c; CallJsonLoads t;
                    CallJsonDumps n],
                   match json_dumps n (dumps_opts_of pretty) with
                   | Ok s => Ok (PStr s)
                   | Raise e => Raise e
                   end)
              end
            else ([CallClean o false false; CallJsonDumps c], Ok (PStr t))
        end
    end.
Proof.
  unfold _to_json_plotly.
  change (determine_engine (get_module w "orjson" true) "json")
    with (@Ok string "json").
  cbn [lift then_ app].
  change (str_in "json" ["json"; "legacy"]) with true.
  change ("json" =? "json") with true. cbv iota.
  fold (standard_kwargs w).
  destruct (clean_to_json_compatible (standard_kwargs w) o) as [c|e];
    [|reflexivity].
  unfold call, then_, ret, try_except, raise.
  destruct (json_dumps c (dumps_opts_of pretty)) as [t|e]; [|reflexivity].
  fold (has_constant_text t).
  destruct (has_constant_text t); [|reflexivity]. cbn [negb].
  destruct (json_loads t (Some coerce_to_strict)) as [n|e].
  - destruct (json_dumps n (dumps_opts_of pretty)); reflexivity.
  - destruct (is_ValueError e); reflexivity.
Qed.

Lemma standard_engine_first_call (w : world) (config : JsonConfig) (o : obj)
    (pretty : bool) :
  exists rest,
    calls (_to_json_plotly w config o pretty (Some "json"))
    = CallClean o false false :: rest.
Proof.
  rewrite standard_engine_run.
  destruct (clean_to_json_compatible _ o) as [c|]; [|eexists; reflexivity].
  destruct (json_dumps c _) as [t|]; [|eexists; reflexivity].
  destruct (has_constant_text t); [|eexists; reflexivity].
  destruct (json_loads t _); eexists; reflexivity.
Qed.

Lemma standard_engine_no_fast_call (w : world) (config : JsonConfig) (o : obj)
    (pretty : bool) (x : obj) :
  ~ In (CallOrjsonDumps x)
       (calls (_to_json_plotly w config o pretty (Some "json"))).
Proof.
  rewrite standard_engine_run.
  destruct (clean_to_json_compatible _ o) as [c|].
  2:{ intros [H|[]]; discriminate. }
  destruct (json_dumps c _) as [t|].
  2:{ intros [H|[H|[]]]; discriminate. }
  destruct (has_constant_text t).
  2:{ intros [H|[H|[]]]; discriminate. }
  destruct (json_loads t _).
  - intros [H|[H|[H|[H|[]]]]]; discriminate.
  - intros [H|[H|[H|[]]]]; discriminate.
Qed.

Lemma fast_engine_first_call (w : world) (config : JsonConfig) (o : obj)
    (pretty : bool) :
  importable w "orjson" = true ->
  exists rest,
    calls (_to_json_plotly w config o pretty (Some "orjson"))
    = CallOrjsonDumps (unwrapped o) :: rest.
Proof.
  intros Hi. rewrite (@fast_engine_unfold w config o pretty Hi).
  destruct (orjson_dumps (unwrapped o) _) as [s|e]; [eexists; reflexivity|].
  destruct (is_TypeError e); [|eexists; reflexivity].
  destruct (clean_to_json_compatible _ (unwrapped o)); eexists; reflexivity.
Qed.

Lemma from_json_auto (w : world) (config : JsonConfig) (value : obj) :
  is_text value = true ->
  from_json_plotly w config value (Some "auto")
  = if importable w "orjson" then ([CallOrjsonLoads value], orjson_loads value)
    else match text_of value with
         | Ok text => ([CallJsonLoads text], json_loads text None)
         | Raise e => ([], Raise e)
         end.
Proof.
  intros Hv.
  assert (Hd : determine_engine (get_module w "orjson" true) "auto"
               = Ok (if importable w "orjson" then "orjson" else "json")).
  { unfold determine_engine. simpl. rewrite get_module_importable.
    now destruct (importable w "orjson"). }
  rewrite (@from_json_plotly_unfold w config value (Some "auto") _ Hv Hd).
  destruct (importable w "orjson") eqn:Hi; [|reflexivity].
  change ("orjson" =? "orjson") with true. cbv iota.
  unfold validate_orjson. rewrite <- get_module_importable in Hi.
  destruct (get_module w "orjson" true); [reflexivity|discriminate].
Qed.

(** C6: the selector "auto" is resolved in the world of the call.  If the
    package can be imported then, encode makes the fast engine's first call,
    the fast serialiser on the item (or its view), and has the fast engine's
    outcome, and decode of a text is one call of the fast parser; if it
    cannot, encode first calls the canonicaliser with both flags false,
    never calls the fast serialiser and has the standard engine's outcome,
    and decode is one call of the standard parser.  So encode calls the fast
    serialiser exactly when the package can be imported; a stored default
    "auto" is resolved in the same way; and of two calls with the same
    configuration, one in a world without the package and the next in a
    world with it, the first takes the standard engine and the second the
    fast one. *)
Theorem auto_resolves_at_call_time :
  (forall w config o pretty,
      importable w "orjson" = true ->
      (exists rest,
          calls (_to_json_plotly w config o pretty (Some "auto"))
          = CallOrjsonDumps (unwrapped o) :: rest)
      /\ outcome (_to_json_plotly w config o pretty (Some "auto"))
         = fast_outcome w pretty o)
  /\ (forall w config o pretty,
        importable w "orjson" = false ->
        (exists rest,
            calls (_to_json_plotly w config o pretty (Some "auto"))
            = CallClean o false false :: rest)
        /\ (forall x,
               ~ In (CallOrjsonDumps x)
                    (calls (_to_json_plotly w config o pretty (Some "auto"))))
        /\ outcome (_to_json_plotly w config o pretty (Some "auto"))
           = standard_outcome w pretty o)
  /\ (forall w config o pretty,
        (exists x,
            In (CallOrjsonDumps x)
               (calls (_to_json_plotly w config o pretty (Some "auto"))))
        <-> importable w "orjson" = true)
  /\ (forall w config value,
        is_text value = true ->
        importable w "orjson" = true ->
        from_json_plotly w config value (Some "auto")
        = ([CallOrjsonLoads value], orjson_loads value))
  /\ (forall w config value,
        is_text value = true ->
        importable w "orjson" = false ->
        from_json_plotly w config value (Some "auto")
        = match text_of value with
          | Ok text => ([CallJsonLoads text], json_loads text None)
          | Raise e => ([], Raise e)
          end)
  /\ (forall w config o value pretty,
        default_engine config = "auto" ->
        _to_json_plotly w config o pretty None
        = _to_json_plotly w config o pretty (Some "auto")
        /\ from_json_plotly w config value None
           = from_json_plotly w config value (Some "auto"))
  /\ (forall w1 w2 config o pretty,
        importable w1 "orjson" = false ->
        importable w2 "orjson" = true ->
        (exists rest,
            calls (_to_json_plotly w1 config o pretty (Some "auto"))
            = CallClean o false false :: rest)
        /\ (exists rest,
               calls (_to_json_plotly w2 config o pretty (Some "auto"))
               = CallOrjsonDumps (unwrapped o) :: rest)).
Proof.
  assert (Hfast : forall w config o pretty,
             importable w "orjson" = true ->
             (exists rest,
                 calls (_to_json_plotly w config o pretty (Some "auto"))
                 = CallOrjsonDumps (unwrapped o) :: rest)
             /\ outcome (_to_json_plotly w config o pretty (Some "auto"))
                = fast_outcome w pretty o).
  { intros w config o pretty Hi. rewrite to_json_auto, Hi. split.
    - now apply fast_engine_first_call.
    - apply fast_engine_outcome. }
  assert (Hstd : forall w config o pretty,
             importable w "orjson" = false ->
             (exists rest,
                 calls (_to_json_plotly w config o pretty (Some "auto"))
                 = CallClean o false false :: rest)
             /\ (forall x,
                    ~ In (CallOrjsonDumps x)
                         (calls (_to_json_plotly w config o pretty
                                   (Some "auto"))))
             /\ outcome (_to_json_plotly w config o pretty (Some "auto"))
                = standard_outcome w pretty o).
  { intros w config o pretty Hi. rewrite to_json_auto, Hi.
    split; [|split].
    - apply standard_engine_first_call.
    - intros x. apply standard_engine_no_fast_call.
    - apply standard_engine_outcome. }
  split; [exact Hfast|].
  split; [exact Hstd|].
  split.
  { intros w config o pretty. destruct (importable w "orjson") eqn:Hi.
    - split; [reflexivity|]. intros _.
      destruct (Hfast w config o pretty Hi) as [(rest & ->) _].
      exists (unwrapped o). now left.
    - split; [|discriminate]. intros (x & Hx).
      now apply (proj1 (proj2 (Hstd w config o pretty Hi)) x) in Hx. }
  split.
  { intros w config value Hv Hi. now rewrite (@from_json_auto w config value Hv), Hi. }
  split.
  { intros w config value Hv Hi. now rewrite (@from_json_auto w config value Hv), Hi. }
  split.
  { intros w config o value pretty Hd. split.
    - unfold _to_json_plotly. now rewrite Hd.
    - unfold from_json_plotly. now rewrite Hd. }
  intros w1 w2 config o pretty H1 H2. split.
  - apply (Hstd w1 config o pretty H1).
  - apply (Hfast w2 config o pretty H2).
Qed.

Lemma auto_resolves_at_call_time_witness :
  (exists rest,
      calls (_to_json_plotly quiet JsonConfig_init
               (PExportable (PDict [("a", PInt 1)])) false (Some "auto"))
      = CallClean (PExportable (PDict [("a", PInt 1)])) false false :: rest)
  /\ (exists rest,
         calls (_to_json_plotly with_orjson JsonConfig_init
                  (PExportable (PDict [("a", PInt 1)])) false (Some "auto"))
         = CallOrjsonDumps (PDict [("a", PInt 1)]) :: rest).
Proof.
  apply (proj2 (proj2 (proj2 (proj2 (proj2 (proj2
           auto_resolves_at_call_time)))))
           quiet with_orjson JsonConfig_init
           (PExportable (PDict [("a", PInt 1)])) false);
    reflexivity.
Defined.

(** ** The standard engine and the legacy one *)

Lemma legacy_engine_run (w : world) (config : JsonConfig) (o : obj)
    (pretty : bool) :
  _to_json_plotly w config o pretty (Some "legacy")
  = ([CallJsonDumpsCls o (dumps_opts_of pretty)],
     s <- PlotlyJSONEncoder_dumps w o (dumps_opts_of pretty) ;; Ok (PStr s)).
Proof.
  unfold _to_json_plotly.
  change (determine_engine (get_module w "orjson" true) "legacy")
    with (@Ok string "legacy").
  cbn [lift then_ app].
  change (str_in "legacy" ["json"; "legacy"]) with true.
  change ("legacy" =? "json") with false. cbv iota.
  unfold call, then_, ret.
  destruct (PlotlyJSONEncoder_dumps w o (dumps_opts_of pretty)); reflexivity.
Qed.

(** C2 as worded fails: the legacy branch itself calls no canonicaliser. *)
Lemma legacy_canonicalizes_first_fails : ~ legacy_canonicalizes_first.
Proof.
  intros H. destruct (H quiet JsonConfig_init PNone false) as (rest & Hr).
  rewrite legacy_engine_run in Hr. discriminate Hr.
Qed.

(** C2 (as the code has it): the standard engine first calls the
    canonicaliser with [numpy_allowed] and [datetime_allowed] false, so that
    the serialiser receives the list of a numeric array and the ISO string
    of a datetime, then the serialiser, and its outcome is that of the
    repair pass on the text: the text is parsed again exactly when it
    contains [NaN] or [Infinity].  The legacy engine makes one call: the
    item as it was passed, with the same key and whitespace options, goes to
    [json.dumps] with [PlotlyJSONEncoder]; the dispatcher calls neither the
    canonicaliser nor the repair pass, and returns what that call returns. *)
Theorem standard_repairs_legacy_delegates :
  (forall w config o pretty,
      (exists rest,
          calls (_to_json_plotly w config o pretty (Some "json"))
          = CallClean o false false :: rest)
      /\ outcome (_to_json_plotly w config o pretty (Some "json"))
         = standard_outcome w pretty o)
  /\ (forall w config pretty kind tl ds,
        numeric_kind kind = true ->
        exists rest,
          calls (_to_json_plotly w config (PNdarray kind tl ds) pretty
                   (Some "json"))
          = CallClean (PNdarray kind tl ds) false false
            :: CallJsonDumps tl :: rest)
  /\ (forall w config pretty iso,
        exists rest,
          calls (_to_json_plotly w config (PDatetime iso) pretty (Some "json"))
          = CallClean (PDatetime iso) false false
            :: CallJsonDumps (PStr iso) :: rest)
  /\ (forall w config o pretty c t,
        clean_to_json_compatible (standard_kwargs w) o = Ok c ->
        json_dumps c (dumps_opts_of pretty) = Ok t ->
        (In (CallJsonLoads t)
            (calls (_to_json_plotly w config o pretty (Some "json")))
         <-> has_constant_text t = true))
  /\ (forall w config o pretty,
        _to_json_plotly w config o pretty (Some "legacy")
        = ([CallJsonDumpsCls o (dumps_opts_of pretty)],
           s <- PlotlyJSONEncoder_dumps w o (dumps_opts_of pretty) ;;
           Ok (PStr s))).
Proof.
  split; [|split; [|split; [|split]]].
  - intros w config o pretty. split.
    + apply standard_engine_first_call.
    + apply standard_engine_outcome.
  - intros w config pretty kind tl ds Hk. rewrite standard_engine_run.
    assert (Ha : clean_to_json_compatible (standard_kwargs w)
                   (PNdarray kind tl ds) = Ok tl).
    { rewrite clean_unfold. unfold standard_kwargs.
      clean_cases w; destruct kind; try discriminate; reflexivity. }
    rewrite Ha.
    destruct (json_dumps tl _) as [t|]; [|eexists; reflexivity].
    destruct (has_constant_text t); [|eexists; reflexivity].
    destruct (json_loads t _); eexists; reflexivity.
  - intros w config pretty iso. rewrite standard_engine_run.
    assert (Hd : clean_to_json_compatible (standard_kwargs w) (PDatetime iso)
                 = Ok (PStr iso)).
    { rewrite clean_unfold. unfold standard_kwargs.
      clean_cases w; reflexivity. }
    rewrite Hd.
    destruct (json_dumps (PStr iso) _) as [t|]; [|eexists; reflexivity].
    destruct (has_constant_text t); [|eexists; reflexivity].
    destruct (json_loads t _); eexists; reflexivity.
  - intros w config o pretty c t Hc Ht.
    rewrite standard_engine_run, Hc, Ht.
    destruct (has_constant_text t).
    + split; [reflexivity|]. intros _.
      destruct (json_loads t _); cbn [calls fst]; simpl; auto.
    + split; [|discriminate].
      intros [H|[H|[]]]; discriminate.
  - apply legacy_engine_run.
Qed.

Lemma standard_repairs_legacy_delegates_witness :
  (exists rest,
      calls (_to_json_plotly quiet JsonConfig_init
               (PNdarray Ki (PList [PInt 1; PInt 2]) PNone) false (Some "json"))
      = CallClean (PNdarray Ki (PList [PInt 1; PInt 2]) PNone) false false
        :: CallJsonDumps (PList [PInt 1; PInt 2]) :: rest)
  /\ (In (CallJsonLoads "[NaN]")
         (calls (_to_json_plotly quiet JsonConfig_init
                   (PTuple [PFloat FNaN]) false (Some "json")))
      <-> has_constant_text "[NaN]" = true).
Proof.
  split.
  - exact (proj1 (proj2 standard_repairs_legacy_delegates)
             quiet JsonConfig_init false Ki (PList [PInt 1; PInt 2]) PNone
             eq_refl).
  - exact (proj1 (proj2 (proj2 (proj2 standard_repairs_legacy_delegates)))
             quiet JsonConfig_init (PTuple [PFloat FNaN]) false
             (PList [PFloat FNaN]) "[NaN]" eq_refl eq_refl).
Defined.
